(** * Decoding core of the language-model pipeline

    A shallow embedding of [src/lm_encoding.cpp] (beam-state updaters and the
    decode loop [get_lm_encoded_results]) and of the turn driver
    [VLMPipelineImpl::generate] of [src/visual_language/pipeline.cpp].

    Integers are [Z]; every C++ conversion and every unsigned wrap-around is
    written out.  Buffers are lists of 64-bit words.  A computation ends in
    one of three ways: it completes, it throws a C++ exception, or it leaves
    the language's defined behaviour (a raw access outside a buffer). *)

From Stdlib Require Import ZArith List Lia Bool.
From stdpp Require Import base option list gmap strings.
Import ListNotations.
Local Open Scope Z_scope.

(** ** Machine integers *)

Module Machine.

Definition SIZE_MOD : Z := 2 ^ 64.
Definition INT_MAX : Z := 2 ^ 31 - 1.

(** Arithmetic on [size_t] is modulo [2^64]; a signed operand is first
    converted to [size_t] the same way. *)
Definition to_size_t (z : Z) : Z := z mod SIZE_MOD.

(** Narrowing to [int] / [int32_t] (two's complement). *)
Definition to_int32 (z : Z) : Z := (z + 2 ^ 31) mod 2 ^ 32 - 2 ^ 31.

(** Conversion to [int64_t] (two's complement). *)
Definition to_int64 (z : Z) : Z := (z + 2 ^ 63) mod 2 ^ 64 - 2 ^ 63.

(** [sizeof(int64_t)] *)
Definition sizeof_int64 : Z := 8.

End Machine.
Import Machine.

(** ** Outcomes of a C++ computation *)

Inductive Exception : Set :=
| std_out_of_range   (* thrown by [std::vector::at] and [std::map::at] *)
| ov_exception.      (* thrown by [OPENVINO_THROW] / [OPENVINO_ASSERT] *)

Inductive outcome (A : Type) : Type :=
| Done (a : A)              (* normal completion *)
| Throws (e : Exception)    (* a structured error reaches the caller *)
| Undefined.                (* unchecked access outside a buffer *)
Arguments Done {A} a.
Arguments Throws {A} e.
Arguments Undefined {A}.

(** Sequencing stops at the first exception or undefined access; the
    notation [x ← m; k] is stdpp's, for this monad. *)
#[global] Instance outcome_ret : MRet outcome := fun A a => Done a.
#[global] Instance outcome_bind : MBind outcome := fun A B k m =>
  match m with
  | Done a => k a
  | Throws e => Throws e
  | Undefined => Undefined
  end.

(** A counted [for] loop, [for (i = lo; i < lo + n; i++) body], threading the
    mutated state. *)
Fixpoint for_loop {St : Type} (lo : nat) (n : nat)
    (body : nat -> St -> outcome St) (s : St) : outcome St :=
  match n with
  | O => Done s
  | S n' => s' ← body lo s ; for_loop (S lo) n' body s'
  end.

(** A range-based [for] loop, [for (auto& x : xs) body]. *)
Fixpoint for_each {A St : Type} (xs : list A)
    (body : A -> St -> outcome St) (s : St) : outcome St :=
  match xs with
  | [] => Done s
  | x :: xs' => s' ← body x s ; for_each xs' body s'
  end.

(** ** Buffers and tensors *)

Module Buffer.

(** Unchecked pointer accesses: [p[off]], and the ranges touched by
    [memcpy] and [std::accumulate].  Offsets and counts are [size_t]
    values. *)
Definition in_range (buf : list Z) (off n : Z) : bool :=
  (0 <=? off) && (0 <=? n) && (off + n <=? Z.of_nat (length buf)).

Definition load_range (buf : list Z) (off n : Z) : outcome (list Z) :=
  if in_range buf off n
  then Done (take (Z.to_nat n) (drop (Z.to_nat off) buf))
  else Undefined.

Definition store_range (buf : list Z) (off : Z) (vals : list Z) : outcome (list Z) :=
  if in_range buf off (Z.of_nat (length vals))
  then Done (take (Z.to_nat off) buf ++ vals
             ++ drop (Z.to_nat off + length vals) buf)
  else Undefined.

Definition store (buf : list Z) (off : Z) (v : Z) : outcome (list Z) :=
  store_range buf off [v].

End Buffer.
Import Buffer.

Record Tensor : Type := mkTensor {
  shape : list Z;
  data : list Z
}.

(** [ov::Shape::at(i)] *)
Definition shape_at (s : list Z) (i : nat) : outcome Z :=
  match s !! i with
  | Some d => Done d
  | None => Throws std_out_of_range
  end.

(** [std::vector::at(i)] *)
Definition vector_at {A} (v : list A) (i : nat) : outcome A :=
  match v !! i with
  | Some x => Done x
  | None => Throws std_out_of_range
  end.

(** Unchecked [std::vector::operator[]] *)
Definition vector_index {A} (v : list A) (i : Z) : outcome A :=
  if 0 <=? i then
    match v !! Z.to_nat i with
    | Some x => Done x
    | None => Undefined
    end
  else Undefined.

Definition shape_size (s : list Z) : Z := fold_right Z.mul 1 s.

(** [ov::Tensor::set_shape]: the tensor gets the new shape; what its buffer
    holds afterwards is not specified (the old words when the allocation is
    reused, anything after a reallocation), so the contents are the
    arbitrary [stale]. *)
Definition set_shape (stale : nat -> Z) (new_shape : list Z) (t : Tensor) : Tensor :=
  {| shape := new_shape;
     data := map stale (seq 0 (Z.to_nat (shape_size new_shape))) |}.

(** A tensor whose buffer matches its two-dimensional shape and fits the
    address space. *)
Definition matrix (t : Tensor) (rows cols : Z) : Prop :=
  shape t = [rows; cols] /\ 0 <= rows /\ 0 <= cols /\
  Z.of_nat (length (data t)) = rows * cols /\
  sizeof_int64 * (rows * cols) < SIZE_MOD /\ cols < SIZE_MOD.

(** Row [r] of a two-dimensional tensor: [cols] words from offset
    [r * cols]. *)
Definition row_words (t : Tensor) (cols r : Z) : list Z :=
  take (Z.to_nat cols) (drop (Z.to_nat (r * cols)) (data t)).

Definition tensor_row (t : Tensor) (r : Z) : option (list Z) :=
  match shape t with
  | [rows; cols] =>
      if (0 <=? r) && (r <? rows) then Some (row_words t cols r) else None
  | _ => None
  end.

(** Row [r] of a mask with a 1 appended as its new last entry. *)
Definition extended_row (t : Tensor) (cols r : Z) : list Z :=
  row_words t cols r ++ [1].

(** The number of 1s in a run of mask words. *)
Definition count_ones (words : list Z) : Z :=
  Z.of_nat (length (List.filter (Z.eqb 1) words)).

(** A mask holds only 0s and 1s. *)
Definition binary (words : list Z) : Prop :=
  Forall (fun w => w = 0 \/ w = 1) words.

(** ** Beam State Updater ([lm_encoding.cpp], lines 21-50) *)

Module BeamState.

(** [std::accumulate(first, last, 0)]: the initial value is the [int]
    literal [0], so the running sum is an [int]; each step adds an
    [int64_t] word and narrows back. *)
Definition accumulate_int (words : list Z) : Z :=
  fold_left (fun acc w => to_int32 (acc + w)) words 0.

(** Lines 27-28: the body of the loop over the rows. *)
Definition position_of_row (attention_mask : Tensor) (sequence_length : Z)
    (batch : nat) (buf : list Z) : outcome (list Z) :=
  let mask_start := to_size_t (Z.of_nat batch * sequence_length) in
  words ← load_range (data attention_mask) mask_start
            (to_size_t (sequence_length - 1)) ;
  store buf (Z.of_nat batch) (accumulate_int words).

Definition update_position_ids (stale : nat -> Z)
    (position_ids attention_mask : Tensor) : outcome Tensor :=
  batch_size ← shape_at (shape attention_mask) 0 ;
  sequence_length ← shape_at (shape attention_mask) 1 ;
  let position_ids := set_shape stale [batch_size; 1] position_ids in
  buf ← for_loop 0 (Z.to_nat batch_size)
          (position_of_row attention_mask sequence_length)
          (data position_ids) ;
  Done {| shape := shape position_ids; data := buf |}.

(** Lines 41-48: the body of the loop over the beams. *)
Definition copy_beam (original_mask : Tensor) (original_shape new_shape : list Z)
    (next_beams : list Z) (beam_id : nat) (buf : list Z) : outcome (list Z) :=
  beam ← vector_at next_beams beam_id ;
  ocols ← shape_at original_shape 1 ;
  let original_prompt_offset := to_size_t (to_size_t beam * ocols) in
  ncols ← shape_at new_shape 1 ;
  let result_prompt_offset := to_size_t (Z.of_nat beam_id * ncols) in
  (* memcpy(dest, src, original_shape.at(1) * sizeof(int64_t)) *)
  ocols' ← shape_at original_shape 1 ;
  let nbytes := to_size_t (ocols' * sizeof_int64) in
  words ← load_range (data original_mask) original_prompt_offset
            (nbytes / sizeof_int64) ;
  buf ← store_range buf result_prompt_offset words ;
  ncols' ← shape_at new_shape 1 ;
  store buf (to_size_t (to_size_t (result_prompt_offset + ncols') - 1)) 1.

Definition update_attention_mask_with_beams (stale : nat -> Z)
    (attention_mask : Tensor) (next_beams : list Z) : outcome Tensor :=
  (* original_mask is a private copy of the incoming words *)
  let original_mask := {| shape := shape attention_mask; data := data attention_mask |} in
  let original_shape := shape original_mask in
  cols ← shape_at (shape original_mask) 1 ;
  let new_shape := [Z.of_nat (length next_beams); to_size_t (cols + 1)] in
  let attention_mask := set_shape stale new_shape attention_mask in
  buf ← for_loop 0 (length next_beams)
          (copy_beam original_mask original_shape new_shape next_beams)
          (data attention_mask) ;
  Done {| shape := shape attention_mask; data := buf |}.

End BeamState.


(** ** Decode Loop Orchestrator ([lm_encoding.cpp], lines 53-194) *)

Module Orchestrator.

Inductive GenerationFinishReason : Set := NONE | STOP | LENGTH.

Definition finish_reason_eqb (a b : GenerationFinishReason) : bool :=
  match a, b with
  | NONE, NONE | STOP, STOP | LENGTH, LENGTH => true
  | _, _ => false
  end.

(** The fields of [GenerationConfig] that the two files read. *)
Record GenerationConfig : Type := mkGenerationConfig {
  num_return_sequences : nat;      (* [size_t]; only compared with a size *)
  is_beam_search : bool;
  rng_seed : Z;
  eos_token_id : Z
}.

Section Collaborators.

(** Scores are [float]s that this code only moves around; they stay opaque. *)
Context {score : Type}.
(** What the sampling policy keeps per request. *)
Context {request_info : Type}.

(** [Sequence] and [SequenceGroup] are declared outside these two files; the
    records hold what their accessors return. *)
Record Sequence : Type := mkSequence {
  get_id : Z;
  get_generated_ids : list Z;
  get_cumulative_log_probs : score;
  get_finish_reason : GenerationFinishReason
}.

Record SequenceGroup : Type := mkSequenceGroup {
  get_request_id : Z;
  get_prompt_ids : list Z;
  get_sampling_parameters : GenerationConfig;
  get_num_processed_tokens : Z;
  get_num_scheduled_tokens : Z;
  get_running_sequences : list Sequence;
  get_finished_sequences : list Sequence;
  has_finished : bool;
  out_of_memory : bool;
  handle_dropped : bool
}.

Definition get_prompt_len (sg : SequenceGroup) : Z :=
  Z.of_nat (length (get_prompt_ids sg)).

Definition num_running_seqs (sg : SequenceGroup) : Z :=
  Z.of_nat (length (get_running_sequences sg)).

(** Modelled from the spec: [SequenceGroup::update_processed_tokens_num] is
    not in these files; it records the number of tokens already processed. *)
Definition update_processed_tokens_num (sg : SequenceGroup) (n : Z) : SequenceGroup :=
  {| get_request_id := get_request_id sg;
     get_prompt_ids := get_prompt_ids sg;
     get_sampling_parameters := get_sampling_parameters sg;
     get_num_processed_tokens := n;
     get_num_scheduled_tokens := get_num_scheduled_tokens sg;
     get_running_sequences := get_running_sequences sg;
     get_finished_sequences := get_finished_sequences sg;
     has_finished := has_finished sg;
     out_of_memory := out_of_memory sg;
     handle_dropped := handle_dropped sg |}.

(** Modelled from the spec: [SequenceGroup::schedule_tokens] is not in these
    files; it marks that many tokens as scheduled for the current step. *)
Definition schedule_tokens (sg : SequenceGroup) (n : Z) : SequenceGroup :=
  {| get_request_id := get_request_id sg;
     get_prompt_ids := get_prompt_ids sg;
     get_sampling_parameters := get_sampling_parameters sg;
     get_num_processed_tokens := get_num_processed_tokens sg;
     get_num_scheduled_tokens := n;
     get_running_sequences := get_running_sequences sg;
     get_finished_sequences := get_finished_sequences sg;
     has_finished := has_finished sg;
     out_of_memory := out_of_memory sg;
     handle_dropped := handle_dropped sg |}.

Record EncodedResults : Type := mkEncodedResults {
  tokens : list (list Z);
  scores : list score
}.

(** The sampling policy: its per-request bookkeeping, keyed by request id,
    and its seed. *)
Record Sampler : Type := mkSampler {
  sampler_requests : gmap Z request_info;
  get_seed : Z
}.

Definition set_seed (s : Sampler) (seed : Z) : Sampler :=
  {| sampler_requests := sampler_requests s; get_seed := seed |}.

(** Modelled from the spec: [Sampler::clear_request_info] is not in these
    files; it releases the bookkeeping of one request and is idempotent (not
    an error if already absent). *)
Definition clear_request_info (s : Sampler) (request_id : Z) : Sampler :=
  {| sampler_requests := delete request_id (sampler_requests s);
     get_seed := get_seed s |}.

(** The compute engine: its named tensors and its internal cache, of which
    only the length along the sequence axis is visible. *)
Record InferRequest : Type := mkInferRequest {
  tensors : gmap string Tensor;
  kv_cache_len : Z
}.

Definition set_tensor (r : InferRequest) (name : string) (t : Tensor) : InferRequest :=
  {| tensors := <[name := t]> (tensors r); kv_cache_len := kv_cache_len r |}.

Definition get_tensor (r : InferRequest) (name : string) : outcome Tensor :=
  match tensors r !! name with
  | Some t => Done t
  | None => Throws ov_exception
  end.

(** The black boxes: one synchronous engine call, the sampling policy's two
    queries, and the beam-search score of a hypothesis. *)
Variable infer : InferRequest -> InferRequest.
Variable sample : Sampler -> list SequenceGroup -> Tensor -> Sampler * list SequenceGroup.
Variable get_beam_idxs : Sampler -> SequenceGroup -> gmap Z Z.
Variable get_beam_search_score : Sequence -> GenerationConfig -> score.
(** What a buffer holds right after it is allocated or resized. *)
Variable stale : nat -> Z.

(** *** The shared sequence groups

    [sequence_groups] and [active_sequence_groups] hold shared pointers to
    the same objects.  The heap is the list of the objects; a pointer is a
    position in it. *)
Definition deref (heap : list SequenceGroup) (p : nat) : outcome SequenceGroup :=
  match heap !! p with
  | Some sg => Done sg
  | None => Undefined
  end.

Definition deref_all (heap : list SequenceGroup) (ps : list nat) : outcome (list SequenceGroup) :=
  fold_right (fun p acc => sg ← deref heap p ; sgs ← acc ; Done (sg :: sgs))
             (Done []) ps.

(** The sampler mutates the groups it was given, through their pointers. *)
Fixpoint write_back (heap : list SequenceGroup) (ps : list nat)
    (sgs : list SequenceGroup) : list SequenceGroup :=
  match ps, sgs with
  | p :: ps', sg :: sgs' => write_back (<[p := sg]> heap) ps' sgs'
  | _, _ => heap
  end.

Definition sample_groups (sampler : Sampler) (heap : list SequenceGroup)
    (ps : list nat) (logits : Tensor) : outcome (Sampler * list SequenceGroup) :=
  sgs ← deref_all heap ps ;
  let '(sampler', sgs') := sample sampler sgs logits in
  Done (sampler', write_back heap ps sgs').

(** *** Prompt step (lines 86-100) *)

Definition prompt_bookkeeping (sequence_len : Z) (sg : SequenceGroup) : SequenceGroup :=
  let sg := update_processed_tokens_num sg (to_size_t (get_prompt_len sg - sequence_len)) in
  schedule_tokens sg (to_size_t sequence_len).

(** [std::map::insert] keeps an entry that is already there. *)
Definition map_insert_new (m : gmap Z Z) (k v : Z) : gmap Z Z :=
  match m !! k with
  | Some _ => m
  | None => <[k := v]> m
  end.

Definition initial_beam_offets (sequence_groups : list SequenceGroup) : gmap Z Z :=
  fold_left (fun offs '(i, sg) => map_insert_new offs (get_request_id sg) (Z.of_nat i))
            (imap (fun i sg => (i, sg)) sequence_groups) ∅.

(** *** One generation step (lines 103-165) *)

(** Lines 103-109. *)
Definition schedule_group (p : nat) (acc : list SequenceGroup * Z)
  : outcome (list SequenceGroup * Z) :=
  let '(heap, total_num_tokens) := acc in
  sg ← deref heap p ;
  let sg := schedule_tokens sg 1 in
  let num_sequences := num_running_seqs sg in
  Done (<[p := sg]> heap,
        to_size_t (total_num_tokens
                   + to_size_t (get_num_scheduled_tokens sg * num_sequences))).

Definition schedule_step (heap : list SequenceGroup) (active : list nat)
  : outcome (list SequenceGroup * Z) :=
  for_each active schedule_group (heap, 0).

(** Lines 127-129: the token at one absolute position. *)
Definition token_at (sg : SequenceGroup) (sequence : Sequence) (position_id : Z) : outcome Z :=
  if position_id <? get_prompt_len sg
  then vector_index (get_prompt_ids sg) position_id
  else vector_index (get_generated_ids sequence)
                    (to_size_t (position_id - get_prompt_len sg)).

(** [std::map::operator[]] read of a local map: an absent key reads as 0. *)
Definition map_index (m : gmap Z Z) (k : Z) : Z := default 0 (m !! k).

(** [std::map::at] *)
Definition map_at (m : gmap Z Z) (k : Z) : outcome Z :=
  match m !! k with
  | Some v => Done v
  | None => Throws std_out_of_range
  end.

(** The state of the row-building loops: the words of [new_input_ids], the
    write cursor [input_ids_data] as an offset into them, and [next_beams]. *)
Record RowBuilder : Type := mkRowBuilder {
  input_words : list Z;
  input_ids_data : Z;
  next_beams : list Z
}.

(** Lines 127-129: the body of the loop over the scheduled tokens; the
    write goes through the cursor. *)
Definition write_token (sg : SequenceGroup) (sequence : Sequence)
    (cursor group_position_id : Z) (token_id : nat) (words : list Z)
  : outcome (list Z) :=
  let position_id := to_size_t (group_position_id + Z.of_nat token_id) in
  tok ← token_at sg sequence position_id ;
  store words (cursor + Z.of_nat token_id) tok.

(** Lines 123-134: the rows of one running sequence. *)
Definition build_sequence_rows (sg : SequenceGroup) (beam_idxs beam_offets : gmap Z Z)
    (sequence : Sequence) (b : RowBuilder) : outcome RowBuilder :=
  let num_scheduled_tokens := get_num_scheduled_tokens sg in
  let group_position_id := get_num_processed_tokens sg in
  words ← for_loop 0 (Z.to_nat num_scheduled_tokens)
            (write_token sg sequence (input_ids_data b) group_position_id)
            (input_words b) ;
  offset ← map_at beam_offets (get_request_id sg) ;
  Done {| input_words := words;
          input_ids_data := input_ids_data b + num_scheduled_tokens;
          next_beams := next_beams b
            ++ [to_int32 (to_size_t (to_size_t (map_index beam_idxs (get_id sequence)) + offset))] |}.

(** Lines 115-135. *)
Definition build_group_rows (sampler : Sampler) (beam_offets : gmap Z Z)
    (sg : SequenceGroup) (b : RowBuilder) : outcome RowBuilder :=
  let running_sequences := get_running_sequences sg in
  let beam_idxs := get_beam_idxs sampler sg in
  for_each running_sequences (build_sequence_rows sg beam_idxs beam_offets) b.

Definition build_rows (sampler : Sampler) (beam_offets : gmap Z Z)
    (groups : list SequenceGroup) (total_num_tokens : Z) : outcome RowBuilder :=
  let new_input_ids := set_shape stale [total_num_tokens; 1] (mkTensor [] []) in
  for_each groups (build_group_rows sampler beam_offets)
    {| input_words := data new_input_ids;
       input_ids_data := 0;
       next_beams := [] |}.

(** Lines 137-140.  [beam_offets[i - 1]] is [operator[]] with the loop
    counter as the key: it creates the entry with value 0 when absent. *)
Definition recompute_offset (active : list SequenceGroup) (i : nat)
    (beam_offets : gmap Z Z) : outcome (gmap Z Z) :=
  sg ← vector_at active i ;
  match i with
  | O => Done (<[get_request_id sg := 0]> beam_offets)
  | S i' =>
      prev ← vector_at active i' ;
      let beam_offets := match beam_offets !! Z.of_nat i' with
                         | Some _ => beam_offets
                         | None => <[Z.of_nat i' := 0]> beam_offets
                         end in
      let previous := map_index beam_offets (Z.of_nat i') in
      Done (<[get_request_id sg := to_size_t (num_running_seqs prev + previous)]> beam_offets)
  end.

Definition recompute_beam_offets (active : list SequenceGroup) (beam_offets : gmap Z Z)
  : outcome (gmap Z Z) :=
  for_loop 0 (length active) (recompute_offset active) beam_offets.

(** Lines 160-165. *)
Definition retired (sg : SequenceGroup) : bool :=
  has_finished sg || out_of_memory sg || handle_dropped sg.

Fixpoint remove_retired (heap : list SequenceGroup) (active : list nat)
  : outcome (list nat) :=
  match active with
  | [] => Done []
  | p :: ps =>
      sg ← deref heap p ;
      kept ← remove_retired heap ps ;
      Done (if retired sg then kept else p :: kept)
  end.

(** *** The decode loop *)

Record LoopState : Type := mkLoopState {
  m_llm : InferRequest;
  the_sampler : Sampler;
  heap : list SequenceGroup;
  active_sequence_groups : list nat;
  beam_offets : gmap Z Z
}.

(** One iteration of the [while] loop, lines 103-165.  The tensors obtained
    from [get_tensor] are handles on the engine's own tensors, so the two
    updaters change the engine's tensors in place. *)
Definition generation_step (m_embedding : option (Tensor -> Tensor))
    (has_position_ids : bool) (st : LoopState) : outcome LoopState :=
  '(heap, total_num_tokens) ← schedule_step (heap st) (active_sequence_groups st) ;
  groups ← deref_all heap (active_sequence_groups st) ;
  b ← build_rows (the_sampler st) (beam_offets st) groups total_num_tokens ;
  offsets ← recompute_beam_offets groups (beam_offets st) ;
  let new_input_ids := {| shape := [total_num_tokens; 1]; data := input_words b |} in
  let llm := match m_embedding with
             | Some embed => set_tensor (m_llm st) "inputs_embeds" (embed new_input_ids)
             | None => set_tensor (m_llm st) "input_ids" new_input_ids
             end in
  mask ← get_tensor llm "attention_mask" ;
  mask ← BeamState.update_attention_mask_with_beams stale mask (next_beams b) ;
  let llm := set_tensor llm "attention_mask" mask in
  llm ← (if has_position_ids then
           pos ← get_tensor llm "position_ids" ;
           mask ← get_tensor llm "attention_mask" ;
           pos ← BeamState.update_position_ids stale pos mask ;
           Done (set_tensor llm "position_ids" pos)
         else Done llm) ;
  let llm := set_tensor llm "beam_idx"
               {| shape := [total_num_tokens]; data := next_beams b |} in
  let llm := infer llm in
  logits ← get_tensor llm "logits" ;
  '(sampler, heap) ← sample_groups (the_sampler st) heap (active_sequence_groups st) logits ;
  active ← remove_retired heap (active_sequence_groups st) ;
  Done {| m_llm := llm; the_sampler := sampler; heap := heap;
          active_sequence_groups := active; beam_offets := offsets |}.

(** [while (!active_sequence_groups.empty())]: [None] when the loop is still
    running after [fuel] iterations. *)
Fixpoint generation_loop (m_embedding : option (Tensor -> Tensor))
    (has_position_ids : bool) (fuel : nat) (st : LoopState)
  : option (outcome LoopState) :=
  match active_sequence_groups st with
  | [] => Some (Done st)
  | _ :: _ =>
      match fuel with
      | O => None
      | S fuel' =>
          match generation_step m_embedding has_position_ids st with
          | Done st' => generation_loop m_embedding has_position_ids fuel' st'
          | Throws e => Some (Throws e)
          | Undefined => Some Undefined
          end
      end
  end.

(** Lines 72-100: binding the step-0 inputs and the prompt step. *)
Definition prompt_step (m_llm : InferRequest) (input_ids attention_mask : Tensor)
    (sampler : Sampler) (sequence_groups : list SequenceGroup)
    (position_ids : option Tensor) (m_embedding : option (Tensor -> Tensor))
  : outcome LoopState :=
  batch_size ← vector_index (shape input_ids) 0 ;
  let llm := set_tensor m_llm
               (match m_embedding with
                | Some _ => "inputs_embeds"
                | None => "input_ids"
                end) input_ids in
  let llm := set_tensor llm "attention_mask" attention_mask in
  let llm := match position_ids with
             | Some p => set_tensor llm "position_ids" p
             | None => llm
             end in
  let beam_idx := {| shape := [batch_size]; data := repeat 0 (Z.to_nat batch_size) |} in
  let llm := set_tensor llm "beam_idx" beam_idx in
  let llm := infer llm in
  logits ← get_tensor llm "logits" ;
  sequence_len ← shape_at (shape logits) 1 ;
  let heap := map (prompt_bookkeeping sequence_len) sequence_groups in
  let offsets := initial_beam_offets heap in
  let everyone := seq 0 (length heap) in
  '(sampler, heap) ← sample_groups sampler heap everyone logits ;
  Done {| m_llm := llm; the_sampler := sampler; heap := heap;
          active_sequence_groups := everyone; beam_offets := offsets |}.

(** *** Result assembly (lines 168-185) *)

(** Lines 174-180: the body of the loop over the returned hypotheses. *)
Definition collect_sequence (sampling_params : GenerationConfig)
    (sequences : list Sequence) (seq_id : nat) (results : EncodedResults)
  : outcome EncodedResults :=
  sequence ← vector_index sequences (Z.of_nat seq_id) ;
  let score := if is_beam_search sampling_params
               then get_beam_search_score sequence sampling_params
               else get_cumulative_log_probs sequence in
  Done {| tokens := tokens results ++ [get_generated_ids sequence];
          scores := scores results ++ [score] |}.

Definition collect_group (sg : SequenceGroup) (results : EncodedResults)
  : outcome EncodedResults :=
  let sampling_params := get_sampling_parameters sg in
  let sequences := get_finished_sequences sg in
  let num_outputs := Nat.min (num_return_sequences sampling_params) (length sequences) in
  for_loop 0 num_outputs (collect_sequence sampling_params sequences) results.

Definition collect_results (sequence_groups : list SequenceGroup) : outcome EncodedResults :=
  for_each sequence_groups collect_group {| tokens := []; scores := [] |}.

Definition release_requests (sampler : Sampler) (sequence_groups : list SequenceGroup)
  : Sampler :=
  fold_left (fun s sg => clear_request_info s (get_request_id sg)) sequence_groups sampler.

(** *** Disappeared-token reconciliation (lines 187-193) *)

(** [std::vector::back] *)
Definition vector_back {A} (v : list A) : outcome A :=
  match last v with
  | Some x => Done x
  | None => Undefined
  end.

Definition last_token_of_best_sequence (sequence_groups : list SequenceGroup)
    (results : EncodedResults) : outcome (option Z) :=
  first_group ← vector_index sequence_groups 0 ;
  best ← vector_index (get_finished_sequences first_group) 0 ;
  if finish_reason_eqb (get_finish_reason best) LENGTH || handle_dropped first_group
  then
    best_tokens ← vector_index (tokens results) 0 ;
    token ← vector_back best_tokens ;
    Done (Some token)
  else Done None.

(** What the call leaves behind: the returned pair, and the objects it
    changed through references and shared pointers. *)
Record Returned : Type := mkReturned {
  results : EncodedResults;
  last_disappeared_token : option Z;
  llm_after : InferRequest;
  sampler_after : Sampler;
  groups_after : list SequenceGroup
}.

(** Lines 168-193, on the groups as the loop left them. *)
Definition assemble (st : LoopState) : outcome Returned :=
  let sequence_groups := heap st in
  results ← collect_results sequence_groups ;
  let sampler := release_requests (the_sampler st) sequence_groups in
  hint ← last_token_of_best_sequence sequence_groups results ;
  Done {| results := results; last_disappeared_token := hint;
          llm_after := m_llm st; sampler_after := sampler;
          groups_after := sequence_groups |}.

Definition get_lm_encoded_results (fuel : nat) (m_llm : InferRequest)
    (input_ids attention_mask : Tensor) (sampler : Sampler)
    (sequence_groups : list SequenceGroup) (position_ids : option Tensor)
    (m_embedding : option (Tensor -> Tensor)) : option (outcome Returned) :=
  match prompt_step m_llm input_ids attention_mask sampler sequence_groups
                    position_ids m_embedding with
  | Done st =>
      match generation_loop m_embedding (bool_decide (is_Some position_ids)) fuel st with
      | Some (Done st') => Some (assemble st')
      | Some (Throws e) => Some (Throws e)
      | Some Undefined => Some Undefined
      | None => None
      end
  | Throws e => Some (Throws e)
  | Undefined => Some Undefined
  end.

(** *** The sampling policy's part in the bookkeeping *)

(** Modelled from the spec: [Sampler::sample] is not in these files.  It
    ends the iteration of every group it is given: the processed-token
    counter advances by the tokens that were scheduled, and the prompt is
    left alone.  [before] is the group as the policy receives it, [after] as
    it leaves it. *)
Definition finishes_iteration (before after : SequenceGroup) : Prop :=
  get_prompt_ids after = get_prompt_ids before /\
  get_num_processed_tokens after
  = to_size_t (get_num_processed_tokens before + get_num_scheduled_tokens before).

(** *** The words of the spec, for comparison with the code *)

(** The row offset of the [i]-th active group: the running-hypothesis counts
    of the active groups before it, summed. *)
Definition prefix_offset (active : list SequenceGroup) (i : nat) : Z :=
  foldr Z.add 0 (map num_running_seqs (take i active)).

(** Scheduled tokens times running hypotheses, summed over the groups. *)
Definition row_count (groups : list SequenceGroup) : Z :=
  foldr Z.add 0
    (map (fun sg => get_num_scheduled_tokens sg * num_running_seqs sg) groups).

(** The token of a hypothesis at absolute position [p]: the prompt token at
    [p] inside the prompt, the generated token at [p - prompt length]
    after it. *)
Definition expected_token (sg : SequenceGroup) (sequence : Sequence) (p : Z) : option Z :=
  if p <? get_prompt_len sg
  then get_prompt_ids sg !! Z.to_nat p
  else get_generated_ids sequence !! Z.to_nat (p - get_prompt_len sg).

(** One row per (running hypothesis, scheduled token) pair, group by group. *)
Definition expected_rows (groups : list SequenceGroup) : list (option Z) :=
  flat_map (fun sg =>
    flat_map (fun sequence =>
      map (fun t => expected_token sg sequence
                      (get_num_processed_tokens sg + Z.of_nat t))
          (seq 0 (Z.to_nat (get_num_scheduled_tokens sg))))
      (get_running_sequences sg))
    groups.

(** The hypotheses returned for one group. *)
Definition returned_sequences (sg : SequenceGroup) : list Sequence :=
  take (Nat.min (num_return_sequences (get_sampling_parameters sg))
                (length (get_finished_sequences sg)))
       (get_finished_sequences sg).

Definition returned_score (sg : SequenceGroup) (sequence : Sequence) : score :=
  if is_beam_search (get_sampling_parameters sg)
  then get_beam_search_score sequence (get_sampling_parameters sg)
  else get_cumulative_log_probs sequence.

End Collaborators.

End Orchestrator.

(** ** Pipeline Facade ([visual_language/pipeline.cpp], lines 148-227) *)

Module Facade.

Import Orchestrator.

Section Pipeline.

Context {score : Type} {request_info : Type}.
(** The inputs embedder, the prompt, the images and the decoded text are
    opaque to the facade. *)
Context {InputsEmbedder Prompt Images Text : Type}.

Variable infer : InferRequest -> InferRequest.
Variable sample : @Sampler request_info -> list (@SequenceGroup score) -> Tensor ->
                  @Sampler request_info * list (@SequenceGroup score).
Variable get_beam_idxs : @Sampler request_info -> @SequenceGroup score -> gmap Z Z.
Variable get_beam_search_score : @Sequence score -> GenerationConfig -> score.
Variable stale : nat -> Z.

(** Collaborators declared outside these two files. *)
Variable validate : GenerationConfig -> bool.
Variable get_inputs_embeds : InputsEmbedder -> Prompt -> Images -> InputsEmbedder * Tensor.
Variable get_num_tokens_to_remove_from_hist : InputsEmbedder -> Z.
Variable get_tokenized_history : InputsEmbedder -> list Z.
Variable update_tokenized_history :
  InputsEmbedder -> list Z -> option Z -> bool -> Z -> InputsEmbedder.
Variable embedding_infer : Tensor -> Tensor.
Variable get_pad_token_id : Z.
Variable decode : list Z -> Text.
Variable initial_log_prob : score.

Record VLMPipelineImpl : Type := mkVLMPipelineImpl {
  m_generation_config : GenerationConfig;
  m_inputs_embedder : InputsEmbedder;
  m_language : InferRequest;
  m_sampler : @Sampler request_info
}.

Record VLMDecodedResults : Type := mkVLMDecodedResults {
  texts : list Text;
  decoded_scores : list score
}.

(** Modelled from the spec: [utils::trim_kv_cache] is not in these files; it
    evicts that many trailing positions of the engine's internal cache along
    the sequence axis, and a count of 0 leaves everything unchanged. *)
Definition trim_kv_cache (r : InferRequest) (remove_from_end : Z) : InferRequest :=
  if remove_from_end =? 0 then r
  else {| tensors := tensors r;
          kv_cache_len := to_size_t (kv_cache_len r - remove_from_end) |}.

(** [ov::InferRequest::reset_state]: the internal cache is cleared. *)
Definition reset_state (r : InferRequest) : InferRequest :=
  {| tensors := tensors r; kv_cache_len := 0 |}.

(** [m_language.get_tensor("attention_mask").set_shape({1, 0})], lines 100,
    137 and 224: the handle is the engine's own tensor. *)
Definition clear_attention_mask (r : InferRequest) : outcome InferRequest :=
  mask ← get_tensor r "attention_mask" ;
  Done (set_tensor r "attention_mask" (set_shape stale [1; 0] mask)).

(** Modelled from the spec: the [SequenceGroup] constructor is not in these
    files; a new group holds its prompt and one running hypothesis with no
    generated token, nothing processed and nothing scheduled. *)
Definition new_sequence_group (request_id : Z) (prompt_ids : list Z)
    (config : GenerationConfig) : @SequenceGroup score :=
  {| get_request_id := request_id;
     get_prompt_ids := prompt_ids;
     get_sampling_parameters := config;
     get_num_processed_tokens := 0;
     get_num_scheduled_tokens := 0;
     get_running_sequences :=
       [ {| get_id := 0; get_generated_ids := [];
            get_cumulative_log_probs := initial_log_prob;
            get_finish_reason := NONE |} ];
     get_finished_sequences := [];
     has_finished := false;
     out_of_memory := false;
     handle_dropped := false |}.

(** What lines 174-194 prepare for the turn. *)
Record TurnInputs : Type := mkTurnInputs {
  history_size : Z;
  inputs_embeds_size : Z;
  prompt_ids : Tensor;
  new_atten_mask : Tensor;
  position_ids : Tensor
}.

(** [std::iota(first, first + n, start)] with a [size_t] start: the counter
    is a [size_t], incremented modulo [2^64], and each value is converted to
    the [int64_t] word it is stored in. *)
Definition iota (n : nat) (start : Z) : list Z :=
  map (fun i => to_int64 (to_size_t (start + Z.of_nat i))) (seq 0 n).

Definition turn_inputs (m_language : InferRequest) (embedder : InputsEmbedder)
    (inputs_embeds : Tensor) (to_remove_from_hist : Z) : outcome TurnInputs :=
  mask ← get_tensor m_language "attention_mask" ;
  mask_len ← shape_at (shape mask) 1 ;
  let history_size := to_size_t (mask_len - to_remove_from_hist) in
  inputs_embeds_size ← shape_at (shape inputs_embeds) 1 ;
  let tokenized_history := get_tokenized_history embedder in
  let total := to_size_t (history_size + inputs_embeds_size) in
  let padded := repeat get_pad_token_id (Z.to_nat (shape_size [total])) in
  words ← store_range padded 0 tokenized_history ;
  let prompt_ids := {| shape := [total]; data := words |} in
  let new_atten_mask :=
    {| shape := [1; total]; data := repeat 1 (Z.to_nat (shape_size [1; total])) |} in
  let position_ids :=
    {| shape := [1; inputs_embeds_size];
       data := iota (Z.to_nat (shape_size [1; inputs_embeds_size])) history_size |} in
  Done {| history_size := history_size;
          inputs_embeds_size := inputs_embeds_size;
          prompt_ids := prompt_ids;
          new_atten_mask := new_atten_mask;
          position_ids := position_ids |}.

(** Lines 209-213. *)
Definition decode_results (encoded : @EncodedResults score) : outcome VLMDecodedResults :=
  for_loop 0 (length (tokens encoded))
    (fun idx decoded =>
       toks ← vector_at (tokens encoded) idx ;
       sc ← vector_at (scores encoded) idx ;
       Done {| texts := texts decoded ++ [decode toks];
               decoded_scores := decoded_scores decoded ++ [sc] |})
    {| texts := []; decoded_scores := [] |}.

(** Lines 222-224. *)
Definition reset_after_turn (m_language : InferRequest) : outcome InferRequest :=
  clear_attention_mask (reset_state m_language).

Definition generate (fuel : nat) (this : VLMPipelineImpl) (prompt : Prompt)
    (rgbs : Images) (generation_config : GenerationConfig)
  : option (outcome (VLMPipelineImpl * VLMDecodedResults)) :=
  let generation_config :=
    if eos_token_id generation_config =? -1
    then {| num_return_sequences := num_return_sequences generation_config;
            is_beam_search := is_beam_search generation_config;
            rng_seed := rng_seed generation_config;
            eos_token_id := eos_token_id (m_generation_config this) |}
    else generation_config in
  if negb (validate generation_config) then Some (Throws ov_exception) else
  let '(embedder, inputs_embeds) := get_inputs_embeds (m_inputs_embedder this) prompt rgbs in
  let to_remove_from_hist := get_num_tokens_to_remove_from_hist embedder in
  let m_language := trim_kv_cache (m_language this) to_remove_from_hist in
  let request_id := 0 in
  match turn_inputs m_language embedder inputs_embeds to_remove_from_hist with
  | Throws e => Some (Throws e)
  | Undefined => Some Undefined
  | Done turn =>
      let sequence_group :=
        new_sequence_group request_id (data (prompt_ids turn)) generation_config in
      let requests := [sequence_group] in
      let sampler :=
        if get_seed (m_sampler this) =? rng_seed generation_config
        then m_sampler this
        else set_seed (m_sampler this) (rng_seed generation_config) in
      match get_lm_encoded_results infer sample get_beam_idxs get_beam_search_score stale
              fuel m_language inputs_embeds (new_atten_mask turn) sampler requests
              (Some (position_ids turn)) (Some embedding_infer) with
      | None => None
      | Some (Throws e) => Some (Throws e)
      | Some Undefined => Some Undefined
      | Some (Done ret) =>
          Some (
            let encoded_result := results ret in
            decoded ← decode_results encoded_result ;
            best_tokens ← vector_index (tokens encoded_result) 0 ;
            mask ← get_tensor (llm_after ret) "attention_mask" ;
            mask_len ← vector_index (shape mask) 1 ;
            let embedder :=
              update_tokenized_history embedder best_tokens
                (last_disappeared_token ret) (is_beam_search generation_config)
                (to_size_t (mask_len
                            - to_size_t (history_size turn + inputs_embeds_size turn))) in
            m_language ← reset_after_turn (llm_after ret) ;
            Done ({| m_generation_config := m_generation_config this;
                     m_inputs_embedder := embedder;
                     m_language := m_language;
                     m_sampler := sampler_after ret |}, decoded))
      end
  end.

End Pipeline.

End Facade.

(** ** Concrete collaborators, for evaluating the model *)

Module Examples.

Import Orchestrator.

(** A group with [n] running hypotheses, numbered from 0, each with one
    generated token; the one-token prompt is processed. *)
Definition running_group (request_id : Z) (n : nat) : @SequenceGroup Z :=
  {| get_request_id := request_id;
     get_prompt_ids := [100];
     get_sampling_parameters :=
       {| num_return_sequences := 1; is_beam_search := true;
          rng_seed := 0; eos_token_id := 2 |};
     get_num_processed_tokens := 1;
     get_num_scheduled_tokens := 1;
     get_running_sequences :=
       map (fun i => {| get_id := Z.of_nat i;
                        get_generated_ids := [200 + request_id];
                        get_cumulative_log_probs := 0;
                        get_finish_reason := NONE |}) (seq 0 n);
     get_finished_sequences := [];
     has_finished := false;
     out_of_memory := false;
     handle_dropped := false |}.

(** Each hypothesis continues its own row of the previous step. *)
Definition identity_beam_idxs (n : nat) : gmap Z Z :=
  list_to_map (map (fun i => (Z.of_nat i, Z.of_nat i)) (seq 0 n)).

(** An engine call that only yields logits for one position. *)
Definition toy_infer (r : InferRequest) : InferRequest :=
  set_tensor r "logits" (mkTensor [1; 1; 1] [0]).

(** A sampling policy that gives every running hypothesis the token 42 and
    finishes it at the length limit. *)
Definition toy_finish (sg : @SequenceGroup Z) : @SequenceGroup Z :=
  {| get_request_id := get_request_id sg;
     get_prompt_ids := get_prompt_ids sg;
     get_sampling_parameters := get_sampling_parameters sg;
     get_num_processed_tokens :=
       get_num_processed_tokens sg + get_num_scheduled_tokens sg;
     get_num_scheduled_tokens := 0;
     get_running_sequences := [];
     get_finished_sequences :=
       get_finished_sequences sg
       ++ map (fun sq => {| get_id := get_id sq;
                            get_generated_ids := get_generated_ids sq ++ [42];
                            get_cumulative_log_probs := get_cumulative_log_probs sq;
                            get_finish_reason := LENGTH |})
              (get_running_sequences sg);
     has_finished := true;
     out_of_memory := out_of_memory sg;
     handle_dropped := handle_dropped sg |}.

(** A hypothesis stopped by the length limit, and the state in which the
    loop leaves a single group that holds it. *)
Definition length_capped : @Sequence Z :=
  {| get_id := 0; get_generated_ids := [200; 42];
     get_cumulative_log_probs := 0; get_finish_reason := LENGTH |}.

Definition toy_sample (s : @Sampler unit) (sgs : list (@SequenceGroup Z)) (logits : Tensor)
  : @Sampler unit * list (@SequenceGroup Z) :=
  (s, map toy_finish sgs).

Definition toy_beam_idxs (s : @Sampler unit) (sg : @SequenceGroup Z) : gmap Z Z :=
  identity_beam_idxs (length (get_running_sequences sg)).

Definition toy_beam_score (sq : @Sequence Z) (c : GenerationConfig) : Z :=
  get_cumulative_log_probs sq.

Definition toy_sampler : @Sampler unit :=
  {| sampler_requests := {[ 0 := tt ]}; get_seed := 0 |}.

Definition toy_engine : InferRequest :=
  {| tensors := {[ "attention_mask" := mkTensor [1; 0] [] ]}; kv_cache_len := 0 |}.

Definition toy_config : GenerationConfig :=
  {| num_return_sequences := 1; is_beam_search := false;
     rng_seed := 0; eos_token_id := 2 |}.

(** Two active groups, with two and with one running hypothesis, and their
    row offsets. *)
Definition two_groups : list (@SequenceGroup Z) :=
  [running_group 0 2; running_group 1 1].

Definition two_offsets : gmap Z Z := {[ 0 := 0; 1 := 2 ]}.

Definition finished_state : @LoopState Z unit :=
  {| m_llm := toy_engine;
     the_sampler := toy_sampler;
     heap := [toy_finish (running_group 0 1)];
     active_sequence_groups := [];
     beam_offets := {[ 0 := 0 ]} |}.

(** A facade over the toy engine and sampler: the embedder is its token
    history, three embedded positions come with every prompt, nothing is to
    be removed from the history and decoding is the identity. *)
Definition toy_pipeline : @Facade.VLMPipelineImpl unit (list Z) :=
  {| Facade.m_generation_config := toy_config;
     Facade.m_inputs_embedder := [];
     Facade.m_language := toy_engine;
     Facade.m_sampler := toy_sampler |}.

Definition toy_generate (fuel : nat) (this : @Facade.VLMPipelineImpl unit (list Z))
  : option (outcome (@Facade.VLMPipelineImpl unit (list Z)
                     * @Facade.VLMDecodedResults Z (list Z))) :=
  Facade.generate (Prompt := unit) (Images := unit)
    toy_infer toy_sample toy_beam_idxs toy_beam_score (fun _ => 0)
    (fun _ => true)
    (fun history _ _ => (history, mkTensor [1; 3; 4] []))
    (fun _ => 0)
    (fun history => history)
    (fun history toks _ _ _ => history ++ toks)
    (fun t => t)
    0
    (fun toks => toks)
    0
    fuel this tt tt toy_config.

End Examples.

(** ** Further definitions *)

(** The sum of a run of words. *)
Definition word_sum (words : list Z) : Z := foldr Z.add 0 words.

(** A mask of all ones. *)
Definition all_ones (words : list Z) : Prop := Forall (fun w => w = 1) words.

Module MoreExamples.

Import Orchestrator Examples.

(** A group whose handle was dropped before any hypothesis finished. *)
Definition dropped_group : @SequenceGroup Z :=
  {| get_request_id := 0;
     get_prompt_ids := [100];
     get_sampling_parameters := toy_config;
     get_num_processed_tokens := 1;
     get_num_scheduled_tokens := 0;
     get_running_sequences := get_running_sequences (running_group 0 1);
     get_finished_sequences := [];
     has_finished := false;
     out_of_memory := false;
     handle_dropped := true |}.

Definition dropped_state : @LoopState Z unit :=
  {| m_llm := toy_engine;
     the_sampler := toy_sampler;
     heap := [dropped_group];
     active_sequence_groups := [];
     beam_offets := {[ 0 := 0 ]} |}.

(** The state after the prompt step of two groups, over an engine that has
    its mask and position ids bound. *)
Definition stepping_state : @LoopState Z unit :=
  {| m_llm := {| tensors := {[ "attention_mask" := mkTensor [3; 1] [1; 1; 1];
                               "position_ids" := mkTensor [3; 1] [0; 0; 0] ]};
                 kv_cache_len := 1 |};
     the_sampler := toy_sampler;
     heap := two_groups;
     active_sequence_groups := [0; 1]%nat;
     beam_offets := two_offsets |}.

(** An engine in the middle of a conversation: five positions are in its
    mask and in its cache. *)
Definition used_engine : InferRequest :=
  {| tensors := {[ "attention_mask" := mkTensor [1; 5] [1; 1; 1; 1; 1] ]};
     kv_cache_len := 5 |}.

(** An engine call that also grows the internal cache by one position. *)
Definition caching_infer (r : InferRequest) : InferRequest :=
  {| tensors := tensors (toy_infer r); kv_cache_len := kv_cache_len r + 1 |}.

(** The toy facade over the caching engine. *)
Definition caching_generate (fuel : nat) (this : @Facade.VLMPipelineImpl unit (list Z))
  : option (outcome (@Facade.VLMPipelineImpl unit (list Z)
                     * @Facade.VLMDecodedResults Z (list Z))) :=
  Facade.generate (Prompt := unit) (Images := unit)
    caching_infer toy_sample toy_beam_idxs toy_beam_score (fun _ => 0)
    (fun _ => true)
    (fun history _ _ => (history, mkTensor [1; 3; 4] []))
    (fun _ => 0)
    (fun history => history)
    (fun history toks _ _ _ => history ++ toks)
    (fun t => t)
    0
    (fun toks => toks)
    0
    fuel this tt tt toy_config.

End MoreExamples.

(** ** The facade's other entry points ([visual_language/pipeline.cpp]) *)

Module Entry.

Import Orchestrator Facade.

(** Lines 34-40.  [ModelsMap] maps a model's name to its description and
    weights, here any [V]. *)
Definition get_model_weights_pair {V : Type} (models_map : gmap string V)
    (key : string) : outcome V :=
  match models_map !! key with
  | Some entry => Done entry
  | None => Throws ov_exception
  end.

(** What an [ov::Any] of the configuration map holds, as far as the facade
    asks. *)
Inductive Any : Type :=
| any_tensor (t : Tensor)
| any_tensors (ts : list Tensor)
| any_other.

(** [ov::Any::as<ov::Tensor>()] and [ov::Any::as<std::vector<ov::Tensor>>()]. *)
Definition as_tensor (a : Any) : outcome Tensor :=
  match a with
  | any_tensor t => Done t
  | _ => Throws ov_exception
  end.

Definition as_tensors (a : Any) : outcome (list Tensor) :=
  match a with
  | any_tensors ts => Done ts
  | _ => Throws ov_exception
  end.

Section EntryPoints.

Context {score request_info InputsEmbedder Prompt Text : Type}.

(** The names of the [image] and [images] properties are declared in a
    header outside these files. *)
Variable image_name images_name : string.

Variable infer : InferRequest -> InferRequest.
Variable sample : @Sampler request_info -> list (@SequenceGroup score) -> Tensor ->
                  @Sampler request_info * list (@SequenceGroup score).
Variable get_beam_idxs : @Sampler request_info -> @SequenceGroup score -> gmap Z Z.
Variable get_beam_search_score : @Sequence score -> GenerationConfig -> score.
Variable stale : nat -> Z.
Variable validate : GenerationConfig -> bool.
Variable get_inputs_embeds :
  InputsEmbedder -> Prompt -> list Tensor -> InputsEmbedder * Tensor.
Variable get_num_tokens_to_remove_from_hist : InputsEmbedder -> Z.
Variable get_tokenized_history : InputsEmbedder -> list Z.
Variable update_tokenized_history :
  InputsEmbedder -> list Z -> option Z -> bool -> Z -> InputsEmbedder.
Variable embedding_infer : Tensor -> Tensor.
Variable get_pad_token_id : Z.
Variable decode : list Z -> Text.
Variable initial_log_prob : score.
(** [utils::get_config_from_map] and
    [GenerationConfig::update_generation_config]. *)
Variable get_config_from_map : gmap string Any -> option GenerationConfig.
Variable update_generation_config :
  GenerationConfig -> gmap string Any -> GenerationConfig.

(** Lines 233-244: the images of the call. *)
Definition select_images (config_map : gmap string Any) : outcome (list Tensor) :=
  let image := config_map !! image_name in
  let images := config_map !! images_name in
  if bool_decide (is_Some image) && bool_decide (is_Some images)
  then Throws ov_exception
  else
    rgbs ← match image with
           | Some a => t ← as_tensor a ; Done [t]
           | None => Done []
           end ;
    match images with
    | Some a => as_tensors a
    | None => Done rgbs
    end.

(** Lines 229-255: [generate(prompt, config_map)]. *)
Definition generate_from_map (fuel : nat)
    (this : @VLMPipelineImpl request_info InputsEmbedder)
    (prompt : Prompt) (config_map : gmap string Any)
  : option (outcome (@VLMPipelineImpl request_info InputsEmbedder
                     * @VLMDecodedResults score Text)) :=
  match select_images config_map with
  | Throws e => Some (Throws e)
  | Undefined => Some Undefined
  | Done rgbs =>
      let config_arg := get_config_from_map config_map in
      let config := match config_arg with
                    | Some c => c
                    | None => m_generation_config this
                    end in
      let config := update_generation_config config config_map in
      generate infer sample get_beam_idxs get_beam_search_score stale validate
        get_inputs_embeds get_num_tokens_to_remove_from_hist get_tokenized_history
        update_tokenized_history embedding_infer get_pad_token_id decode
        initial_log_prob fuel this prompt rgbs config
  end.

(** Lines 111-146, after the configuration files are read and the inputs
    embedder is built: [compile] stands for compiling the language model and
    creating its infer request, [tokenizer_eos] for the tokenizer's
    end-of-sequence id, [fresh_sampler] for [Sampler(m_tokenizer)]. *)
Definition construct_from_models {V : Type} (models_map : gmap string V)
    (compile : V -> InferRequest) (embedder : InputsEmbedder)
    (tokenizer_eos : Z) (fresh_sampler : @Sampler request_info)
    (generation_config : GenerationConfig)
  : outcome (@VLMPipelineImpl request_info InputsEmbedder) :=
  m_language_pair ← get_model_weights_pair models_map "language" ;
  let m_language := compile m_language_pair in
  m_language ← clear_attention_mask stale m_language ;
  let m_generation_config :=
    if eos_token_id generation_config =? -1
    then {| num_return_sequences := num_return_sequences generation_config;
            is_beam_search := is_beam_search generation_config;
            rng_seed := rng_seed generation_config;
            eos_token_id := tokenizer_eos |}
    else generation_config in
  let m_sampler := set_seed fresh_sampler (rng_seed m_generation_config) in
  Done {| m_generation_config := m_generation_config;
          m_inputs_embedder := embedder;
          m_language := m_language;
          m_sampler := m_sampler |}.

End EntryPoints.

End Entry.

(** * Properties *)

(** ** Machine integers and buffers *)

Module MachineFacts.

Lemma to_size_t_small z : 0 <= z < SIZE_MOD -> to_size_t z = z.
Proof. intros H. unfold to_size_t. now apply Z.mod_small. Qed.

Lemma to_size_t_range z : 0 <= to_size_t z < SIZE_MOD.
Proof. unfold to_size_t, SIZE_MOD. apply Z.mod_pos_bound. lia. Qed.

Lemma to_int32_small z : - 2 ^ 31 <= z <= INT_MAX -> to_int32 z = z.
Proof.
  intros H. unfold to_int32, INT_MAX in *.
  rewrite Z.mod_small; lia.
Qed.

Lemma in_range_true buf off n :
  0 <= off -> 0 <= n -> off + n <= Z.of_nat (length buf) -> in_range buf off n = true.
Proof.
  intros. unfold in_range.
  rewrite !andb_true_iff, !Z.leb_le. lia.
Qed.

Lemma in_range_false buf off n :
  Z.of_nat (length buf) < off + n -> in_range buf off n = false.
Proof.
  intros. unfold in_range.
  rewrite !andb_false_iff, !Z.leb_gt. lia.
Qed.

(** Writing right after an already written prefix. *)
Lemma store_range_app (done rest vals : list Z) (off : Z) :
  off = Z.of_nat (length done) ->
  (length vals <= length rest)%nat ->
  store_range (done ++ rest) off vals
  = Done (done ++ vals ++ drop (length vals) rest).
Proof.
  intros -> Hle. unfold store_range.
  rewrite in_range_true; [| lia | lia | rewrite length_app; lia].
  rewrite Nat2Z.id, take_app_length.
  rewrite drop_app_add'; done.
Qed.

Lemma store_app (done rest : list Z) (off v : Z) :
  off = Z.of_nat (length done) ->
  (1 <= length rest)%nat ->
  store (done ++ rest) off v = Done (done ++ v :: drop 1 rest).
Proof. intros. unfold store. now rewrite store_range_app. Qed.

Lemma load_range_row (buf : list Z) (off n : Z) :
  0 <= off -> 0 <= n -> off + n <= Z.of_nat (length buf) ->
  load_range buf off n = Done (take (Z.to_nat n) (drop (Z.to_nat off) buf)).
Proof. intros. unfold load_range. now rewrite in_range_true. Qed.

(** Chunks of equal length laid end to end. *)
Lemma length_flat_map_const {A B} (f : A -> list B) (k : nat) (l : list A) :
  (forall x, x ∈ l -> length (f x) = k) ->
  length (flat_map f l) = (length l * k)%nat.
Proof.
  induction l as [|x l IH]; intros Hk; simpl; [done|].
  rewrite length_app, Hk, IH; [lia| |left].
  intros y Hy. apply Hk. now right.
Qed.

Lemma chunk_flat_map {A B} (f : A -> list B) (k : nat) (l : list A) (r : nat) (x : A) :
  (forall y, y ∈ l -> length (f y) = k) ->
  l !! r = Some x ->
  take k (drop (r * k) (flat_map f l)) = f x.
Proof.
  revert r. induction l as [|y l IH]; intros r Hk Hr; [done|].
  destruct r as [|r]; simpl in *.
  - injection Hr as ->. rewrite drop_0, take_app_length'; [done|].
    symmetry. apply Hk. left.
  - rewrite drop_app_add'; [|symmetry; apply Hk; left].
    apply IH; [|done]. intros z Hz. apply Hk. now right.
Qed.

Lemma vector_index_lookup {A} (v : list A) (i : Z) (x : A) :
  0 <= i -> v !! Z.to_nat i = Some x -> vector_index v i = Done x.
Proof.
  intros Hi Hx. unfold vector_index.
  destruct (0 <=? i) eqn:E; [now rewrite Hx | lia].
Qed.

Lemma vector_index_nat {A} (v : list A) (n : nat) (x : A) :
  v !! n = Some x -> vector_index v (Z.of_nat n) = Done x.
Proof.
  intros Hx. apply vector_index_lookup; [lia|]. now rewrite Nat2Z.id.
Qed.

End MachineFacts.
Import MachineFacts.

(** ** Beam State Updater *)

Module BeamStateFacts.
Import BeamState.

Section AttentionMask.

Variables (attention_mask : Tensor) (next_beams : list Z) (P C : Z).
Hypothesis Hmask : matrix attention_mask P C.
Hypothesis Hcols : C + 1 < SIZE_MOD.
Hypothesis Hfits :
  sizeof_int64 * (Z.of_nat (length next_beams) * (C + 1)) < SIZE_MOD.

Local Abbreviation extended := (extended_row attention_mask C).

Lemma length_extended b :
  0 <= b < P -> length (extended b) = Z.to_nat (C + 1).
Proof using Hmask.
  clear Hcols Hfits.
  destruct Hmask as (_ & HP & HC & Hlen & _).
  intros Hb. unfold extended_row, row_words.
  rewrite length_app, length_take_le; [simpl; lia|].
  rewrite length_drop. nia.
Qed.

Lemma source_offset b :
  0 <= b < P -> to_size_t (to_size_t b * C) = b * C.
Proof using Hmask.
  clear Hcols Hfits.
  destruct Hmask as (_ & HP & HC & _ & Hsz & _).
  unfold sizeof_int64, SIZE_MOD in *. intros Hb.
  destruct (Z.eq_dec C 0) as [->|HC0].
  - now rewrite !Z.mul_0_r.
  - rewrite (to_size_t_small b); [|unfold SIZE_MOD; nia].
    apply to_size_t_small. unfold SIZE_MOD. nia.
Qed.

Lemma copy_beam_step (lo : nat) (b : Z) (done rest : list Z) :
  next_beams !! lo = Some b ->
  0 <= b < P ->
  length done = (lo * Z.to_nat (C + 1))%nat ->
  (Z.to_nat (C + 1) <= length rest)%nat ->
  copy_beam {| shape := [P; C]; data := data attention_mask |} [P; C]
            [Z.of_nat (length next_beams); to_size_t (C + 1)]
            next_beams lo (done ++ rest)
  = Done ((done ++ extended b) ++ drop (Z.to_nat (C + 1)) rest).
Proof.
  intros Hlo Hb Hdone Hrest.
  pose proof (lookup_lt_Some _ _ _ Hlo) as HloN.
  destruct Hmask as (Hshape & HP & HC & Hlen & Hsz & HCmod).
  unfold sizeof_int64, SIZE_MOD in *.
  unfold copy_beam, vector_at. rewrite Hlo. simpl.
  rewrite source_offset by done.
  rewrite (to_size_t_small (C + 1)) by (unfold SIZE_MOD; lia).
  rewrite (to_size_t_small (Z.of_nat lo * (C + 1))) by (unfold SIZE_MOD; nia).
  unfold sizeof_int64.
  rewrite (to_size_t_small (C * 8)) by (unfold SIZE_MOD; nia).
  rewrite Z.div_mul by lia.
  rewrite load_range_row by nia. simpl.
  set (row := take (Z.to_nat C) (drop (Z.to_nat (b * C)) (data attention_mask))).
  assert (Hrow : length row = Z.to_nat C).
  { unfold row. rewrite length_take_le; [done|]. rewrite length_drop. nia. }
  rewrite store_range_app; [|nia|lia]. simpl.
  rewrite (to_size_t_small (Z.of_nat lo * (C + 1) + (C + 1)))
    by (unfold SIZE_MOD; nia).
  rewrite to_size_t_small by (unfold SIZE_MOD; nia).
  rewrite (app_assoc done row).
  rewrite store_app.
  - f_equal. unfold extended_row, row_words. fold row. rewrite <- !app_assoc. simpl.
    do 3 f_equal. rewrite drop_drop. f_equal. lia.
  - rewrite length_app. nia.
  - rewrite length_drop. lia.
Qed.

Lemma copy_beam_loop (n lo : nat) (done rest : list Z) :
  Forall (fun b => 0 <= b < P) next_beams ->
  (lo + n = length next_beams)%nat ->
  length done = (lo * Z.to_nat (C + 1))%nat ->
  length rest = (n * Z.to_nat (C + 1))%nat ->
  for_loop lo n
    (copy_beam {| shape := [P; C]; data := data attention_mask |} [P; C]
               [Z.of_nat (length next_beams); to_size_t (C + 1)] next_beams)
    (done ++ rest)
  = Done (done ++ flat_map extended (drop lo next_beams)).
Proof.
  intros Hvalid. revert lo done rest.
  induction n as [|n IH]; intros lo done rest HN Hdone Hrest.
  - destruct rest; [|done]. rewrite drop_ge by lia. done.
  - destruct (lookup_lt_is_Some_2 next_beams lo) as [b Hb]; [lia|].
    assert (Hin : 0 <= b < P).
    { rewrite Forall_lookup in Hvalid. exact (Hvalid _ _ Hb). }
    simpl. rewrite (copy_beam_step lo b) by (done || lia). simpl.
    rewrite IH.
    + rewrite <- app_assoc. f_equal.
      rewrite (drop_S _ _ _ Hb). done.
    + lia.
    + rewrite length_app, length_extended by done. lia.
    + rewrite length_drop, Hrest. generalize (Z.to_nat (C + 1)). lia.
Qed.

Lemma update_attention_mask_with_beams_done (stale : nat -> Z) :
  Forall (fun b => 0 <= b < P) next_beams ->
  update_attention_mask_with_beams stale attention_mask next_beams
  = Done {| shape := [Z.of_nat (length next_beams); C + 1];
            data := flat_map extended next_beams |}.
Proof.
  intros Hvalid.
  pose proof Hmask as (Hshape & HP & HC & Hlen & Hsz & HCmod).
  unfold update_attention_mask_with_beams. simpl. rewrite Hshape. simpl.
  set (fresh := map stale _).
  pose proof (copy_beam_loop (length next_beams) 0 [] fresh Hvalid) as Hloop.
  simpl in Hloop. rewrite Hloop; try done.
  - simpl. rewrite to_size_t_small by lia. done.
  - unfold fresh. rewrite length_map, length_seq. unfold shape_size. simpl.
    rewrite to_size_t_small by lia. nia.
Qed.

(** No path through the function throws when the mask has two
    dimensions: an entry of [next_beams] is never compared with the row
    count. *)
Lemma copy_beam_no_throw (X : Z) (lo : nat) (buf : list Z) (e : Exception) :
  (lo < length next_beams)%nat ->
  copy_beam {| shape := [P; C]; data := data attention_mask |} [P; C]
            [Z.of_nat (length next_beams); X] next_beams lo buf
  <> Throws e.
Proof.
  intros Hlo.
  destruct (lookup_lt_is_Some_2 next_beams lo) as [b Hb]; [lia|].
  unfold copy_beam, vector_at. rewrite Hb. simpl.
  unfold load_range. destruct (in_range _ _ _); simpl; [|done].
  unfold store_range at 1. destruct (in_range _ _ _); simpl; [|done].
  unfold store, store_range. destruct (in_range _ _ _); simpl; done.
Qed.

Lemma copy_beam_loop_no_throw (X : Z) (n lo : nat) (buf : list Z) (e : Exception) :
  (lo + n = length next_beams)%nat ->
  for_loop lo n
    (copy_beam {| shape := [P; C]; data := data attention_mask |} [P; C]
               [Z.of_nat (length next_beams); X] next_beams)
    buf
  <> Throws e.
Proof.
  revert lo buf. induction n as [|n IH]; intros lo buf HN; [done|].
  cbn [for_loop].
  pose proof (copy_beam_no_throw X lo buf e) as Hstep.
  destruct (copy_beam _ _ _ _ lo buf) as [buf'| e' |]; simpl.
  - apply IH. lia.
  - intros [= ->]. apply Hstep; [lia|done].
  - done.
Qed.

Lemma update_attention_mask_with_beams_no_throw (stale : nat -> Z) (e : Exception) :
  shape attention_mask = [P; C] ->
  update_attention_mask_with_beams stale attention_mask next_beams <> Throws e.
Proof.
  intros Hshape. unfold update_attention_mask_with_beams. simpl.
  rewrite Hshape. simpl.
  match goal with
  | |- context [for_loop 0 ?n ?body ?buf] =>
      pose proof (copy_beam_loop_no_throw (to_size_t (C + 1)) n 0 buf e eq_refl) as Hl;
      destruct (for_loop 0 n body buf)
  end; simpl; congruence.
Qed.

End AttentionMask.

(** C1.  For a beam mapping whose entries are all valid rows of a previous
    mask of shape (P, C), [update_attention_mask_with_beams] completes with a
    mask of shape (N, C+1), N the length of the mapping, whose row r is
    previous row [next_beams[r]] with a 1 appended.  Nothing is assumed about
    repeated or missing rows in the mapping, and the result is the same
    whatever the resized buffer held, the old words included. *)
Theorem update_attention_mask_with_beams_rows
    (attention_mask : Tensor) (next_beams : list Z) (P C : Z) :
  matrix attention_mask P C ->
  Forall (fun b => 0 <= b < P) next_beams ->
  C + 1 < SIZE_MOD ->
  sizeof_int64 * (Z.of_nat (length next_beams) * (C + 1)) < SIZE_MOD ->
  exists result,
    (forall stale,
        update_attention_mask_with_beams stale attention_mask next_beams
        = Done result) /\
    shape result = [Z.of_nat (length next_beams); C + 1] /\
    Z.of_nat (length (data result)) = Z.of_nat (length next_beams) * (C + 1) /\
    forall (r : nat) (b : Z),
      next_beams !! r = Some b ->
      exists row,
        tensor_row attention_mask b = Some row /\
        tensor_row result (Z.of_nat r) = Some (row ++ [1]).
Proof.
  intros Hmask Hvalid Hcols Hfits.
  pose proof Hmask as (Hshape & HP & HC & Hlen & Hsz & HCmod).
  assert (Hchunk : forall b, b ∈ next_beams ->
            length (extended_row attention_mask C b) = Z.to_nat (C + 1)).
  { intros b Hb. apply (length_extended attention_mask P C Hmask).
    rewrite Forall_forall in Hvalid. auto. }
  eexists. split; [|split; [|split]].
  - intros stale.
    apply (update_attention_mask_with_beams_done _ _ P C Hmask Hcols Hfits stale Hvalid).
  - done.
  - simpl. rewrite (length_flat_map_const _ (Z.to_nat (C + 1))) by done. nia.
  - intros r b Hb.
    pose proof (lookup_lt_Some _ _ _ Hb) as Hr.
    assert (Hin : 0 <= b < P).
    { rewrite Forall_lookup in Hvalid. exact (Hvalid _ _ Hb). }
    exists (row_words attention_mask C b). split.
    + unfold tensor_row. rewrite Hshape.
      destruct (0 <=? b) eqn:E1, (b <? P) eqn:E2; simpl; try done; lia.
    + unfold tensor_row. simpl.
      destruct (0 <=? Z.of_nat r) eqn:E1,
               (Z.of_nat r <? Z.of_nat (length next_beams)) eqn:E2;
        simpl; try lia.
      f_equal. unfold row_words at 1. simpl.
      replace (Z.to_nat (Z.of_nat r * (C + 1))) with (r * Z.to_nat (C + 1))%nat by nia.
      change (row_words attention_mask C b ++ [1]) with (extended_row attention_mask C b).
      now apply chunk_flat_map.
Qed.

(** A fork (row 1 twice) and a pruned row (row 2) in one mapping. *)
Lemma update_attention_mask_with_beams_rows_witness :
  exists result,
    (forall stale,
        update_attention_mask_with_beams stale
          (mkTensor [3; 2] [1; 0; 1; 1; 0; 0]) [1; 1; 0]
        = Done result) /\
    shape result = [3; 3] /\
    Z.of_nat (length (data result)) = 3 * 3 /\
    forall (r : nat) (b : Z),
      [1; 1; 0] !! r = Some b ->
      exists row,
        tensor_row (mkTensor [3; 2] [1; 0; 1; 1; 0; 0]) b = Some row /\
        tensor_row result (Z.of_nat r) = Some (row ++ [1]).
Proof.
  apply (update_attention_mask_with_beams_rows
           (mkTensor [3; 2] [1; 0; 1; 1; 0; 0]) [1; 1; 0] 3 2).
  - unfold matrix, sizeof_int64, SIZE_MOD. simpl. repeat split; lia.
  - repeat constructor; lia.
  - unfold SIZE_MOD. lia.
  - unfold sizeof_int64, SIZE_MOD. simpl. lia.
Defined.

(** C8 as stated fails: an entry outside the previous rows is not rejected;
    the copy reads outside the previous mask's buffer. *)
Lemma update_attention_mask_with_beams_out_of_range_unchecked :
  ~ (0 <= 5 < 1) /\
  update_attention_mask_with_beams (fun _ => 0) (mkTensor [1; 1] [1]) [5]
  = Undefined.
Proof. split; [lia | reflexivity]. Qed.

(** *** Position ids *)

(** While the running sum fits an [int], accumulating 0/1 words counts
    the 1s. *)
Lemma accumulate_from (words : list Z) (acc : Z) :
  binary words ->
  0 <= acc ->
  acc + Z.of_nat (length words) <= INT_MAX ->
  fold_left (fun a w => to_int32 (a + w)) words acc = acc + count_ones words.
Proof.
  unfold binary, count_ones. revert acc.
  induction words as [|w words IH]; intros acc Hbin Hacc Hfit; simpl.
  - lia.
  - inversion Hbin as [|? ? Hw Hrest]; subst. simpl in Hfit.
    rewrite to_int32_small by (unfold INT_MAX in *; lia).
    rewrite IH by (done || lia).
    destruct Hw as [-> | ->]; simpl; lia.
Qed.

Lemma accumulate_int_count (words : list Z) :
  binary words ->
  Z.of_nat (length words) <= INT_MAX ->
  accumulate_int words = count_ones words.
Proof.
  intros Hbin Hfit. unfold accumulate_int.
  rewrite accumulate_from by (done || lia). lia.
Qed.

Section PositionIds.

Variables (attention_mask : Tensor) (R C : Z).
Hypothesis Hmask : matrix attention_mask R C.
Hypothesis Hcols : 1 <= C.
Hypothesis Hint : C - 1 <= INT_MAX.
Hypothesis Hbin : binary (data attention_mask).

(** The position id of row [r]: the 1s among its first [C - 1] words. *)
Local Abbreviation position r :=
  (count_ones (take (Z.to_nat (C - 1)) (row_words attention_mask C (Z.of_nat r)))).

Lemma position_of_row_step (lo : nat) (done rest : list Z) :
  Z.of_nat lo < R ->
  length done = lo ->
  (1 <= length rest)%nat ->
  position_of_row attention_mask C lo (done ++ rest)
  = Done ((done ++ [position lo]) ++ drop 1 rest).
Proof.
  intros Hlo Hdone Hrest.
  destruct Hmask as (Hshape & HR & HC & Hlen & Hsz & HCmod).
  unfold sizeof_int64 in *.
  unfold position_of_row.
  rewrite (to_size_t_small (Z.of_nat lo * C)) by (unfold SIZE_MOD in *; nia).
  rewrite (to_size_t_small (C - 1)) by lia.
  rewrite load_range_row by nia. simpl.
  rewrite store_app by (done || lia).
  rewrite <- app_assoc. simpl. do 2 f_equal.
  rewrite accumulate_int_count.
  - unfold row_words. rewrite take_take. do 2 f_equal.
    rewrite Nat.min_l by lia. done.
  - apply Forall_take, Forall_drop, Hbin.
  - rewrite length_take. lia.
Qed.

Lemma position_loop (n lo : nat) (done rest : list Z) :
  Z.of_nat (lo + n) = R ->
  length done = lo ->
  length rest = n ->
  for_loop lo n (position_of_row attention_mask C) (done ++ rest)
  = Done (done ++ map (fun r => position r) (seq lo n)).
Proof.
  revert lo done rest.
  induction n as [|n IH]; intros lo done rest HR Hdone Hrest.
  - destruct rest; done.
  - cbn [for_loop]. rewrite position_of_row_step by (done || lia). simpl.
    rewrite IH.
    + now rewrite <- app_assoc.
    + lia.
    + rewrite length_app. simpl. lia.
    + rewrite length_drop. lia.
Qed.

Lemma update_position_ids_done (stale : nat -> Z) (position_ids : Tensor) :
  update_position_ids stale position_ids attention_mask
  = Done {| shape := [R; 1];
            data := map (fun r => position r) (seq 0 (Z.to_nat R)) |}.
Proof.
  pose proof Hmask as (Hshape & HR & HC & Hlen & Hsz & HCmod).
  unfold update_position_ids. rewrite Hshape. simpl.
  set (fresh := map stale _).
  pose proof (position_loop (Z.to_nat R) 0 [] fresh) as Hloop.
  simpl in Hloop. rewrite Hloop; try done.
  - lia.
  - unfold fresh. rewrite length_map, length_seq. unfold shape_size. simpl. lia.
Qed.

End PositionIds.

(** C2.  For a mask of R rows and C >= 1 columns, [update_position_ids]
    completes with a tensor of shape (R, 1) whose value at row r is the
    number of 1s among the first C-1 entries of row r of the mask.  The mask
    holds 0s and 1s, and the count is an [int] in the code, so the row
    length minus one does not exceed [INT_MAX]. *)
Theorem update_position_ids_counts (attention_mask : Tensor) (R C : Z) :
  matrix attention_mask R C ->
  1 <= C ->
  C - 1 <= INT_MAX ->
  binary (data attention_mask) ->
  exists result,
    (forall stale position_ids,
        update_position_ids stale position_ids attention_mask = Done result) /\
    shape result = [R; 1] /\
    forall r : Z,
      0 <= r < R ->
      exists row,
        tensor_row attention_mask r = Some row /\
        tensor_row result r = Some [count_ones (take (Z.to_nat (C - 1)) row)].
Proof.
  intros Hmask Hcols Hint Hbin.
  pose proof Hmask as (Hshape & HR & HC & Hlen & Hsz & HCmod).
  eexists. split; [|split].
  - intros stale position_ids.
    apply (update_position_ids_done _ R C Hmask Hcols Hint Hbin).
  - done.
  - intros r Hr. exists (row_words attention_mask C r). split.
    + unfold tensor_row. rewrite Hshape.
      destruct (0 <=? r) eqn:E1, (r <? R) eqn:E2; simpl; try done; lia.
    + unfold tensor_row. simpl.
      destruct (0 <=? r) eqn:E1, (r <? R) eqn:E2; simpl; try lia.
      f_equal. unfold row_words at 1. simpl.
      rewrite Z.mul_1_r. change (Z.to_nat 1) with 1%nat.
      erewrite take_S_r.
      * rewrite take_0. simpl. reflexivity.
      * rewrite lookup_drop, Nat.add_0_r, list_lookup_fmap.
        rewrite lookup_seq_lt by lia. simpl.
        now rewrite Z2Nat.id by lia.
Qed.

Lemma update_position_ids_counts_witness :
  exists result,
    (forall stale position_ids,
        update_position_ids stale position_ids
          (mkTensor [2; 3] [1; 0; 1; 0; 1; 1]) = Done result) /\
    shape result = [2; 1] /\
    forall r : Z,
      0 <= r < 2 ->
      exists row,
        tensor_row (mkTensor [2; 3] [1; 0; 1; 0; 1; 1]) r = Some row /\
        tensor_row result r = Some [count_ones (take (Z.to_nat (3 - 1)) row)].
Proof.
  apply (update_position_ids_counts (mkTensor [2; 3] [1; 0; 1; 0; 1; 1]) 2 3).
  - unfold matrix, sizeof_int64, SIZE_MOD. simpl. repeat split; lia.
  - lia.
  - unfold INT_MAX. lia.
  - unfold binary. repeat constructor; lia.
Defined.

End BeamStateFacts.

(** ** Decode Loop Orchestrator *)

Module OrchestratorFacts.
Import Orchestrator Examples MachineFacts.

(** *** Row offsets *)

(** C3 fails on the code.  Four groups with request ids 0..3 each hold two
    running hypotheses; group 0 has finished, so the active list is groups
    1, 2, 3 and the offsets of the step before are 0, 2, 4, 6.  Line 139
    reads [beam_offets[i - 1]] with the loop counter as the key instead of
    the request id of the previous active group: group 3 gets offset 2, the
    offset of group 2, where the prefix sum of the running counts before it
    is 4, and at the next step its beam indices 2, 3 point at the rows of
    group 2. *)
Theorem recompute_beam_offets_position_as_key :
  let active := [running_group 1 2; running_group 2 2; running_group 3 2] in
  let before : gmap Z Z := list_to_map [(0, 0); (1, 2); (2, 4); (3, 6)] in
  exists after rows,
    recompute_beam_offets active before = Done after /\
    after !! 2 = Some 2 /\
    after !! 3 = Some 2 /\
    prefix_offset active 2 = 4 /\
    build_rows toy_beam_idxs (fun _ => 0) toy_sampler after active 6 = Done rows /\
    next_beams rows = [0; 1; 2; 3; 2; 3].
Proof.
  do 2 eexists. repeat split; vm_compute; reflexivity.
Qed.

Section Offsets.

Context {score : Type}.

Lemma prefix_offset_S (active : list (@SequenceGroup score)) (i : nat)
    (sg : @SequenceGroup score) :
  active !! i = Some sg ->
  prefix_offset active (S i) = prefix_offset active i + num_running_seqs sg.
Proof.
  intros Hi. unfold prefix_offset. rewrite (take_S_r _ _ _ Hi), map_app.
  cbn [map]. generalize (num_running_seqs sg) as k.
  generalize (map num_running_seqs (take i active)).
  intros l k. induction l as [|x l IH]; simpl; lia.
Qed.

Lemma running_sum_nonneg (gs : list (@SequenceGroup score)) :
  0 <= foldr Z.add 0 (map num_running_seqs gs).
Proof.
  induction gs as [|g gs IH]; simpl; [lia|].
  unfold num_running_seqs at 1. lia.
Qed.

Lemma running_sum_app (gs hs : list (@SequenceGroup score)) :
  foldr Z.add 0 (map num_running_seqs (gs ++ hs))
  = foldr Z.add 0 (map num_running_seqs gs)
    + foldr Z.add 0 (map num_running_seqs hs).
Proof. induction gs as [|g gs IH]; simpl; lia. Qed.

Lemma prefix_offset_mono (active : list (@SequenceGroup score)) (i : nat) :
  0 <= prefix_offset active i <= prefix_offset active (length active).
Proof.
  unfold prefix_offset. rewrite firstn_all.
  rewrite <- (take_drop i active) at 3. rewrite running_sum_app.
  pose proof (running_sum_nonneg (take i active)).
  pose proof (running_sum_nonneg (drop i active)). lia.
Qed.

(** While the request ids of the active groups are their positions in the
    active list, lines 137-140 do compute the prefix sums: the key [i - 1]
    is then the request id of the previous group. *)
Lemma recompute_offsets_loop (active : list (@SequenceGroup score)) (n lo : nat)
    (offs : gmap Z Z) :
  (forall i sg, active !! i = Some sg -> get_request_id sg = Z.of_nat i) ->
  prefix_offset active (length active) < SIZE_MOD ->
  (lo + n = length active)%nat ->
  (forall j, (j < lo)%nat -> offs !! Z.of_nat j = Some (prefix_offset active j)) ->
  exists offs',
    for_loop lo n (recompute_offset active) offs = Done offs' /\
    forall j, (j < length active)%nat ->
      offs' !! Z.of_nat j = Some (prefix_offset active j).
Proof.
  intros Hids Hfit. revert lo offs.
  induction n as [|n IH]; intros lo offs HN Hinv.
  - exists offs. split; [done|]. intros j Hj. apply Hinv. lia.
  - destruct (lookup_lt_is_Some_2 active lo) as [sg Hsg]; [lia|].
    pose proof (Hids _ _ Hsg) as Hid.
    assert (Hstep : exists offs1,
               recompute_offset active lo offs = Done offs1 /\
               forall j, (j < S lo)%nat ->
                 offs1 !! Z.of_nat j = Some (prefix_offset active j)).
    { unfold recompute_offset, vector_at. rewrite Hsg. simpl.
      destruct lo as [|lo'].
      - eexists. split; [reflexivity|]. intros j Hj.
        assert (j = 0%nat) as -> by lia.
        rewrite Hid. rewrite lookup_insert_eq. done.
      - destruct (lookup_lt_is_Some_2 active lo') as [prev Hprev]; [lia|].
        rewrite Hprev. simpl.
        rewrite (Hinv lo') by lia. unfold map_index. rewrite (Hinv lo') by lia.
        simpl. eexists. split; [reflexivity|]. intros j Hj.
        rewrite Hid.
        destruct (decide (j = S lo')) as [->|Hne].
        + rewrite lookup_insert_eq. f_equal.
          rewrite (prefix_offset_S _ _ _ Hprev).
          pose proof (prefix_offset_mono active lo').
          pose proof (prefix_offset_mono active (S lo')) as Hm.
          rewrite (prefix_offset_S _ _ _ Hprev) in Hm.
          rewrite to_size_t_small; lia.
        + rewrite lookup_insert_ne by lia. apply Hinv. lia. }
    destruct Hstep as (offs1 & Hrun & Hinv1).
    cbn [for_loop]. rewrite Hrun. simpl.
    apply IH; [lia|done].
Qed.

Lemma recompute_beam_offets_in_order (active : list (@SequenceGroup score))
    (offs : gmap Z Z) :
  (forall i sg, active !! i = Some sg -> get_request_id sg = Z.of_nat i) ->
  prefix_offset active (length active) < SIZE_MOD ->
  exists offs',
    recompute_beam_offets active offs = Done offs' /\
    forall i sg, active !! i = Some sg ->
      offs' !! get_request_id sg = Some (prefix_offset active i).
Proof.
  intros Hids Hfit.
  destruct (recompute_offsets_loop active (length active) 0 offs Hids Hfit)
    as (offs' & Hrun & Hall); [done|intros j Hj; lia|].
  exists offs'. split; [exact Hrun|].
  intros i sg Hsg. rewrite (Hids _ _ Hsg). apply Hall.
  eapply lookup_lt_Some; eauto.
Qed.

End Offsets.

(** *** Result assembly *)

Section Assembly.

Context {score request_info : Type}.
Variable get_beam_search_score : @Sequence score -> GenerationConfig -> score.

Local Abbreviation score_in params :=
  (fun sequence : @Sequence score =>
     if is_beam_search params
     then get_beam_search_score sequence params
     else get_cumulative_log_probs sequence).

Lemma collect_sequence_step (params : GenerationConfig)
    (sequences : list (@Sequence score)) (lo : nat) (sq : @Sequence score)
    (acc : @EncodedResults score) :
  sequences !! lo = Some sq ->
  collect_sequence get_beam_search_score params sequences lo acc
  = Done {| tokens := tokens acc ++ [get_generated_ids sq];
            scores := scores acc ++ [score_in params sq] |}.
Proof.
  intros Hsq. unfold collect_sequence.
  now rewrite (vector_index_nat _ _ _ Hsq).
Qed.

Lemma collect_sequence_loop (params : GenerationConfig)
    (sequences : list (@Sequence score)) (n lo : nat) (acc : @EncodedResults score) :
  (lo + n <= length sequences)%nat ->
  for_loop lo n (collect_sequence get_beam_search_score params sequences) acc
  = Done {| tokens := tokens acc
                      ++ map get_generated_ids (take n (drop lo sequences));
            scores := scores acc
                      ++ map (score_in params) (take n (drop lo sequences)) |}.
Proof.
  revert lo acc. induction n as [|n IH]; intros lo acc Hle.
  - simpl. rewrite !app_nil_r. now destruct acc.
  - destruct (lookup_lt_is_Some_2 sequences lo) as [sq Hsq]; [lia|].
    cbn [for_loop]. rewrite (collect_sequence_step _ _ _ _ _ Hsq). simpl.
    rewrite IH by lia. simpl.
    rewrite (drop_S _ _ _ Hsq). simpl.
    now rewrite <- !app_assoc.
Qed.

Lemma collect_group_done (sg : @SequenceGroup score) (acc : @EncodedResults score) :
  collect_group get_beam_search_score sg acc
  = Done {| tokens := tokens acc
                      ++ map get_generated_ids (returned_sequences sg);
            scores := scores acc
                      ++ map (returned_score get_beam_search_score sg)
                             (returned_sequences sg) |}.
Proof.
  unfold collect_group. rewrite collect_sequence_loop by lia.
  now rewrite drop_0.
Qed.

Lemma collect_results_from (groups : list (@SequenceGroup score))
    (acc : @EncodedResults score) :
  for_each groups (collect_group get_beam_search_score) acc
  = Done {| tokens := tokens acc
                      ++ flat_map (fun sg => map get_generated_ids (returned_sequences sg))
                                  groups;
            scores := scores acc
                      ++ flat_map (fun sg => map (returned_score get_beam_search_score sg)
                                                 (returned_sequences sg))
                                  groups |}.
Proof.
  revert acc. induction groups as [|sg groups IH]; intros acc.
  - simpl. rewrite !app_nil_r. now destruct acc.
  - cbn [for_each]. rewrite collect_group_done. simpl.
    rewrite IH. simpl. now rewrite <- !app_assoc.
Qed.

Lemma collect_results_done (groups : list (@SequenceGroup score)) :
  collect_results get_beam_search_score groups
  = Done {| tokens := flat_map (fun sg => map get_generated_ids (returned_sequences sg))
                               groups;
            scores := flat_map (fun sg => map (returned_score get_beam_search_score sg)
                                              (returned_sequences sg))
                               groups |}.
Proof. unfold collect_results. now rewrite collect_results_from. Qed.

Lemma release_requests_cons (sg : @SequenceGroup score)
    (groups : list (@SequenceGroup score)) (sampler : @Sampler request_info) :
  release_requests sampler (sg :: groups)
  = release_requests (clear_request_info sampler (get_request_id sg)) groups.
Proof. reflexivity. Qed.

Lemma release_requests_keeps_released (groups : list (@SequenceGroup score))
    (sampler : @Sampler request_info) (k : Z) :
  sampler_requests sampler !! k = None ->
  sampler_requests (release_requests sampler groups) !! k = None.
Proof.
  revert sampler. induction groups as [|sg groups IH]; intros sampler Hk; [done|].
  rewrite release_requests_cons.
  apply IH. simpl. rewrite lookup_delete. case_decide; done.
Qed.

Lemma release_requests_released (groups : list (@SequenceGroup score))
    (sampler : @Sampler request_info) (sg : @SequenceGroup score) :
  sg ∈ groups ->
  sampler_requests (release_requests sampler groups) !! get_request_id sg = None.
Proof.
  revert sampler. induction groups as [|sg' groups IH]; intros sampler Hin.
  - by apply elem_of_nil in Hin.
  - rewrite release_requests_cons.
    apply elem_of_cons in Hin as [-> | Hin].
    + apply release_requests_keeps_released. simpl. apply lookup_delete_eq.
    + now apply IH.
Qed.

Lemma release_requests_others (groups : list (@SequenceGroup score))
    (sampler : @Sampler request_info) (k : Z) :
  (forall sg, sg ∈ groups -> get_request_id sg <> k) ->
  sampler_requests (release_requests sampler groups) !! k
  = sampler_requests sampler !! k.
Proof.
  revert sampler. induction groups as [|sg groups IH]; intros sampler Hk; [done|].
  rewrite release_requests_cons, IH.
  - simpl. apply lookup_delete_ne. apply Hk. left.
  - intros sg' Hin. apply Hk. now right.
Qed.


(** *** Disappeared-token reconciliation *)

Lemma last_token_of_best_sequence_flagged
    (first_group : @SequenceGroup score) (rest : list (@SequenceGroup score))
    (best : @Sequence score) (others : list (@Sequence score))
    (results : @EncodedResults score) (best_tokens : list Z) (more : list (list Z)) :
  get_finished_sequences first_group = best :: others ->
  tokens results = best_tokens :: more ->
  last_token_of_best_sequence (first_group :: rest) results
  = if finish_reason_eqb (get_finish_reason best) LENGTH || handle_dropped first_group
    then match last best_tokens with
         | Some t => Done (Some t)
         | None => Undefined
         end
    else Done None.
Proof.
  intros Hfin Htok. unfold last_token_of_best_sequence, vector_index. simpl.
  rewrite Hfin. simpl. rewrite Htok. simpl.
  unfold vector_back. now destruct (last best_tokens).
Qed.

Lemma returned_sequences_first (sg : @SequenceGroup score)
    (best : @Sequence score) (others : list (@Sequence score)) :
  get_finished_sequences sg = best :: others ->
  (1 <= num_return_sequences (get_sampling_parameters sg))%nat ->
  exists more, returned_sequences sg = best :: more.
Proof.
  intros Hfin Hnum. unfold returned_sequences. rewrite Hfin.
  destruct (num_return_sequences _) as [|k]; [lia|]. simpl. eauto.
Qed.

Lemma finish_reason_eqb_eq (a b : GenerationFinishReason) :
  finish_reason_eqb a b = true <-> a = b.
Proof. destruct a, b; simpl; split; congruence. Qed.


End Assembly.


(** *** An empty list of sequence groups *)

Section EmptyGroups.

Context {score request_info : Type}.
Variable infer : InferRequest -> InferRequest.
Variable sample : @Sampler request_info -> list (@SequenceGroup score) -> Tensor ->
                  @Sampler request_info * list (@SequenceGroup score).
Variable get_beam_idxs : @Sampler request_info -> @SequenceGroup score -> gmap Z Z.
Variable get_beam_search_score : @Sequence score -> GenerationConfig -> score.
Variable stale : nat -> Z.

Lemma deref_all_everyone (heap : list (@SequenceGroup score)) (lo : nat) :
  deref_all heap (seq lo (length heap - lo)) = Done (drop lo heap).
Proof.
  remember (length heap - lo)%nat as n eqn:Hn. revert lo Hn.
  induction n as [|n IH]; intros lo Hn.
  - simpl. now rewrite drop_ge by lia.
  - destruct (lookup_lt_is_Some_2 heap lo) as [sg Hsg]; [lia|].
    simpl. unfold deref at 1. rewrite Hsg. simpl.
    rewrite IH by lia. simpl. now rewrite (drop_S _ _ _ Hsg).
Qed.

Lemma sample_groups_everyone (sampler : @Sampler request_info)
    (heap : list (@SequenceGroup score)) (logits : Tensor) :
  exists sampler' heap',
    sample_groups sample sampler heap (seq 0 (length heap)) logits
    = Done (sampler', heap') /\
    length heap' = length heap.
Proof.
  unfold sample_groups.
  pose proof (deref_all_everyone heap 0) as Hall.
  rewrite Nat.sub_0_r, drop_0 in Hall. rewrite Hall. simpl.
  destruct (sample sampler heap logits) as [sampler' sgs'].
  do 2 eexists. split; [reflexivity|].
  generalize (seq 0 (length heap)). revert heap Hall.
  induction sgs' as [|sg sgs' IH]; intros heap Hall ps.
  - now destruct ps.
  - destruct ps as [|p ps]; [done|]. simpl.
    rewrite IH; [apply length_insert|].
    pose proof (deref_all_everyone (<[p:=sg]> heap) 0) as H.
    now rewrite Nat.sub_0_r, drop_0 in H.
Qed.

(** Whether the prompt step completes, throws or leaves defined behaviour
    does not depend on the groups. *)
Lemma prompt_step_outcome (m_llm : InferRequest) (input_ids attention_mask : Tensor)
    (sampler : @Sampler request_info) (groups : list (@SequenceGroup score))
    (position_ids : option Tensor) (m_embedding : option (Tensor -> Tensor)) :
  match prompt_step infer sample m_llm input_ids attention_mask sampler []
                    position_ids m_embedding with
  | Done st =>
      heap st = [] /\ active_sequence_groups st = [] /\
      exists st', prompt_step infer sample m_llm input_ids attention_mask sampler
                              groups position_ids m_embedding = Done st'
  | Throws e =>
      prompt_step infer sample m_llm input_ids attention_mask sampler
                  groups position_ids m_embedding = Throws e
  | Undefined =>
      prompt_step infer sample m_llm input_ids attention_mask sampler
                  groups position_ids m_embedding = Undefined
  end.
Proof.
  unfold prompt_step.
  destruct (vector_index (shape input_ids) 0) as [batch_size| |]; simpl; try done.
  match goal with
  | |- context [get_tensor ?r "logits"] => destruct (get_tensor r "logits") as [logits| |]
  end; simpl; try done.
  destruct (shape_at (shape logits) 1) as [sequence_len| |]; simpl; try done.
  unfold sample_groups at 1. simpl.
  destruct (sample sampler [] logits) as [sampler0 sgs0]. simpl.
  split; [now destruct sgs0|]. split; [done|].
  destruct (sample_groups_everyone sampler
              (map (prompt_bookkeeping sequence_len) groups) logits)
    as (sampler' & heap' & Hs & _).
  rewrite Hs. simpl. eauto.
Qed.

(** C9, amended.  [get_lm_encoded_results] has no check for an empty
    [sequence_groups].  With an empty list it binds the inputs and runs the
    prompt step exactly as for any other list; when that completes, the loop
    and result assembly have nothing to do and the call then reads
    [sequence_groups[0]] unchecked, which is outside the vector: no error is
    reported.  A non-empty list is the caller's duty. *)
Theorem get_lm_encoded_results_empty_groups (fuel : nat) (m_llm : InferRequest)
    (input_ids attention_mask : Tensor) (sampler : @Sampler request_info)
    (position_ids : option Tensor) (m_embedding : option (Tensor -> Tensor)) :
  get_lm_encoded_results infer sample get_beam_idxs get_beam_search_score stale
    fuel m_llm input_ids attention_mask sampler [] position_ids m_embedding
  = match prompt_step infer sample m_llm input_ids attention_mask sampler []
                      position_ids m_embedding with
    | Done _ => Some Undefined
    | Throws e => Some (Throws e)
    | Undefined => Some Undefined
    end
  /\
  forall (groups : list (@SequenceGroup score)) (e : Exception),
    prompt_step infer sample m_llm input_ids attention_mask sampler []
                position_ids m_embedding = Throws e ->
    prompt_step infer sample m_llm input_ids attention_mask sampler groups
                position_ids m_embedding = Throws e.
Proof.
  split.
  - unfold get_lm_encoded_results.
    pose proof (prompt_step_outcome m_llm input_ids attention_mask sampler []
                  position_ids m_embedding) as H.
    destruct (prompt_step _ _ _ _ _ _ _ _ _) as [st| |]; try done.
    destruct H as (Hheap & Hactive & _).
    destruct fuel; simpl; rewrite Hactive; unfold assemble; rewrite Hheap; done.
  - intros groups e He.
    pose proof (prompt_step_outcome m_llm input_ids attention_mask sampler groups
                  position_ids m_embedding) as H.
    now rewrite He in H.
Qed.

End EmptyGroups.

(** C9 as stated fails: with no sequence group the prompt step is run and
    completes, and the call ends in the unchecked read of
    [sequence_groups[0]] instead of reporting an error. *)
Lemma get_lm_encoded_results_empty_not_rejected :
  (exists st,
      prompt_step toy_infer toy_sample toy_engine
        (mkTensor [1; 3; 4] []) (mkTensor [1; 3] [1; 1; 1]) toy_sampler []
        None None = Done st) /\
  get_lm_encoded_results toy_infer toy_sample toy_beam_idxs toy_beam_score
    (fun _ => 0) 0 toy_engine
    (mkTensor [1; 3; 4] []) (mkTensor [1; 3] [1; 1; 1]) toy_sampler []
    None None
  = Some Undefined.
Proof. split; [eexists|]; vm_compute; reflexivity. Qed.

End OrchestratorFacts.

(** *** The next input token ids *)

Module RowsFacts.
Import Orchestrator Examples MachineFacts.

Section Rows.

Context {score request_info : Type}.
Variable get_beam_idxs : @Sampler request_info -> @SequenceGroup score -> gmap Z Z.
Variable stale : nat -> Z.

Lemma token_at_expected (sg : @SequenceGroup score) (sq : @Sequence score) (p v : Z) :
  0 <= p < SIZE_MOD ->
  expected_token sg sq p = Some v ->
  token_at sg sq p = Done v.
Proof.
  intros Hp. unfold expected_token, token_at, get_prompt_len.
  destruct (p <? _) eqn:E; intros Hv.
  - now apply vector_index_lookup.
  - apply Z.ltb_ge in E.
    rewrite to_size_t_small by lia.
    apply vector_index_lookup; [lia|done].
Qed.

(** The scheduled positions of one hypothesis, [lo] and up. *)
Local Abbreviation positions sg sq lo n :=
  (map (fun t : nat => expected_token sg sq (get_num_processed_tokens sg + Z.of_nat t))
       (seq lo n)).

Lemma write_token_step (sg : @SequenceGroup score) (sq : @Sequence score)
    (cursor : Z) (lo : nat) (done rest : list Z) (tok : Z) :
  0 <= get_num_processed_tokens sg ->
  get_num_processed_tokens sg + Z.of_nat lo < SIZE_MOD ->
  Z.of_nat (length done) = cursor + Z.of_nat lo ->
  (1 <= length rest)%nat ->
  expected_token sg sq (get_num_processed_tokens sg + Z.of_nat lo) = Some tok ->
  write_token sg sq cursor (get_num_processed_tokens sg) lo (done ++ rest)
  = Done ((done ++ [tok]) ++ drop 1 rest).
Proof.
  intros Hpos Hfit Hdone Hrest Htok. unfold write_token.
  rewrite to_size_t_small by lia.
  rewrite (token_at_expected _ _ _ tok) by (done || lia).
  cbn [mbind outcome_bind].
  rewrite store_app by lia. now rewrite <- app_assoc.
Qed.

Lemma write_token_loop (sg : @SequenceGroup score) (sq : @Sequence score)
    (cursor : Z) (n lo : nat) (done rest toks : list Z) :
  0 <= get_num_processed_tokens sg ->
  get_num_processed_tokens sg + Z.of_nat (lo + n) <= SIZE_MOD ->
  Z.of_nat (length done) = cursor + Z.of_nat lo ->
  (n <= length rest)%nat ->
  map Some toks = positions sg sq lo n ->
  for_loop lo n (write_token sg sq cursor (get_num_processed_tokens sg)) (done ++ rest)
  = Done ((done ++ toks) ++ drop n rest).
Proof.
  intros Hpos. revert lo done rest toks.
  induction n as [|n IH]; intros lo done rest toks Hfit Hdone Hrest Htoks.
  - destruct toks; [|done]. simpl. now rewrite app_nil_r.
  - destruct toks as [|tok toks]; [done|]. simpl in Htoks.
    injection Htoks as Htok Htoks.
    cbn [for_loop].
    rewrite (write_token_step sg sq cursor lo done rest tok) by (done || lia).
    cbn [mbind outcome_bind].
    rewrite (IH (S lo) (done ++ [tok]) (drop 1 rest) toks).
    + rewrite drop_drop. rewrite <- !app_assoc. done.
    + lia.
    + rewrite length_app. simpl. lia.
    + rewrite length_drop. lia.
    + done.
Qed.

Lemma build_sequence_rows_done (sg : @SequenceGroup score) (beam_idxs offs : gmap Z Z)
    (sq : @Sequence score) (done rest toks beams : list Z) (off : Z) :
  0 <= get_num_processed_tokens sg ->
  0 <= get_num_scheduled_tokens sg ->
  get_num_processed_tokens sg + get_num_scheduled_tokens sg <= SIZE_MOD ->
  offs !! get_request_id sg = Some off ->
  (Z.to_nat (get_num_scheduled_tokens sg) <= length rest)%nat ->
  map Some toks = positions sg sq 0%nat (Z.to_nat (get_num_scheduled_tokens sg)) ->
  exists beam,
    build_sequence_rows sg beam_idxs offs sq
      {| input_words := done ++ rest;
         input_ids_data := Z.of_nat (length done);
         next_beams := beams |}
    = Done {| input_words := (done ++ toks) ++ drop (length toks) rest;
              input_ids_data := Z.of_nat (length (done ++ toks));
              next_beams := beams ++ [beam] |}.
Proof.
  intros Hpos Hsched Hfit Hoff Hrest Htoks.
  assert (Hlen : length toks = Z.to_nat (get_num_scheduled_tokens sg)).
  { apply (f_equal length) in Htoks.
    now rewrite !length_map, length_seq in Htoks. }
  unfold build_sequence_rows. cbn [input_words input_ids_data next_beams].
  rewrite (write_token_loop sg sq _ _ 0 done rest toks); try done; try lia.
  cbn [mbind outcome_bind]. unfold map_at. rewrite Hoff. cbn [mbind outcome_bind].
  eexists. rewrite Hlen. do 2 f_equal.
  rewrite length_app. lia.
Qed.

(** The rows of one group, hypothesis after hypothesis. *)
Local Abbreviation group_rows sg :=
  (flat_map (fun sq => positions sg sq 0%nat (Z.to_nat (get_num_scheduled_tokens sg)))
            (get_running_sequences sg)).

Lemma build_sequences_done (sg : @SequenceGroup score) (beam_idxs offs : gmap Z Z)
    (off : Z) (sqs : list (@Sequence score)) (done rest toks beams : list Z) :
  0 <= get_num_processed_tokens sg ->
  0 <= get_num_scheduled_tokens sg ->
  get_num_processed_tokens sg + get_num_scheduled_tokens sg <= SIZE_MOD ->
  offs !! get_request_id sg = Some off ->
  (length toks <= length rest)%nat ->
  map Some toks
  = flat_map (fun sq => positions sg sq 0%nat (Z.to_nat (get_num_scheduled_tokens sg)))
             sqs ->
  exists more,
    length more = length sqs /\
    for_each sqs (build_sequence_rows sg beam_idxs offs)
      {| input_words := done ++ rest;
         input_ids_data := Z.of_nat (length done);
         next_beams := beams |}
    = Done {| input_words := (done ++ toks) ++ drop (length toks) rest;
              input_ids_data := Z.of_nat (length (done ++ toks));
              next_beams := beams ++ more |}.
Proof.
  intros Hpos Hsched Hfit Hoff.
  revert done rest toks beams.
  induction sqs as [|sq sqs IH]; intros done rest toks beams Hrest Htoks.
  - destruct toks; [|done]. exists []. simpl. now rewrite !app_nil_r.
  - simpl in Htoks.
    apply map_eq_app in Htoks as (t1 & t2 & -> & Ht1 & Ht2).
    assert (Hlen1 : length t1 = Z.to_nat (get_num_scheduled_tokens sg)).
    { apply (f_equal length) in Ht1.
      now rewrite !length_map, length_seq in Ht1. }
    rewrite length_app in Hrest.
    destruct (build_sequence_rows_done sg beam_idxs offs sq done rest t1 beams off)
      as [beam Hstep]; try done; try lia.
    cbn [for_each]. rewrite Hstep. cbn [mbind outcome_bind].
    destruct (IH (done ++ t1) (drop (length t1) rest) t2 (beams ++ [beam]))
      as (more & Hmore & Hrec).
    + rewrite length_drop. lia.
    + done.
    + exists (beam :: more). split; [simpl; lia|].
      rewrite Hrec. rewrite drop_drop, <- !app_assoc, !length_app.
      f_equal; lia.
Qed.

(** What a group needs for its rows to be built. *)
Local Abbreviation buildable offs sg :=
  (0 <= get_num_processed_tokens sg /\
   0 <= get_num_scheduled_tokens sg /\
   get_num_processed_tokens sg + get_num_scheduled_tokens sg <= SIZE_MOD /\
   is_Some (offs !! get_request_id sg)).

Lemma build_group_rows_unfold (sampler : @Sampler request_info) (offs : gmap Z Z)
    (sg : @SequenceGroup score) (b : RowBuilder) :
  build_group_rows get_beam_idxs sampler offs sg b
  = for_each (get_running_sequences sg)
      (build_sequence_rows sg (get_beam_idxs sampler sg) offs) b.
Proof. reflexivity. Qed.

Lemma build_groups_done (sampler : @Sampler request_info) (offs : gmap Z Z)
    (groups : list (@SequenceGroup score)) (done rest toks beams : list Z) :
  (forall sg, sg ∈ groups -> buildable offs sg) ->
  (length toks <= length rest)%nat ->
  map Some toks = expected_rows groups ->
  exists more,
    for_each groups (build_group_rows get_beam_idxs sampler offs)
      {| input_words := done ++ rest;
         input_ids_data := Z.of_nat (length done);
         next_beams := beams |}
    = Done {| input_words := (done ++ toks) ++ drop (length toks) rest;
              input_ids_data := Z.of_nat (length (done ++ toks));
              next_beams := beams ++ more |}.
Proof.
  revert done rest toks beams.
  induction groups as [|sg groups IH]; intros done rest toks beams Hok Hrest Htoks.
  - destruct toks; [|done]. exists []. simpl. now rewrite !app_nil_r.
  - unfold expected_rows in Htoks. simpl in Htoks.
    apply map_eq_app in Htoks as (t1 & t2 & -> & Ht1 & Ht2).
    rewrite length_app in Hrest.
    destruct (Hok sg) as (Hpos & Hsched & Hfit & [off Hoff]); [left|].
    destruct (build_sequences_done sg (get_beam_idxs sampler sg) offs off
                (get_running_sequences sg) done rest t1 beams)
      as (more1 & _ & Hstep); try done; try lia.
    cbn [for_each]. rewrite build_group_rows_unfold, Hstep.
    cbn [mbind outcome_bind].
    destruct (IH (done ++ t1) (drop (length t1) rest) t2 (beams ++ more1))
      as (more2 & Hrec).
    + intros sg' Hin. apply Hok. now right.
    + rewrite length_drop. lia.
    + done.
    + exists (more1 ++ more2). rewrite Hrec.
      rewrite drop_drop, <- !app_assoc, !length_app. f_equal; lia.
Qed.

Lemma length_expected_rows (groups : list (@SequenceGroup score)) :
  (forall sg, sg ∈ groups -> 0 <= get_num_scheduled_tokens sg) ->
  Z.of_nat (length (expected_rows groups)) = row_count groups.
Proof.
  unfold expected_rows, row_count.
  induction groups as [|sg groups IH]; intros Hok; [done|].
  simpl. rewrite length_app, Nat2Z.inj_add, IH.
  2:{ intros sg' Hin. apply Hok. now right. }
  f_equal.
  rewrite (length_flat_map_const _ (Z.to_nat (get_num_scheduled_tokens sg))).
  - unfold num_running_seqs. specialize (Hok sg ltac:(left)). nia.
  - intros sq _. now rewrite length_map, length_seq.
Qed.

Lemma build_rows_done (sampler : @Sampler request_info) (offs : gmap Z Z)
    (groups : list (@SequenceGroup score)) (toks : list Z) :
  (forall sg, sg ∈ groups -> buildable offs sg) ->
  map Some toks = expected_rows groups ->
  exists beams,
    build_rows get_beam_idxs stale sampler offs groups (row_count groups)
    = Done {| input_words := toks;
              input_ids_data := row_count groups;
              next_beams := beams |}.
Proof.
  intros Hok Htoks.
  assert (Hlen : Z.of_nat (length toks) = row_count groups).
  { rewrite <- length_expected_rows by (intros sg Hin; apply (Hok sg Hin)).
    now rewrite <- Htoks, length_map. }
  unfold build_rows, set_shape. cbn [data].
  set (fresh := map stale _).
  assert (Hfresh : length fresh = length toks).
  { unfold fresh. rewrite length_map, length_seq. unfold shape_size. simpl. lia. }
  destruct (build_groups_done sampler offs groups [] fresh toks [] Hok) as [more Hrun];
    [lia|done|].
  change (@nil Z ++ fresh) with fresh in Hrun.
  change (Z.of_nat (length (@nil Z))) with 0 in Hrun.
  rewrite Hrun. exists more. simpl.
  rewrite drop_ge by lia. now rewrite app_nil_r, Hlen.
Qed.

End Rows.

Section Scheduling.

Context {score : Type}.

Lemma deref_all_cons (heap : list (@SequenceGroup score)) (p : nat) (ps : list nat) :
  deref_all heap (p :: ps)
  = (sg ← deref heap p ; sgs ← deref_all heap ps ; Done (sg :: sgs)).
Proof. reflexivity. Qed.

Lemma deref_all_insert_fresh (heap : list (@SequenceGroup score)) (p : nat)
    (sg : @SequenceGroup score) (ps : list nat) :
  p ∉ ps -> deref_all (<[p := sg]> heap) ps = deref_all heap ps.
Proof.
  induction ps as [|q ps IH]; intros Hp; [done|].
  rewrite !deref_all_cons, IH by set_solver.
  unfold deref. rewrite list_lookup_insert_ne by set_solver. done.
Qed.

Lemma row_count_cons (sg : @SequenceGroup score) (gs : list (@SequenceGroup score)) :
  row_count (sg :: gs)
  = get_num_scheduled_tokens sg * num_running_seqs sg + row_count gs.
Proof. reflexivity. Qed.

Lemma row_count_scheduled_nonneg (gs : list (@SequenceGroup score)) :
  0 <= row_count (map (fun sg => schedule_tokens sg 1) gs).
Proof.
  induction gs as [|g gs IH]; [done|].
  cbn [map]. rewrite row_count_cons.
  cbn [get_num_scheduled_tokens schedule_tokens].
  unfold num_running_seqs at 1. lia.
Qed.

Lemma schedule_group_step (heap : list (@SequenceGroup score)) (p : nat)
    (sg : @SequenceGroup score) (total : Z) :
  heap !! p = Some sg ->
  0 <= total ->
  total + num_running_seqs sg < SIZE_MOD ->
  schedule_group p (heap, total)
  = Done (<[p := schedule_tokens sg 1]> heap, total + num_running_seqs sg).
Proof.
  intros Hsg Htotal Hfit.
  assert (Hrun : 0 <= num_running_seqs sg) by (unfold num_running_seqs; lia).
  unfold schedule_group, deref. rewrite Hsg.
  cbn [mbind outcome_bind get_num_scheduled_tokens schedule_tokens].
  change (num_running_seqs (schedule_tokens sg 1)) with (num_running_seqs sg).
  rewrite (to_size_t_small (1 * num_running_seqs sg)) by lia.
  rewrite to_size_t_small by lia.
  do 2 f_equal. lia.
Qed.

Lemma schedule_from (active : list nat) (heap : list (@SequenceGroup score))
    (groups : list (@SequenceGroup score)) (total : Z) :
  NoDup active ->
  deref_all heap active = Done groups ->
  0 <= total ->
  total + row_count (map (fun sg => schedule_tokens sg 1) groups) < SIZE_MOD ->
  exists heap',
    for_each active schedule_group (heap, total)
    = Done (heap', total + row_count (map (fun sg => schedule_tokens sg 1) groups)) /\
    deref_all heap' active = Done (map (fun sg => schedule_tokens sg 1) groups) /\
    (forall q, q ∉ active -> heap' !! q = heap !! q).
Proof.
  revert heap groups total.
  induction active as [|p ps IH]; intros heap groups total Hnd Hall Htotal Hfit.
  - injection Hall as <-. exists heap. simpl. unfold row_count. simpl.
    rewrite Z.add_0_r. done.
  - apply NoDup_cons in Hnd as [Hp Hnd].
    rewrite deref_all_cons in Hall. unfold deref in Hall at 1.
    destruct (heap !! p) as [sg|] eqn:Hsg; [|done]. simpl in Hall.
    destruct (deref_all heap ps) as [sgs| |] eqn:Hsgs; try done. simpl in Hall.
    injection Hall as <-.
    pose proof (row_count_scheduled_nonneg sgs) as Hrest.
    change (row_count (map (fun sg => schedule_tokens sg 1) (sg :: sgs)))
      with (1 * num_running_seqs sg
            + row_count (map (fun sg => schedule_tokens sg 1) sgs)) in *.
    assert (Hrun : 0 <= num_running_seqs sg) by (unfold num_running_seqs; lia).
    cbn [for_each]. rewrite (schedule_group_step heap p sg total) by (done || lia).
    cbn [mbind outcome_bind].
    destruct (IH (<[p := schedule_tokens sg 1]> heap) sgs
                 (total + num_running_seqs sg))
      as (heap' & Hrun' & Hall' & Hframe); try done; try lia.
    { now rewrite deref_all_insert_fresh. }
    exists heap'. split; [|split].
    + rewrite Hrun'. do 2 f_equal. lia.
    + rewrite deref_all_cons. unfold deref.
      rewrite (Hframe p Hp).
      rewrite list_lookup_insert_eq by (eapply lookup_lt_Some; eauto).
      simpl. rewrite Hall'. done.
    + intros q Hq. rewrite Hframe by set_solver.
      apply list_lookup_insert_ne. set_solver.
Qed.

End Scheduling.

Section Generated.

Context {score : Type}.

Lemma expected_rows_app (gs1 gs2 : list (@SequenceGroup score)) :
  expected_rows (gs1 ++ gs2) = expected_rows gs1 ++ expected_rows gs2.
Proof. unfold expected_rows. apply flat_map_app. Qed.

Lemma flat_map_singleton {A B} (f : A -> B) (l : list A) :
  flat_map (fun x => [f x]) l = map f l.
Proof. induction l as [|x l IH]; simpl; [done|]. now rewrite IH. Qed.

(** Past its prompt a group contributes one row per running hypothesis, the
    generated token at the number of processed tokens minus the prompt
    length. *)
Lemma expected_rows_generated (sg : @SequenceGroup score) :
  get_prompt_len sg <= get_num_processed_tokens sg ->
  expected_rows [schedule_tokens sg 1]
  = map (fun sequence =>
           get_generated_ids sequence
             !! Z.to_nat (get_num_processed_tokens sg - get_prompt_len sg))
        (get_running_sequences sg).
Proof.
  intros Hpast. unfold expected_rows. cbn [flat_map]. rewrite app_nil_r.
  cbn [schedule_tokens get_running_sequences get_num_scheduled_tokens
       get_num_processed_tokens].
  change (seq 0 (Z.to_nat 1)) with [0%nat]. cbn [map].
  rewrite flat_map_singleton. apply map_ext. intros sequence.
  unfold expected_token, get_prompt_len in *.
  cbn [get_prompt_ids schedule_tokens].
  rewrite Z.add_0_r.
  destruct (_ <? _) eqn:E; [apply Z.ltb_lt in E; lia|done].
Qed.

(** The step after a prompt step that covered the whole prompt starts at the
    end of the prompt, once the sampling policy has ended the iteration. *)
Lemma finishes_iteration_boundary (sg0 sg : @SequenceGroup score) (sequence_len : Z) :
  get_prompt_len sg0 = sequence_len ->
  sequence_len < SIZE_MOD ->
  finishes_iteration (prompt_bookkeeping sequence_len sg0) sg ->
  get_num_processed_tokens sg = get_prompt_len sg.
Proof.
  intros Hlen Hsmall [Hprompt Hprocessed].
  rewrite Hprocessed. unfold prompt_bookkeeping in *.
  cbn [get_num_processed_tokens get_num_scheduled_tokens get_prompt_ids
       schedule_tokens update_processed_tokens_num] in *.
  unfold get_prompt_len in *. rewrite Hprompt.
  rewrite Hlen, Z.sub_diag.
  change (to_size_t 0) with 0. rewrite Z.add_0_l.
  rewrite (to_size_t_small sequence_len) by lia.
  rewrite (to_size_t_small sequence_len) by lia. done.
Qed.

Lemma finishes_iteration_past_prompt (sg sg' : @SequenceGroup score) :
  get_prompt_len sg <= get_num_processed_tokens sg ->
  get_num_processed_tokens sg + 1 < SIZE_MOD ->
  finishes_iteration (schedule_tokens sg 1) sg' ->
  get_prompt_len sg' < get_num_processed_tokens sg'.
Proof.
  intros Hpast Hfit [Hprompt Hprocessed].
  rewrite Hprocessed. unfold get_prompt_len in *. rewrite Hprompt. simpl.
  rewrite to_size_t_small; lia.
Qed.

End Generated.



End RowsFacts.

(** ** Pipeline Facade *)

Module FacadeFacts.
Import Orchestrator Facade Examples MoreExamples MachineFacts.

Section Turn.

Context {score request_info InputsEmbedder Prompt Images Text : Type}.
Variable infer : InferRequest -> InferRequest.
Variable sample : @Sampler request_info -> list (@SequenceGroup score) -> Tensor ->
                  @Sampler request_info * list (@SequenceGroup score).
Variable get_beam_idxs : @Sampler request_info -> @SequenceGroup score -> gmap Z Z.
Variable get_beam_search_score : @Sequence score -> GenerationConfig -> score.
Variable stale : nat -> Z.
Variable validate : GenerationConfig -> bool.
Variable get_inputs_embeds : InputsEmbedder -> Prompt -> Images -> InputsEmbedder * Tensor.
Variable get_num_tokens_to_remove_from_hist : InputsEmbedder -> Z.
Variable get_tokenized_history : InputsEmbedder -> list Z.
Variable update_tokenized_history :
  InputsEmbedder -> list Z -> option Z -> bool -> Z -> InputsEmbedder.
Variable embedding_infer : Tensor -> Tensor.
Variable get_pad_token_id : Z.
Variable decode : list Z -> Text.
Variable initial_log_prob : score.

Lemma shape_size_row (n : Z) : shape_size [1; n] = n.
Proof. unfold shape_size. simpl. lia. Qed.

Lemma shape_size_flat (n : Z) : shape_size [n] = n.
Proof. unfold shape_size. simpl. lia. Qed.

Lemma to_size_t_wrapped (z : Z) :
  - SIZE_MOD <= z < 0 -> to_size_t z = SIZE_MOD + z.
Proof.
  intros Hz. unfold to_size_t. symmetry.
  apply (Z.mod_unique z SIZE_MOD (-1)); lia.
Qed.

Lemma to_size_t_unwrapped (z : Z) :
  0 <= z < SIZE_MOD -> to_size_t (SIZE_MOD + z) = z.
Proof.
  intros Hz. unfold to_size_t. symmetry.
  apply (Z.mod_unique (SIZE_MOD + z) SIZE_MOD 1); lia.
Qed.


(** *** Resetting the engine after a turn *)

Lemma clear_attention_mask_shape (r r' : InferRequest) :
  clear_attention_mask stale r = Done r' ->
  kv_cache_len r' = kv_cache_len r /\
  exists mask,
    tensors r' !! "attention_mask" = Some mask /\
    shape mask = [1; 0] /\ data mask = [].
Proof.
  unfold clear_attention_mask, get_tensor.
  destruct (tensors r !! "attention_mask") as [mask|]; simpl; [|done].
  intros [= <-]. split; [done|].
  eexists. split; [apply lookup_insert_eq|]. done.
Qed.

Lemma reset_after_turn_clears (r r' : InferRequest) :
  reset_after_turn stale r = Done r' ->
  kv_cache_len r' = 0 /\
  exists mask,
    tensors r' !! "attention_mask" = Some mask /\
    shape mask = [1; 0] /\ data mask = [].
Proof.
  unfold reset_after_turn. intros H.
  apply clear_attention_mask_shape in H as [Hkv Hmask]. done.
Qed.

Lemma trim_kv_cache_tensors (r : InferRequest) (n : Z) :
  tensors (trim_kv_cache r n) = tensors r.
Proof. unfold trim_kv_cache. now destruct (n =? 0). Qed.

(** The engine as [reset_state] and [set_shape({1, 0})] leave it. *)
Lemma reset_after_turn_done (r : InferRequest) (mask : Tensor) :
  tensors r !! "attention_mask" = Some mask ->
  reset_after_turn stale r
  = Done {| tensors := <["attention_mask" := {| shape := [1; 0]; data := [] |}]>
                         (tensors r);
            kv_cache_len := 0 |}.
Proof.
  intros Hmask.
  unfold reset_after_turn, clear_attention_mask, get_tensor, reset_state.
  cbn [tensors]. rewrite Hmask. reflexivity.
Qed.

(** C10.  A call of [generate] that completes leaves the engine with its
    internal cache reset and its [attention_mask] tensor of shape (1, 0),
    the shape set at construction; so the next call, whose only engine
    operation before reading the mask is the cache trim, finds a mask of
    length 0 when it computes [history_size].  The reset is not skipped and
    does not depend on the state the engine is in: once the decode loop has
    returned and its results are decoded, the call completes and hands back
    the engine that the loop left, with the cache length 0 and the mask
    replaced by the empty (1, 0) tensor. *)
Theorem generate_resets_engine (fuel : nat)
    (this : @VLMPipelineImpl request_info InputsEmbedder)
    (prompt : Prompt) (rgbs : Images) (generation_config : GenerationConfig) :
  (forall (this' : @VLMPipelineImpl request_info InputsEmbedder)
          (decoded : @VLMDecodedResults score Text),
      generate infer sample get_beam_idxs get_beam_search_score stale validate
        get_inputs_embeds get_num_tokens_to_remove_from_hist get_tokenized_history
        update_tokenized_history embedding_infer get_pad_token_id decode
        initial_log_prob fuel this prompt rgbs generation_config
      = Some (Done (this', decoded)) ->
      kv_cache_len (m_language this') = 0 /\
      (exists mask,
          tensors (m_language this') !! "attention_mask" = Some mask /\
          shape mask = [1; 0] /\ data mask = []) /\
      (forall (embedder : InputsEmbedder) (inputs_embeds : Tensor)
              (to_remove_from_hist : Z) (turn : TurnInputs),
          turn_inputs get_tokenized_history get_pad_token_id
            (trim_kv_cache (m_language this') to_remove_from_hist)
            embedder inputs_embeds to_remove_from_hist = Done turn ->
          history_size turn = to_size_t (0 - to_remove_from_hist))) /\
  (forall (embedder : InputsEmbedder) (inputs_embeds : Tensor) (turn : TurnInputs)
          (ret : @Returned score request_info)
          (decoded : @VLMDecodedResults score Text)
          (best_tokens : list Z) (mask : Tensor) (mask_len : Z),
      let config :=
        if eos_token_id generation_config =? -1
        then {| num_return_sequences := num_return_sequences generation_config;
                is_beam_search := is_beam_search generation_config;
                rng_seed := rng_seed generation_config;
                eos_token_id := eos_token_id (m_generation_config this) |}
        else generation_config in
      let to_remove_from_hist := get_num_tokens_to_remove_from_hist embedder in
      let sampler :=
        if get_seed (m_sampler this) =? rng_seed config
        then m_sampler this
        else set_seed (m_sampler this) (rng_seed config) in
      validate config = true ->
      get_inputs_embeds (m_inputs_embedder this) prompt rgbs = (embedder, inputs_embeds) ->
      turn_inputs get_tokenized_history get_pad_token_id
        (trim_kv_cache (m_language this) to_remove_from_hist)
        embedder inputs_embeds to_remove_from_hist = Done turn ->
      get_lm_encoded_results infer sample get_beam_idxs get_beam_search_score stale
        fuel (trim_kv_cache (m_language this) to_remove_from_hist) inputs_embeds
        (new_atten_mask turn) sampler
        [new_sequence_group initial_log_prob 0 (data (prompt_ids turn)) config]
        (Some (position_ids turn)) (Some embedding_infer)
      = Some (Done ret) ->
      decode_results decode (results ret) = Done decoded ->
      vector_index (tokens (results ret)) 0 = Done best_tokens ->
      tensors (llm_after ret) !! "attention_mask" = Some mask ->
      vector_index (shape mask) 1 = Done mask_len ->
      exists this' : @VLMPipelineImpl request_info InputsEmbedder,
        generate infer sample get_beam_idxs get_beam_search_score stale validate
          get_inputs_embeds get_num_tokens_to_remove_from_hist get_tokenized_history
          update_tokenized_history embedding_infer get_pad_token_id decode
          initial_log_prob fuel this prompt rgbs generation_config
        = Some (Done (this', decoded)) /\
        m_language this'
        = {| tensors := <["attention_mask" := {| shape := [1; 0]; data := [] |}]>
                          (tensors (llm_after ret));
             kv_cache_len := 0 |}).
Proof.
  split.
  - intros this' decoded. unfold generate. intros H.
    destruct (negb (validate _)); [done|].
    destruct (get_inputs_embeds _ _ _) as [embedder0 inputs_embeds0].
    destruct (turn_inputs _ _ _ _ _ _) as [turn0| |]; try done.
    destruct (get_lm_encoded_results _ _ _ _ _ _ _ _ _ _ _ _ _) as [[ret| |]|];
      try done.
    injection H as H.
    destruct (decode_results _ _) as [decoded0| |]; simpl in H; try done.
    destruct (vector_index (tokens (results ret)) 0) as [best| |]; simpl in H; try done.
    destruct (get_tensor (llm_after ret) "attention_mask") as [mask_after| |];
      simpl in H; try done.
    destruct (vector_index (shape mask_after) 1) as [len_after| |]; simpl in H; try done.
    destruct (reset_after_turn stale (llm_after ret)) as [engine| |] eqn:Hreset;
      simpl in H; try done.
    injection H as <- <-. simpl.
    apply reset_after_turn_clears in Hreset as (Hkv & mask & Hmask & Hshape & Hdata).
    split; [done|]. split; [eauto|].
    intros embedder inputs_embeds rm turn.
    unfold turn_inputs, get_tensor. rewrite trim_kv_cache_tensors, Hmask. simpl.
    rewrite Hshape. simpl.
    destruct (shape_at (shape inputs_embeds) 1); simpl; try done.
    destruct (store_range _ _ _); simpl; try done.
    now intros [= <-].
  - intros embedder inputs_embeds turn ret decoded best_tokens mask mask_len
           config to_remove_from_hist sampler
           Hvalid Hembeds Hturn Hloop Hdecoded Hbest Hmask Hlen.
    unfold generate. fold config. rewrite Hvalid. cbn [negb].
    rewrite Hembeds. fold to_remove_from_hist. rewrite Hturn.
    fold sampler. rewrite Hloop, Hdecoded. cbn [mbind outcome_bind].
    rewrite Hbest. cbn [mbind outcome_bind].
    unfold get_tensor at 1. rewrite Hmask. cbn [mbind outcome_bind].
    rewrite Hlen. cbn [mbind outcome_bind].
    rewrite (reset_after_turn_done _ mask Hmask). cbn [mbind outcome_bind].
    eexists. split; reflexivity.
Qed.

End Turn.



(** A whole turn over an engine whose cache grows with every call: the
    engine that comes back has an empty cache and an empty (1, 0) mask. *)
Lemma generate_resets_engine_witness :
  exists (this' : @VLMPipelineImpl unit (list Z))
         (decoded : @VLMDecodedResults Z (list Z)),
    caching_generate 1 toy_pipeline = Some (Done (this', decoded)) /\
    kv_cache_len (m_language this') = 0 /\
    (exists mask,
        tensors (m_language this') !! "attention_mask" = Some mask /\
        shape mask = [1; 0] /\ data mask = []) /\
    (forall (embedder : list Z) (inputs_embeds : Tensor)
            (to_remove_from_hist : Z) (turn : TurnInputs),
        turn_inputs (fun h : list Z => h) 0
          (trim_kv_cache (m_language this') to_remove_from_hist)
          embedder inputs_embeds to_remove_from_hist = Done turn ->
        history_size turn = to_size_t (0 - to_remove_from_hist)).
Proof.
  pose (run := caching_generate 1 toy_pipeline).
  assert (Hrun : exists this' decoded, run = Some (Done (this', decoded))).
  { vm_compute. eauto. }
  destruct Hrun as (this' & decoded & Hrun).
  exists this', decoded. split; [exact Hrun|].
  unfold run, caching_generate in Hrun.
  eapply (proj1 (generate_resets_engine _ _ _ _ _ _ _ _ _ _ _ _ _ _ _ _ _ _ _)).
  exact Hrun.
Defined.

End FacadeFacts.

(** ** Loops *)

Module LoopFacts.

Lemma for_loop_no_throw {St : Type} (body : nat -> St -> outcome St)
    (e : Exception) (n lo : nat) (s : St) :
  (forall i s', (lo <= i < lo + n)%nat -> body i s' <> Throws e) ->
  for_loop lo n body s <> Throws e.
Proof.
  revert lo s. induction n as [|n IH]; intros lo s Hbody; [done|].
  cbn [for_loop].
  pose proof (Hbody lo s ltac:(lia)) as Hstep.
  destruct (body lo s) as [s'|e'|]; simpl; [|congruence|done].
  apply IH. intros i s'' Hi. apply Hbody. lia.
Qed.

Lemma for_loop_split {St : Type} (body : nat -> St -> outcome St)
    (n m lo : nat) (s : St) :
  for_loop lo (n + m) body s
  = (s' ← for_loop lo n body s ; for_loop (lo + n) m body s').
Proof.
  revert lo s. induction n as [|n IH]; intros lo s.
  - simpl. now rewrite Nat.add_0_r.
  - cbn [Nat.add for_loop].
    destruct (body lo s) as [s'|e|]; simpl; [|done|done].
    rewrite IH. now replace (S lo + n)%nat with (lo + S n)%nat by lia.
Qed.

Lemma for_each_app {A St : Type} (body : A -> St -> outcome St)
    (xs ys : list A) (s : St) :
  for_each (xs ++ ys) body s = (s' ← for_each xs body s ; for_each ys body s').
Proof.
  revert s. induction xs as [|x xs IH]; intros s; [done|].
  cbn [app for_each]. destruct (body x s); simpl; [apply IH|done|done].
Qed.

Lemma bind_done {A B : Type} (m : outcome A) (k : A -> outcome B) (b : B) :
  (m ≫= k) = Done b -> exists a, m = Done a /\ k a = Done b.
Proof. destruct m as [a| |]; simpl; [eauto|done|done]. Qed.

Lemma vector_at_lookup {A : Type} (v : list A) (i : nat) (x : A) :
  v !! i = Some x -> vector_at v i = Done x.
Proof. intros H. unfold vector_at. now rewrite H. Qed.

Lemma vector_at_beyond {A : Type} (v : list A) (i : nat) :
  (length v <= i)%nat -> vector_at v i = Throws std_out_of_range.
Proof. intros H. unfold vector_at. now rewrite lookup_ge_None_2. Qed.

End LoopFacts.
Import LoopFacts.

(** ** Beam State Updater: edges and composition *)

Module BeamStateMore.
Import BeamState BeamStateFacts.

(** *** The [int] accumulator *)

Lemma to_int32_add_l (a w : Z) : to_int32 (to_int32 a + w) = to_int32 (a + w).
Proof.
  unfold to_int32.
  replace ((a + 2 ^ 31) mod 2 ^ 32 - 2 ^ 31 + w + 2 ^ 31)
    with ((a + 2 ^ 31) mod 2 ^ 32 + w) by lia.
  rewrite Zplus_mod_idemp_l. do 2 f_equal. lia.
Qed.

Lemma accumulate_from_sum (words : list Z) (acc : Z) :
  fold_left (fun a w => to_int32 (a + w)) words (to_int32 acc)
  = to_int32 (acc + word_sum words).
Proof.
  revert acc. induction words as [|w words IH]; intros acc; simpl.
  - now rewrite Z.add_0_r.
  - rewrite to_int32_add_l, IH. f_equal. lia.
Qed.

Lemma accumulate_int_sum (words : list Z) :
  accumulate_int words = to_int32 (word_sum words).
Proof.
  unfold accumulate_int.
  change 0 with (to_int32 0) at 1. now rewrite accumulate_from_sum.
Qed.

Section AnyWords.

Variables (attention_mask : Tensor) (R C : Z).
Hypothesis Hmask : matrix attention_mask R C.
Hypothesis Hcols : 1 <= C.

Local Abbreviation narrowed r :=
  (to_int32 (word_sum (take (Z.to_nat (C - 1))
                            (row_words attention_mask C (Z.of_nat r))))).

Lemma position_of_row_sum (lo : nat) (done rest : list Z) :
  Z.of_nat lo < R ->
  length done = lo ->
  (1 <= length rest)%nat ->
  position_of_row attention_mask C lo (done ++ rest)
  = Done ((done ++ [narrowed lo]) ++ drop 1 rest).
Proof.
  intros Hlo Hdone Hrest.
  destruct Hmask as (Hshape & HR & HC & Hlen & Hsz & HCmod).
  unfold sizeof_int64 in *.
  unfold position_of_row.
  rewrite (to_size_t_small (Z.of_nat lo * C)) by (unfold SIZE_MOD in *; nia).
  rewrite (to_size_t_small (C - 1)) by lia.
  rewrite load_range_row by nia. simpl.
  rewrite store_app by (done || lia).
  rewrite <- app_assoc. simpl. do 2 f_equal.
  rewrite accumulate_int_sum.
  unfold row_words. rewrite take_take. do 3 f_equal.
  rewrite Nat.min_l by lia. done.
Qed.

Lemma position_sum_loop (n lo : nat) (done rest : list Z) :
  Z.of_nat (lo + n) = R ->
  length done = lo ->
  length rest = n ->
  for_loop lo n (position_of_row attention_mask C) (done ++ rest)
  = Done (done ++ map (fun r => narrowed r) (seq lo n)).
Proof.
  revert lo done rest.
  induction n as [|n IH]; intros lo done rest HR Hdone Hrest.
  - destruct rest; done.
  - cbn [for_loop]. rewrite position_of_row_sum by (done || lia). simpl.
    rewrite IH.
    + now rewrite <- app_assoc.
    + lia.
    + rewrite length_app. simpl. lia.
    + rewrite length_drop. lia.
Qed.

Lemma update_position_ids_sum_done (stale : nat -> Z) (position_ids : Tensor) :
  update_position_ids stale position_ids attention_mask
  = Done {| shape := [R; 1];
            data := map (fun r => narrowed r) (seq 0 (Z.to_nat R)) |}.
Proof.
  pose proof Hmask as (Hshape & HR & HC & Hlen & Hsz & HCmod).
  unfold update_position_ids. rewrite Hshape. simpl.
  set (fresh := map stale _).
  pose proof (position_sum_loop (Z.to_nat R) 0 [] fresh) as Hloop.
  simpl in Hloop. rewrite Hloop; try done.
  - lia.
  - unfold fresh. rewrite length_map, length_seq. unfold shape_size. simpl. lia.
Qed.

End AnyWords.



Lemma position_of_row_no_columns (attention_mask : Tensor) (i : nat) (buf : list Z) :
  Z.of_nat (length (data attention_mask)) < SIZE_MOD - 1 ->
  position_of_row attention_mask 0 i buf = Undefined.
Proof.
  intros Hlen. unfold position_of_row, load_range.
  rewrite in_range_false; [done|].
  rewrite Z.mul_0_r.
  change (to_size_t 0) with 0.
  replace (to_size_t (0 - 1)) with (SIZE_MOD - 1) by (vm_compute; reflexivity).
  lia.
Qed.

(** X2.  A mask without columns: with at least one row the bound of
    [std::accumulate], [mask_start + sequence_length - 1], lies before its
    start and the read leaves the buffer; nothing is thrown.  Without rows
    the loop does not run and the result is the empty (R, 1) tensor. *)
Theorem update_position_ids_no_columns (stale : nat -> Z)
    (position_ids attention_mask : Tensor) (R : Z) :
  shape attention_mask = [R; 0] ->
  Z.of_nat (length (data attention_mask)) < SIZE_MOD - 1 ->
  update_position_ids stale position_ids attention_mask
  = if 1 <=? R then Undefined else Done {| shape := [R; 1]; data := [] |}.
Proof.
  intros Hshape Hlen. unfold update_position_ids. rewrite Hshape. simpl.
  destruct (1 <=? R) eqn:E.
  - apply Z.leb_le in E.
    destruct (Z.to_nat R) as [|n] eqn:Hn; [lia|].
    cbn [for_loop]. now rewrite position_of_row_no_columns.
  - apply Z.leb_gt in E.
    replace (Z.to_nat R) with 0%nat by lia.
    unfold set_shape, shape_size. simpl.
    replace (Z.to_nat (R * (1 * 1))) with 0%nat by lia. done.
Qed.

Lemma update_position_ids_no_columns_witness :
  update_position_ids (fun _ => 0) (mkTensor [] []) (mkTensor [2; 0] [])
  = Undefined.
Proof.
  apply (update_position_ids_no_columns (fun _ => 0) (mkTensor [] [])
           (mkTensor [2; 0] []) 2).
  - reflexivity.
  - unfold SIZE_MOD. simpl. lia.
Defined.

(** *** What is thrown *)

Lemma position_of_row_no_throw (attention_mask : Tensor) (c : Z) (i : nat)
    (buf : list Z) (e : Exception) :
  position_of_row attention_mask c i buf <> Throws e.
Proof.
  unfold position_of_row, load_range.
  destruct (in_range _ _ _); simpl; [|done].
  unfold store, store_range. destruct (in_range _ _ _); done.
Qed.

Lemma copy_beam_never_throws (original : Tensor) (oshape nshape next_beams : list Z)
    (c nc : Z) (i : nat) (buf : list Z) (e : Exception) :
  oshape !! 1%nat = Some c ->
  nshape !! 1%nat = Some nc ->
  (i < length next_beams)%nat ->
  copy_beam original oshape nshape next_beams i buf <> Throws e.
Proof.
  intros Ho Hn Hi.
  destruct (lookup_lt_is_Some_2 next_beams i) as [b Hb]; [lia|].
  unfold copy_beam, vector_at, shape_at. rewrite Hb, Ho, Hn. simpl.
  unfold load_range. destruct (in_range _ _ _); simpl; [|done].
  unfold store_range at 1. destruct (in_range _ _ _); simpl; [|done].
  unfold store, store_range. destruct (in_range _ _ _); simpl; done.
Qed.

(** X3.  The only exception either updater throws is the [std::out_of_range]
    of [Shape::at], and it throws it exactly when the mask has fewer than two
    dimensions; no content of the mask or of [next_beams] makes it throw. *)
Theorem updaters_throw_on_rank (stale : nat -> Z)
    (position_ids attention_mask : Tensor) (next_beams : list Z) (e : Exception) :
  (update_position_ids stale position_ids attention_mask = Throws e <->
   e = std_out_of_range /\ (length (shape attention_mask) < 2)%nat) /\
  (update_attention_mask_with_beams stale attention_mask next_beams = Throws e <->
   e = std_out_of_range /\ (length (shape attention_mask) < 2)%nat).
Proof.
  split.
  - unfold update_position_ids.
    destruct (shape attention_mask) as [|r [|c s]] eqn:Hshape; simpl.
    + split; [intros [= <-]; split; [done|lia] | intros [-> _]; done].
    + split; [intros [= <-]; split; [done|lia] | intros [-> _]; done].
    + split; [|lia].
      intros H. exfalso.
      match type of H with
      | context [for_loop 0 ?n ?body ?buf] =>
          pose proof (for_loop_no_throw body e n 0 buf
                        (fun i s _ => position_of_row_no_throw _ _ i s e)) as Hl;
          destruct (for_loop 0 n body buf)
      end; simpl in H; congruence.
  - unfold update_attention_mask_with_beams.
    destruct (shape attention_mask) as [|r [|c s]] eqn:Hshape; simpl.
    + split; [intros [= <-]; split; [done|lia] | intros [-> _]; done].
    + split; [intros [= <-]; split; [done|lia] | intros [-> _]; done].
    + split; [|lia].
      intros H. exfalso.
      match type of H with
      | context [for_loop 0 ?n ?body ?buf] =>
          assert (Hl : for_loop 0 n body buf <> Throws e)
            by (apply for_loop_no_throw; intros i s' Hi;
                eapply copy_beam_never_throws; [reflexivity|reflexivity|lia]);
          destruct (for_loop 0 n body buf)
      end; simpl in H; congruence.
Qed.

(** *** When the copy completes *)

Lemma first_failure (ok : Z -> Prop) (l : list Z) :
  (forall b, Decision (ok b)) ->
  ~ Forall ok l ->
  exists good b rest, l = good ++ b :: rest /\ Forall ok good /\ ~ ok b.
Proof.
  intros Hdec. induction l as [|x l IH]; intros Hnot.
  - exfalso. apply Hnot. constructor.
  - destruct (Hdec x) as [Hx|Hx].
    + destruct IH as (good & b & rest & -> & Hgood & Hb).
      { intros Hl. apply Hnot. now constructor. }
      exists (x :: good), b, rest. repeat split; [now constructor|done].
    + exists [], x, l. repeat split; [constructor|done].
Qed.

Section Completion.

Variables (attention_mask : Tensor) (next_beams : list Z) (P C : Z).
Hypothesis Hmask : matrix attention_mask P C.
Hypothesis Hcols : 1 <= C < 2 ^ 32.
Hypothesis Hfits :
  sizeof_int64 * (Z.of_nat (length next_beams) * (C + 1)) < SIZE_MOD.

Lemma copy_beam_prefix (n lo : nat) (done rest : list Z) :
  (lo + n <= length next_beams)%nat ->
  (forall i b, (lo <= i < lo + n)%nat -> next_beams !! i = Some b -> 0 <= b < P) ->
  length done = (lo * Z.to_nat (C + 1))%nat ->
  (n * Z.to_nat (C + 1) <= length rest)%nat ->
  for_loop lo n
    (copy_beam {| shape := [P; C]; data := data attention_mask |} [P; C]
               [Z.of_nat (length next_beams); to_size_t (C + 1)] next_beams)
    (done ++ rest)
  = Done ((done ++ flat_map (extended_row attention_mask C) (take n (drop lo next_beams)))
          ++ drop (n * Z.to_nat (C + 1)) rest).
Proof.
  assert (HC1 : C + 1 < SIZE_MOD) by (unfold SIZE_MOD; lia).
  revert lo done rest.
  induction n as [|n IH]; intros lo done rest HN Hvalid Hdone Hrest.
  - simpl. now rewrite app_nil_r.
  - destruct (lookup_lt_is_Some_2 next_beams lo) as [b Hb]; [lia|].
    assert (Hin : 0 <= b < P) by (apply (Hvalid lo); [lia|done]).
    cbn [for_loop].
    rewrite (copy_beam_step attention_mask next_beams P C Hmask HC1 Hfits lo b)
      by (done || lia).
    cbn [mbind outcome_bind].
    rewrite IH.
    + rewrite (drop_S _ _ _ Hb). cbn [take flat_map].
      rewrite drop_drop, <- !app_assoc. do 3 f_equal.
    + lia.
    + intros i b' Hi. apply Hvalid. lia.
    + rewrite length_app, (length_extended _ P C Hmask) by done. lia.
    + rewrite length_drop. revert Hrest. generalize (Z.to_nat (C + 1)). lia.
Qed.

Lemma copy_beam_out_of_range (lo : nat) (b : Z) (buf : list Z) :
  next_beams !! lo = Some b ->
  - 2 ^ 31 <= b < 2 ^ 31 ->
  ~ (0 <= b < P) ->
  copy_beam {| shape := [P; C]; data := data attention_mask |} [P; C]
            [Z.of_nat (length next_beams); to_size_t (C + 1)] next_beams lo buf
  = Undefined.
Proof.
  intros Hb Hint Hout.
  destruct Hmask as (Hshape & HP & HC & Hlen & Hsz & HCmod).
  unfold sizeof_int64, SIZE_MOD in *.
  unfold copy_beam, vector_at. rewrite Hb. simpl.
  unfold sizeof_int64.
  rewrite (to_size_t_small (C * 8)) by (unfold SIZE_MOD; lia).
  rewrite Z.div_mul by lia.
  unfold load_range. rewrite in_range_false; [done|]. simpl.
  destruct (Z_lt_dec b 0) as [Hneg|Hnn].
  - replace (to_size_t (to_size_t b * C)) with (2 ^ 64 + b * C); [nia|].
    unfold to_size_t, SIZE_MOD.
    rewrite Zmult_mod_idemp_l.
    apply (Z.mod_unique_pos _ _ (-1)); nia.
  - rewrite (to_size_t_small b) by (unfold SIZE_MOD; lia).
    rewrite to_size_t_small by (unfold SIZE_MOD; nia). nia.
Qed.

Lemma update_undefined_on_first_failure (stale : nat -> Z)
    (good rest : list Z) (b : Z) :
  next_beams = good ++ b :: rest ->
  Forall (fun b => 0 <= b < P) good ->
  - 2 ^ 31 <= b < 2 ^ 31 ->
  ~ (0 <= b < P) ->
  update_attention_mask_with_beams stale attention_mask next_beams = Undefined.
Proof.
  intros Hsplit Hgood Hint Hout.
  pose proof Hmask as (Hshape & HP & HC & Hlen & Hsz & HCmod).
  assert (HN : length next_beams = (length good + S (length rest))%nat).
  { rewrite Hsplit, length_app. simpl. lia. }
  unfold update_attention_mask_with_beams. simpl. rewrite Hshape. simpl.
  set (fresh := map stale _).
  assert (Hfresh : length fresh
                   = (length next_beams * Z.to_nat (C + 1))%nat).
  { unfold fresh. rewrite length_map, length_seq. unfold shape_size. simpl.
    rewrite to_size_t_small by (unfold SIZE_MOD; lia). nia. }
  clearbody fresh.
  match goal with
  | |- context [for_loop 0 ?n ?body ?buf] =>
      replace (for_loop 0 n body buf)
        with (for_loop 0 (length good + S (length rest)) body buf)
        by (now rewrite <- HN)
  end.
  rewrite for_loop_split.
  pose proof (copy_beam_prefix (length good) 0 [] fresh) as Hpre.
  simpl in Hpre. rewrite Hpre; clear Hpre.
  - cbn [mbind outcome_bind for_loop Nat.add].
    rewrite copy_beam_out_of_range with (b := b); try done.
    rewrite Hsplit. rewrite lookup_app_r by lia.
    now rewrite Nat.sub_diag.
  - lia.
  - intros i b' Hi Hb'. rewrite Hsplit, lookup_app_l in Hb' by lia.
    rewrite Forall_lookup in Hgood. exact (Hgood _ _ Hb').
  - done.
  - rewrite Hfresh, HN. generalize (Z.to_nat (C + 1)). intros k. nia.
Qed.

End Completion.

(** X4.  For a well-formed mask with between 1 and 2^32 columns and
    [int32_t] beam entries, [update_attention_mask_with_beams] completes
    exactly when every entry of [next_beams] is a row of the previous mask;
    with any other entry, negative ones included, the [memcpy] source lies
    outside the copied mask and the call ends in that unchecked read. *)
Theorem update_attention_mask_with_beams_completes_iff (stale : nat -> Z)
    (attention_mask : Tensor) (next_beams : list Z) (P C : Z) :
  matrix attention_mask P C ->
  1 <= C < 2 ^ 32 ->
  Forall (fun b => - 2 ^ 31 <= b < 2 ^ 31) next_beams ->
  sizeof_int64 * (Z.of_nat (length next_beams) * (C + 1)) < SIZE_MOD ->
  ((exists result,
       update_attention_mask_with_beams stale attention_mask next_beams
       = Done result)
   <-> Forall (fun b => 0 <= b < P) next_beams) /\
  (~ Forall (fun b => 0 <= b < P) next_beams ->
   update_attention_mask_with_beams stale attention_mask next_beams = Undefined).
Proof.
  intros Hmask Hcols Hint Hfits.
  assert (Hbad : ~ Forall (fun b => 0 <= b < P) next_beams ->
            update_attention_mask_with_beams stale attention_mask next_beams
            = Undefined).
  { intros Hnot.
    destruct (first_failure (fun b => 0 <= b < P) next_beams)
      as (good & b & rest & Hsplit & Hgood & Hb); [intros b; apply _|done|].
    apply (update_undefined_on_first_failure attention_mask next_beams P C
             Hmask Hcols Hfits stale good rest b); try done.
    rewrite Forall_forall in Hint. apply Hint. rewrite Hsplit.
    apply list_elem_of_In, in_or_app. right. now left. }
  split; [split|exact Hbad].
  - intros [result Hdone].
    destruct (decide (Forall (fun b => 0 <= b < P) next_beams)) as [H|H]; [done|].
    rewrite (Hbad H) in Hdone. done.
  - intros Hvalid. eexists.
    apply (update_attention_mask_with_beams_done _ _ P C Hmask); try done.
    unfold SIZE_MOD. lia.
Qed.

Lemma update_attention_mask_with_beams_completes_iff_witness :
  ((exists result,
       update_attention_mask_with_beams (fun _ => 0)
         (mkTensor [2; 2] [1; 0; 1; 1]) [1; -1; 0]
       = Done result)
   <-> Forall (fun b => 0 <= b < 2) [1; -1; 0]) /\
  (~ Forall (fun b => 0 <= b < 2) [1; -1; 0] ->
   update_attention_mask_with_beams (fun _ => 0)
     (mkTensor [2; 2] [1; 0; 1; 1]) [1; -1; 0] = Undefined).
Proof.
  apply (update_attention_mask_with_beams_completes_iff (fun _ => 0)
           (mkTensor [2; 2] [1; 0; 1; 1]) [1; -1; 0] 2 2).
  - unfold matrix, sizeof_int64, SIZE_MOD. simpl. repeat split; lia.
  - lia.
  - repeat constructor; lia.
  - unfold sizeof_int64, SIZE_MOD. simpl. lia.
Defined.

(** *** A mask without columns *)

Section NoColumns.

Variables (attention_mask : Tensor) (next_beams : list Z) (P : Z).
Hypothesis Hfits : sizeof_int64 * (Z.of_nat (length next_beams) * 1) < SIZE_MOD.

(** Nothing is copied: the source range is empty wherever it starts. *)
Lemma copy_beam_no_columns (lo : nat) (b : Z) (done rest : list Z) :
  next_beams !! lo = Some b ->
  length done = lo ->
  (1 <= length rest)%nat ->
  copy_beam {| shape := [P; 0]; data := data attention_mask |} [P; 0]
            [Z.of_nat (length next_beams); to_size_t (0 + 1)] next_beams lo
            (done ++ rest)
  = Done ((done ++ [1]) ++ drop 1 rest).
Proof using Hfits.
  intros Hb Hdone Hrest.
  pose proof (lookup_lt_Some _ _ _ Hb) as HloN.
  unfold sizeof_int64, SIZE_MOD in Hfits.
  unfold copy_beam, vector_at. rewrite Hb. simpl.
  rewrite Z.mul_0_r. change (to_size_t 0) with 0.
  change (to_size_t (0 * sizeof_int64) / sizeof_int64) with 0.
  change (to_size_t (0 + 1)) with 1. rewrite Z.mul_1_r.
  rewrite load_range_row by lia. simpl.
  rewrite (to_size_t_small (Z.of_nat lo)) by (unfold SIZE_MOD; lia).
  rewrite store_range_app by (simpl; lia). simpl. rewrite drop_0.
  rewrite (to_size_t_small (Z.of_nat lo + 1)) by (unfold SIZE_MOD; lia).
  rewrite to_size_t_small by (unfold SIZE_MOD; lia).
  rewrite store_app by lia. now rewrite <- app_assoc.
Qed.

Lemma copy_beam_loop_no_columns (n lo : nat) (done rest : list Z) :
  (lo + n = length next_beams)%nat ->
  length done = lo ->
  length rest = n ->
  for_loop lo n
    (copy_beam {| shape := [P; 0]; data := data attention_mask |} [P; 0]
               [Z.of_nat (length next_beams); to_size_t (0 + 1)] next_beams)
    (done ++ rest)
  = Done (done ++ repeat 1 n).
Proof using Hfits.
  revert lo done rest.
  induction n as [|n IH]; intros lo done rest HN Hdone Hrest.
  - destruct rest; [|done]. done.
  - destruct (lookup_lt_is_Some_2 next_beams lo) as [b Hb]; [lia|].
    cbn [for_loop]. rewrite (copy_beam_no_columns lo b) by (done || lia).
    cbn [mbind outcome_bind]. rewrite IH.
    + now rewrite <- app_assoc.
    + lia.
    + rewrite length_app. simpl. lia.
    + rewrite length_drop. lia.
Qed.

Lemma update_attention_mask_with_beams_no_columns (stale : nat -> Z) :
  shape attention_mask = [P; 0] ->
  update_attention_mask_with_beams stale attention_mask next_beams
  = Done {| shape := [Z.of_nat (length next_beams); 1];
            data := repeat 1 (length next_beams) |}.
Proof using Hfits.
  intros Hshape.
  unfold update_attention_mask_with_beams. simpl. rewrite Hshape. simpl.
  set (fresh := map stale _).
  pose proof (copy_beam_loop_no_columns (length next_beams) 0 [] fresh) as Hloop.
  simpl in Hloop. rewrite Hloop; try done.
  unfold fresh. rewrite length_map, length_seq.
  change (to_size_t (0 + 1) * 1) with 1. lia.
Qed.

End NoColumns.

(** *** No entry is checked *)

Lemma update_undefined_out_of_range (stale : nat -> Z)
    (attention_mask : Tensor) (next_beams : list Z) (P C : Z) :
  matrix attention_mask P C ->
  1 <= C < 2 ^ 32 ->
  sizeof_int64 * (Z.of_nat (length next_beams) * (C + 1)) < SIZE_MOD ->
  Forall (fun b => - 2 ^ 31 <= b < 2 ^ 31) next_beams ->
  ~ Forall (fun b => 0 <= b < P) next_beams ->
  update_attention_mask_with_beams stale attention_mask next_beams = Undefined.
Proof.
  intros Hmask Hcols Hfits Hint Hnot.
  destruct (first_failure (fun b => 0 <= b < P) next_beams)
    as (good & b & rest & Hsplit & Hgood & Hb); [intros b; apply _|done|].
  apply (update_undefined_on_first_failure attention_mask next_beams P C
           Hmask Hcols Hfits stale good rest b); try done.
  rewrite Forall_forall in Hint. apply Hint. rewrite Hsplit.
  apply list_elem_of_In, in_or_app. right. now left.
Qed.

(** C8, amended.  [update_attention_mask_with_beams] never compares an entry
    of [next_beams] with the previous row count and, on a two-dimensional
    mask, never throws: keeping the entries in range is the caller's duty.
    When every entry is in range the call completes, with no access outside
    either buffer.  When the mask has at least one column (and fewer than
    2^32) an entry out of range, negative ones included, makes the [memcpy]
    read outside the previous mask's buffer; when it has no column nothing
    is copied and the call completes whatever the entries are. *)
Theorem update_attention_mask_with_beams_unchecked
    (attention_mask : Tensor) (next_beams : list Z) (P C : Z) (stale : nat -> Z) :
  shape attention_mask = [P; C] ->
  (forall e,
      update_attention_mask_with_beams stale attention_mask next_beams
      <> Throws e) /\
  (matrix attention_mask P C ->
   Forall (fun b => 0 <= b < P) next_beams ->
   C + 1 < SIZE_MOD ->
   sizeof_int64 * (Z.of_nat (length next_beams) * (C + 1)) < SIZE_MOD ->
   exists result,
     update_attention_mask_with_beams stale attention_mask next_beams
     = Done result /\
     shape result = [Z.of_nat (length next_beams); C + 1]) /\
  (matrix attention_mask P C ->
   1 <= C < 2 ^ 32 ->
   Forall (fun b => - 2 ^ 31 <= b < 2 ^ 31) next_beams ->
   sizeof_int64 * (Z.of_nat (length next_beams) * (C + 1)) < SIZE_MOD ->
   ~ Forall (fun b => 0 <= b < P) next_beams ->
   update_attention_mask_with_beams stale attention_mask next_beams = Undefined) /\
  (C = 0 ->
   sizeof_int64 * (Z.of_nat (length next_beams) * 1) < SIZE_MOD ->
   update_attention_mask_with_beams stale attention_mask next_beams
   = Done {| shape := [Z.of_nat (length next_beams); 1];
             data := repeat 1 (length next_beams) |}).
Proof.
  intros Hshape. split; [|split; [|split]].
  - intros e. now apply (update_attention_mask_with_beams_no_throw _ _ P C).
  - intros Hmask Hvalid Hcols Hfits. eexists.
    rewrite (update_attention_mask_with_beams_done _ _ P C Hmask Hcols Hfits stale Hvalid).
    done.
  - intros Hmask Hcols Hint Hfits Hnot.
    now apply (update_undefined_out_of_range stale attention_mask next_beams P C).
  - intros -> Hfits.
    now apply (update_attention_mask_with_beams_no_columns attention_mask next_beams P).
Qed.

(** A mapping in range, a mapping with the entry 5 for a mask of two rows,
    and the same mapping for a mask of two rows and no column. *)
Lemma update_attention_mask_with_beams_unchecked_witness :
  ((forall e,
       update_attention_mask_with_beams (fun _ => 0)
         (mkTensor [3; 2] [1; 0; 1; 1; 0; 0]) [1; 1; 0]
       <> Throws e) /\
   exists result,
     update_attention_mask_with_beams (fun _ => 0)
       (mkTensor [3; 2] [1; 0; 1; 1; 0; 0]) [1; 1; 0]
     = Done result /\
     shape result = [3; 3]) /\
  update_attention_mask_with_beams (fun _ => 0) (mkTensor [2; 2] [1; 0; 1; 1]) [1; 5]
  = Undefined /\
  update_attention_mask_with_beams (fun _ => 0) (mkTensor [2; 0] []) [1; 5]
  = Done (mkTensor [2; 1] [1; 1]).
Proof.
  split; [|split].
  - destruct (update_attention_mask_with_beams_unchecked
                (mkTensor [3; 2] [1; 0; 1; 1; 0; 0]) [1; 1; 0] 3 2 (fun _ => 0)
                eq_refl) as (Hno & Hdone & _).
    split; [exact Hno|].
    apply Hdone.
    + unfold matrix, sizeof_int64, SIZE_MOD. simpl. repeat split; lia.
    + repeat constructor; lia.
    + unfold SIZE_MOD. lia.
    + unfold sizeof_int64, SIZE_MOD. simpl. lia.
  - destruct (update_attention_mask_with_beams_unchecked
                (mkTensor [2; 2] [1; 0; 1; 1]) [1; 5] 2 2 (fun _ => 0)
                eq_refl) as (_ & _ & Hout & _).
    apply Hout.
    + unfold matrix, sizeof_int64, SIZE_MOD. simpl. repeat split; lia.
    + lia.
    + repeat constructor; lia.
    + unfold sizeof_int64, SIZE_MOD. simpl. lia.
    + intros Hall. inversion Hall as [|? ? _ Hrest]; subst.
      inversion Hrest as [|? ? H5 _]; subst. lia.
  - destruct (update_attention_mask_with_beams_unchecked
                (mkTensor [2; 0] []) [1; 5] 2 0 (fun _ => 0)
                eq_refl) as (_ & _ & _ & Hnone).
    apply Hnone; [reflexivity|].
    unfold sizeof_int64, SIZE_MOD. simpl. lia.
Defined.

(** *** The two updaters in sequence *)

Lemma Forall_row_words (ok : Z -> Prop) (t : Tensor) (cols r : Z) :
  Forall ok (data t) -> Forall ok (row_words t cols r).
Proof. intros H. unfold row_words. now apply Forall_take, Forall_drop. Qed.

Lemma Forall_extended_rows (ok : Z -> Prop) (t : Tensor) (cols : Z) (beams : list Z) :
  ok 1 ->
  Forall ok (data t) ->
  Forall ok (flat_map (extended_row t cols) beams).
Proof.
  intros H1 H. induction beams as [|b beams IH]; simpl; [constructor|].
  apply Forall_app. split; [|done].
  unfold extended_row. apply Forall_app. split.
  - now apply Forall_row_words.
  - now repeat constructor.
Qed.

Lemma count_ones_all_ones (words : list Z) :
  all_ones words -> count_ones words = Z.of_nat (length words).
Proof.
  unfold all_ones, count_ones. induction 1 as [|w words -> _ IH]; simpl; [done|].
  lia.
Qed.

Section Sequence.

Variables (attention_mask : Tensor) (next_beams : list Z) (P C : Z).
Hypothesis Hmask : matrix attention_mask P C.
Hypothesis Hvalid : Forall (fun b => 0 <= b < P) next_beams.
Hypothesis Hint : C <= INT_MAX.
Hypothesis Hfits :
  sizeof_int64 * (Z.of_nat (length next_beams) * (C + 1)) < SIZE_MOD.

Local Abbreviation updated :=
  {| shape := [Z.of_nat (length next_beams); C + 1];
     data := flat_map (extended_row attention_mask C) next_beams |}.

Lemma updated_matrix : matrix updated (Z.of_nat (length next_beams)) (C + 1).
Proof using Hmask Hvalid Hint Hfits.
  pose proof Hmask as (Hshape & HP & HC & Hlen & Hsz & HCmod).
  unfold matrix. cbn [shape data]. repeat split; try lia.
  - rewrite (length_flat_map_const _ (Z.to_nat (C + 1))); [nia|].
    intros b Hb. apply (length_extended _ P C Hmask).
    rewrite Forall_forall in Hvalid. now apply Hvalid.
  - unfold INT_MAX, SIZE_MOD in *. lia.
Qed.

Lemma updated_row (r : nat) (b : Z) :
  next_beams !! r = Some b ->
  row_words updated (C + 1) (Z.of_nat r) = extended_row attention_mask C b.
Proof using Hmask Hvalid.
  clear Hint Hfits.
  pose proof Hmask as (Hshape & HP & HC & Hlen & Hsz & HCmod).
  intros Hb. unfold row_words. cbn [data].
  replace (Z.to_nat (Z.of_nat r * (C + 1))) with (r * Z.to_nat (C + 1))%nat by nia.
  apply chunk_flat_map; [|done].
  intros b' Hb'. apply (length_extended _ P C Hmask).
  rewrite Forall_forall in Hvalid. now apply Hvalid.
Qed.

End Sequence.

Lemma position_ids_after_beam_update_core (attention_mask : Tensor)
    (next_beams : list Z) (P C : Z) :
  matrix attention_mask P C ->
  Forall (fun b => 0 <= b < P) next_beams ->
  binary (data attention_mask) ->
  C <= INT_MAX ->
  sizeof_int64 * (Z.of_nat (length next_beams) * (C + 1)) < SIZE_MOD ->
  exists positions,
    (forall stale position_ids,
        update_position_ids stale position_ids
          {| shape := [Z.of_nat (length next_beams); C + 1];
             data := flat_map (extended_row attention_mask C) next_beams |}
        = Done positions) /\
    shape positions = [Z.of_nat (length next_beams); 1] /\
    forall (r : nat) (b : Z),
      next_beams !! r = Some b ->
      tensor_row positions (Z.of_nat r)
      = Some [count_ones (row_words attention_mask C b)].
Proof.
  intros Hmask Hvalid Hbin Hint Hfits.
  pose proof Hmask as (Hshape & HP & HC & Hlen & Hsz & HCmod).
  pose proof (updated_matrix attention_mask next_beams P C Hmask Hvalid Hint Hfits)
    as Hupd.
  eexists. split; [|split].
  - intros stale position_ids.
    apply (update_position_ids_done _ _ (C + 1) Hupd); [lia|lia|].
    apply Forall_extended_rows; [now right|done].
  - done.
  - intros r b Hb. pose proof (lookup_lt_Some _ _ _ Hb) as Hr.
    unfold tensor_row. cbn [shape].
    destruct (0 <=? Z.of_nat r) eqn:E1,
             (Z.of_nat r <? Z.of_nat (length next_beams)) eqn:E2;
      simpl; try lia.
    f_equal. unfold row_words at 1. cbn [data].
    rewrite Z.mul_1_r. change (Z.to_nat 1) with 1%nat.
    erewrite take_S_r.
    + rewrite take_0. simpl. reflexivity.
    + rewrite lookup_drop, Nat.add_0_r, list_lookup_fmap.
      rewrite lookup_seq_lt by lia. cbn [fmap option_fmap option_map].
      rewrite Nat.add_0_l, Nat2Z.id.
      rewrite (updated_row attention_mask next_beams P C Hmask Hvalid r b Hb).
      unfold extended_row. replace (C + 1 - 1) with C by lia.
      rewrite take_app_length'; [done|].
      unfold row_words. rewrite length_take_le; [lia|].
      rewrite length_drop.
      rewrite Forall_lookup in Hvalid. pose proof (Hvalid _ _ Hb). nia.
Qed.

(** X5.  The two updaters in sequence, as the loop runs them: for a 0/1 mask
    and a valid beam mapping, the position id of new row r is the number of
    1s in the whole previous row [next_beams[r]] (the column just appended is
    the one left out of the count). *)
Theorem position_ids_after_beam_update (attention_mask : Tensor)
    (next_beams : list Z) (P C : Z) :
  matrix attention_mask P C ->
  Forall (fun b => 0 <= b < P) next_beams ->
  binary (data attention_mask) ->
  C <= INT_MAX ->
  sizeof_int64 * (Z.of_nat (length next_beams) * (C + 1)) < SIZE_MOD ->
  exists mask positions,
    (forall stale,
        update_attention_mask_with_beams stale attention_mask next_beams = Done mask) /\
    (forall stale position_ids,
        update_position_ids stale position_ids mask = Done positions) /\
    shape positions = [Z.of_nat (length next_beams); 1] /\
    forall (r : nat) (b : Z),
      next_beams !! r = Some b ->
      tensor_row positions (Z.of_nat r)
      = Some [count_ones (row_words attention_mask C b)].
Proof.
  intros Hmask Hvalid Hbin Hint Hfits.
  destruct (position_ids_after_beam_update_core attention_mask next_beams P C
              Hmask Hvalid Hbin Hint Hfits) as (positions & Hpos & Hshape & Hrows).
  assert (HC1 : C + 1 < SIZE_MOD) by (unfold INT_MAX, SIZE_MOD in *; lia).
  do 2 eexists. split; [|split; [|split]].
  - intros stale.
    apply (update_attention_mask_with_beams_done _ _ P C Hmask HC1 Hfits stale Hvalid).
  - exact Hpos.
  - exact Hshape.
  - exact Hrows.
Qed.

Lemma position_ids_after_beam_update_witness :
  exists mask positions,
    (forall stale,
        update_attention_mask_with_beams stale
          (mkTensor [3; 2] [1; 0; 1; 1; 0; 0]) [1; 1; 0] = Done mask) /\
    (forall stale position_ids,
        update_position_ids stale position_ids mask = Done positions) /\
    shape positions = [3; 1] /\
    forall (r : nat) (b : Z),
      [1; 1; 0] !! r = Some b ->
      tensor_row positions (Z.of_nat r)
      = Some [count_ones (row_words (mkTensor [3; 2] [1; 0; 1; 1; 0; 0]) 2 b)].
Proof.
  apply (position_ids_after_beam_update
           (mkTensor [3; 2] [1; 0; 1; 1; 0; 0]) [1; 1; 0] 3 2).
  - unfold matrix, sizeof_int64, SIZE_MOD. simpl. repeat split; lia.
  - repeat constructor; lia.
  - unfold binary. repeat constructor; lia.
  - unfold INT_MAX. lia.
  - unfold sizeof_int64, SIZE_MOD. simpl. lia.
Defined.

(** X6.  A mask of all ones stays a mask of all ones under any valid beam
    mapping, forks and pruned rows included, and every position id computed
    from the new mask is then the previous column count. *)
Theorem all_ones_mask_stays_all_ones (attention_mask : Tensor)
    (next_beams : list Z) (P C : Z) :
  matrix attention_mask P C ->
  Forall (fun b => 0 <= b < P) next_beams ->
  all_ones (data attention_mask) ->
  C <= INT_MAX ->
  sizeof_int64 * (Z.of_nat (length next_beams) * (C + 1)) < SIZE_MOD ->
  exists mask positions,
    (forall stale,
        update_attention_mask_with_beams stale attention_mask next_beams = Done mask) /\
    shape mask = [Z.of_nat (length next_beams); C + 1] /\
    all_ones (data mask) /\
    (forall stale position_ids,
        update_position_ids stale position_ids mask = Done positions) /\
    forall r : nat,
      (r < length next_beams)%nat ->
      tensor_row positions (Z.of_nat r) = Some [C].
Proof.
  intros Hmask Hvalid Hones Hint Hfits.
  pose proof Hmask as (Hshape & HP & HC & Hlen & Hsz & HCmod).
  assert (Hbin : binary (data attention_mask)).
  { unfold binary. eapply Forall_impl; [exact Hones|]. intros w ->. now right. }
  destruct (position_ids_after_beam_update_core attention_mask next_beams P C
              Hmask Hvalid Hbin Hint Hfits) as (positions & Hpos & _ & Hrows).
  assert (HC1 : C + 1 < SIZE_MOD) by (unfold INT_MAX, SIZE_MOD in *; lia).
  do 2 eexists. split; [|split; [|split; [|split]]].
  - intros stale.
    apply (update_attention_mask_with_beams_done _ _ P C Hmask HC1 Hfits stale Hvalid).
  - done.
  - cbn [data]. now apply Forall_extended_rows.
  - exact Hpos.
  - intros r Hr.
    destruct (lookup_lt_is_Some_2 next_beams r Hr) as [b Hb].
    rewrite (Hrows r b Hb). do 2 f_equal.
    rewrite count_ones_all_ones by now apply Forall_row_words.
    unfold row_words. rewrite length_take_le; [lia|].
    rewrite length_drop.
    rewrite Forall_lookup in Hvalid. pose proof (Hvalid _ _ Hb). nia.
Qed.

Lemma all_ones_mask_stays_all_ones_witness :
  exists mask positions,
    (forall stale,
        update_attention_mask_with_beams stale
          (mkTensor [2; 2] [1; 1; 1; 1]) [0; 0; 1] = Done mask) /\
    shape mask = [3; 2 + 1] /\
    all_ones (data mask) /\
    (forall stale position_ids,
        update_position_ids stale position_ids mask = Done positions) /\
    forall r : nat,
      (r < 3)%nat ->
      tensor_row positions (Z.of_nat r) = Some [2].
Proof.
  apply (all_ones_mask_stays_all_ones (mkTensor [2; 2] [1; 1; 1; 1]) [0; 0; 1] 2 2).
  - unfold matrix, sizeof_int64, SIZE_MOD. simpl. repeat split; lia.
  - repeat constructor; lia.
  - unfold all_ones. repeat constructor.
  - unfold INT_MAX. lia.
  - unfold sizeof_int64, SIZE_MOD. simpl. lia.
Defined.

End BeamStateMore.

(** ** Decode Loop Orchestrator: offsets, retirement, assembly *)

Module OrchestratorMore.
Import Orchestrator Examples MoreExamples OrchestratorFacts.

Section Offsets.

Context {score : Type}.

(** *** The offsets of the prompt step *)

Local Abbreviation enter :=
  (fun (offs : gmap Z Z) (entry : nat * @SequenceGroup score) =>
     let '(i, sg) := entry in map_insert_new offs (get_request_id sg) (Z.of_nat i)).

Lemma initial_offsets_keep (l : list (@SequenceGroup score)) (f : nat -> nat)
    (offs : gmap Z Z) (k v : Z) :
  offs !! k = Some v ->
  fold_left enter (imap (fun i sg => (f i, sg)) l) offs !! k = Some v.
Proof.
  revert f offs. induction l as [|sg l IH]; intros f offs Hk; [done|].
  simpl. apply IH. unfold map_insert_new.
  destruct (offs !! get_request_id sg) eqn:E; [done|].
  rewrite lookup_insert_ne; [done|]. intros <-. congruence.
Qed.

Lemma initial_offsets_first (l : list (@SequenceGroup score)) (f : nat -> nat)
    (offs : gmap Z Z) (i : nat) (sg : @SequenceGroup score) :
  offs !! get_request_id sg = None ->
  l !! i = Some sg ->
  (forall j sg', (j < i)%nat -> l !! j = Some sg' ->
                 get_request_id sg' <> get_request_id sg) ->
  fold_left enter (imap (fun i sg => (f i, sg)) l) offs !! get_request_id sg
  = Some (Z.of_nat (f i)).
Proof.
  revert f offs i. induction l as [|sg0 l IH]; intros f offs i Hnone Hi Hfirst;
    [done|].
  simpl. destruct i as [|i].
  - injection Hi as ->. apply initial_offsets_keep.
    unfold map_insert_new. rewrite Hnone. apply lookup_insert_eq.
  - simpl in Hi.
    apply (IH (f ∘ S) _ i); [|done|].
    + unfold map_insert_new.
      destruct (offs !! get_request_id sg0) eqn:E; [done|].
      rewrite lookup_insert_ne; [done|].
      apply (Hfirst 0%nat sg0); [lia|done].
    + intros j sg' Hj Hsg'. apply (Hfirst (S j)); [lia|done].
Qed.

(** X7.  After the prompt step a group's row offset is its position in
    [sequence_groups] (one row per group), provided no earlier group has the
    same request id: [std::map::insert] keeps the first entry of a repeated
    id. *)
Theorem initial_beam_offets_positions (sequence_groups : list (@SequenceGroup score))
    (i : nat) (sg : @SequenceGroup score) :
  sequence_groups !! i = Some sg ->
  (forall j sg', (j < i)%nat -> sequence_groups !! j = Some sg' ->
                 get_request_id sg' <> get_request_id sg) ->
  initial_beam_offets sequence_groups !! get_request_id sg = Some (Z.of_nat i).
Proof.
  intros Hi Hfirst. unfold initial_beam_offets.
  apply (initial_offsets_first sequence_groups (fun i => i) ∅ i sg); try done.
Qed.

(** *** Recomputing the offsets *)

Lemma recompute_offset_frame (active : list (@SequenceGroup score)) (i : nat)
    (sg : @SequenceGroup score) (offs : gmap Z Z) :
  active !! i = Some sg ->
  exists offs' v,
    recompute_offset active i offs = Done offs' /\
    offs' !! get_request_id sg = Some v /\
    (i = 0%nat -> v = 0) /\
    forall k w, k <> get_request_id sg -> offs !! k = Some w -> offs' !! k = Some w.
Proof.
  intros Hsg. unfold recompute_offset, vector_at. rewrite Hsg. simpl.
  destruct i as [|i'].
  - do 2 eexists. split; [reflexivity|]. split; [apply lookup_insert_eq|].
    split; [done|]. intros k w Hk Hw. now rewrite lookup_insert_ne.
  - destruct (lookup_lt_is_Some_2 active i') as [prev Hprev].
    { apply lookup_lt_Some in Hsg. lia. }
    rewrite Hprev. simpl.
    do 2 eexists. split; [reflexivity|]. split; [apply lookup_insert_eq|].
    split; [done|]. intros k w Hk Hw. rewrite lookup_insert_ne by done.
    destruct (offs !! Z.of_nat i') eqn:E; [done|].
    rewrite lookup_insert_ne; [done|]. intros <-. congruence.
Qed.

Lemma recompute_loop_frame (active : list (@SequenceGroup score)) (n lo : nat)
    (offs : gmap Z Z) :
  (lo + n <= length active)%nat ->
  exists offs',
    for_loop lo n (recompute_offset active) offs = Done offs' /\
    forall k w,
      (forall i sg, (lo <= i < lo + n)%nat -> active !! i = Some sg ->
                    get_request_id sg <> k) ->
      offs !! k = Some w -> offs' !! k = Some w.
Proof.
  revert lo offs. induction n as [|n IH]; intros lo offs Hle.
  - exists offs. split; [done|]. auto.
  - destruct (lookup_lt_is_Some_2 active lo) as [sg Hsg]; [lia|].
    destruct (recompute_offset_frame active lo sg offs Hsg)
      as (offs1 & v & Hrun & _ & _ & Hframe).
    destruct (IH (S lo) offs1) as (offs' & Hloop & Hrest); [lia|].
    exists offs'. cbn [for_loop]. rewrite Hrun. simpl. split; [done|].
    intros k w Hk Hw. apply Hrest.
    + intros i sg' Hi. apply Hk. lia.
    + apply Hframe; [|done]. intros ->. apply (Hk lo sg); [lia|done|done].
Qed.

(** X8.  Lines 137-140 never throw and never drop an entry: an offset stored
    under a request id that no active group has, such as that of a group
    retired earlier, stays in the map with its old value; and when the active
    groups have distinct request ids the first active group's offset is 0. *)
Theorem recompute_beam_offets_frame (active : list (@SequenceGroup score))
    (offs : gmap Z Z) :
  exists offs',
    recompute_beam_offets active offs = Done offs' /\
    (forall k w,
        (forall sg, sg ∈ active -> get_request_id sg <> k) ->
        offs !! k = Some w -> offs' !! k = Some w) /\
    (NoDup (map get_request_id active) ->
     forall sg, active !! 0%nat = Some sg ->
       offs' !! get_request_id sg = Some 0).
Proof.
  unfold recompute_beam_offets.
  destruct (recompute_loop_frame active (length active) 0 offs) as (offs' & Hrun & Hframe);
    [lia|].
  exists offs'. split; [done|]. split.
  - intros k w Hk. apply Hframe. intros i sg _ Hsg. apply Hk.
    apply list_elem_of_lookup. eauto.
  - intros Hnd sg Hsg.
    destruct active as [|sg0 rest]; [done|]. injection Hsg as ->.
    cbn [length for_loop] in Hrun.
    destruct (recompute_offset_frame (sg :: rest) 0 sg offs eq_refl)
      as (offs1 & v & Hstep & Hv & Hzero & _).
    rewrite Hstep in Hrun. simpl in Hrun.
    destruct (recompute_loop_frame (sg :: rest) (length rest) 1 offs1)
      as (offs2 & Hrun2 & Hframe2); [simpl; lia|].
    rewrite Hrun2 in Hrun. injection Hrun as <-.
    apply Hframe2; [|now rewrite Hv, (Hzero eq_refl)].
    intros i sg' Hi Hsg' Heq.
    destruct i as [|i]; [lia|]. simpl in Hsg'.
    cbn [map] in Hnd. apply NoDup_cons in Hnd as [Hnot _].
    apply Hnot. rewrite <- Heq.
    apply list_elem_of_fmap. exists sg'. split; [done|].
    apply list_elem_of_lookup. eauto.
Qed.

(** X9.  While the request ids of the active groups are their positions in
    the active list (ids 0, 1, 2, ... in order), lines 137-140 compute the
    prefix sums of the running-hypothesis counts: the key [i - 1] of line 139
    is then the request id of the previous active group. *)
Theorem beam_offsets_prefix_sums_in_order (active : list (@SequenceGroup score))
    (offs : gmap Z Z) :
  (forall i sg, active !! i = Some sg -> get_request_id sg = Z.of_nat i) ->
  prefix_offset active (length active) < SIZE_MOD ->
  exists offs',
    recompute_beam_offets active offs = Done offs' /\
    forall i sg, active !! i = Some sg ->
      offs' !! get_request_id sg = Some (prefix_offset active i).
Proof. apply recompute_beam_offets_in_order. Qed.

End Offsets.

Lemma initial_beam_offets_positions_witness :
  initial_beam_offets [running_group 5 1; running_group 5 2; running_group 7 1]
    !! get_request_id (running_group 7 1) = Some (Z.of_nat 2).
Proof.
  apply (initial_beam_offets_positions
           [running_group 5 1; running_group 5 2; running_group 7 1] 2
           (running_group 7 1)).
  - reflexivity.
  - intros j sg' Hj Hsg'.
    destruct j as [|[|j]]; [| |lia]; injection Hsg' as <-; simpl; lia.
Defined.

Lemma beam_offsets_prefix_sums_in_order_witness :
  exists offs',
    recompute_beam_offets two_groups two_offsets = Done offs' /\
    forall i sg, two_groups !! i = Some sg ->
      offs' !! get_request_id sg = Some (prefix_offset two_groups i).
Proof.
  apply (beam_offsets_prefix_sums_in_order two_groups two_offsets).
  - intros i sg Hsg.
    destruct i as [|[|i]]; [| |done]; injection Hsg as <-; reflexivity.
  - vm_compute. reflexivity.
Defined.

(** *** Retiring groups *)

Section Retirement.

Context {score : Type}.

Lemma remove_retired_kept (heap : list (@SequenceGroup score)) (active kept : list nat) :
  remove_retired heap active = Done kept ->
  sublist kept active /\
  forall p, p ∈ kept <->
            p ∈ active /\ exists sg, heap !! p = Some sg /\ retired sg = false.
Proof.
  revert kept. induction active as [|p ps IH]; intros kept Hrun.
  - injection Hrun as <-. split; [constructor|].
    intros p. split; [intros H|intros [H _]]; by apply elem_of_nil in H.
  - cbn [remove_retired] in Hrun. unfold deref in Hrun at 1.
    destruct (heap !! p) as [sg|] eqn:Hsg; [|done]. simpl in Hrun.
    destruct (remove_retired heap ps) as [kept'| |]; try done. simpl in Hrun.
    destruct (IH kept' eq_refl) as [Hsub Hiff].
    destruct (retired sg) eqn:Hret; injection Hrun as <-.
    + split; [now apply sublist_cons|].
      intros q. rewrite Hiff, elem_of_cons. split; [tauto|].
      intros [[-> | Hq] (sg' & Hsg' & Hr)]; [congruence|eauto].
    + split; [now apply sublist_skip|].
      intros q. rewrite !elem_of_cons, Hiff. split.
      * intros [-> | [Hq Hex]]; [eauto|tauto].
      * intros [[-> | Hq] Hex]; [now left|right; tauto].
Qed.

(** X10.  [std::remove_if] followed by [erase] keeps, in their order, exactly
    the active groups that are neither finished nor out of memory nor
    dropped. *)
Theorem remove_retired_keeps_running (heap : list (@SequenceGroup score))
    (active : list nat) :
  (forall p, p ∈ active -> (p < length heap)%nat) ->
  exists kept,
    remove_retired heap active = Done kept /\
    sublist kept active /\
    forall p, p ∈ kept <->
      p ∈ active /\
      exists sg, heap !! p = Some sg /\
        has_finished sg = false /\ out_of_memory sg = false /\
        handle_dropped sg = false.
Proof.
  intros Hvalid.
  assert (Hdone : exists kept, remove_retired heap active = Done kept).
  { induction active as [|p ps IH]; [eexists; reflexivity|].
    destruct IH as [kept Hkept]; [intros q Hq; apply Hvalid; now right|].
    destruct (lookup_lt_is_Some_2 heap p) as [sg Hsg]; [apply Hvalid; left|].
    cbn [remove_retired]. unfold deref. rewrite Hsg, Hkept. simpl. eauto. }
  destruct Hdone as [kept Hkept]. exists kept. split; [done|].
  destruct (remove_retired_kept heap active kept Hkept) as [Hsub Hiff].
  split; [done|]. intros p. rewrite Hiff.
  split; intros [Hp (sg & Hsg & Hr)]; (split; [done|]); exists sg; (split; [done|]).
  - unfold retired in Hr.
    destruct (has_finished sg), (out_of_memory sg), (handle_dropped sg); done.
  - unfold retired. destruct Hr as (-> & -> & ->). done.
Qed.

End Retirement.

Lemma remove_retired_keeps_running_witness :
  exists kept,
    remove_retired [toy_finish (running_group 0 1); running_group 1 1] [0; 1]%nat
    = Done kept /\
    sublist kept [0; 1]%nat /\
    forall p, p ∈ kept <->
      p ∈ [0; 1]%nat /\
      exists sg, [toy_finish (running_group 0 1); running_group 1 1] !! p = Some sg /\
        has_finished sg = false /\ out_of_memory sg = false /\
        handle_dropped sg = false.
Proof.
  apply (remove_retired_keeps_running
           [toy_finish (running_group 0 1); running_group 1 1] [0; 1]%nat).
  intros p Hp. simpl.
  apply elem_of_cons in Hp as [-> | Hp]; [lia|].
  apply list_elem_of_singleton in Hp as ->. lia.
Defined.

Lemma row_count_cons_eq {score : Type} (sg : @SequenceGroup score)
    (gs : list (@SequenceGroup score)) :
  row_count (sg :: gs)
  = get_num_scheduled_tokens sg * num_running_seqs sg + row_count gs.
Proof. reflexivity. Qed.

(** *** What a step and the whole call keep *)

Section Steps.

Context {score request_info : Type}.
Variable infer : InferRequest -> InferRequest.
Variable sample : @Sampler request_info -> list (@SequenceGroup score) -> Tensor ->
                  @Sampler request_info * list (@SequenceGroup score).
Variable get_beam_idxs : @Sampler request_info -> @SequenceGroup score -> gmap Z Z.
Variable get_beam_search_score : @Sequence score -> GenerationConfig -> score.
Variable stale : nat -> Z.

Lemma schedule_length (active : list nat) (heap heap' : list (@SequenceGroup score))
    (total total' : Z) :
  for_each active schedule_group (heap, total) = Done (heap', total') ->
  length heap' = length heap.
Proof.
  revert heap total. induction active as [|p ps IH]; intros heap total Hrun.
  - now injection Hrun as <- <-.
  - cbn [for_each] in Hrun. apply bind_done in Hrun as ([heap1 total1] & Hstep & Hrun).
    unfold schedule_group in Hstep.
    apply bind_done in Hstep as (sg & _ & Hstep). injection Hstep as <- <-.
    rewrite (IH _ _ Hrun). apply length_insert.
Qed.

Lemma write_back_length (ps : list nat) (sgs heap : list (@SequenceGroup score)) :
  length (write_back heap ps sgs) = length heap.
Proof.
  revert sgs heap. induction ps as [|p ps IH]; intros sgs heap; [done|].
  destruct sgs as [|sg sgs]; [done|]. simpl. rewrite IH. apply length_insert.
Qed.

Lemma sample_groups_length (sampler sampler' : @Sampler request_info)
    (heap heap' : list (@SequenceGroup score)) (ps : list nat) (logits : Tensor) :
  sample_groups sample sampler heap ps logits = Done (sampler', heap') ->
  length heap' = length heap.
Proof.
  unfold sample_groups. intros Hrun.
  apply bind_done in Hrun as (sgs & _ & Hrun).
  destruct (sample sampler sgs logits) as [s sgs']. injection Hrun as <- <-.
  apply write_back_length.
Qed.

Lemma generation_step_heap_length (m_embedding : option (Tensor -> Tensor))
    (has_position_ids : bool) (st st' : @LoopState score request_info) :
  generation_step infer sample get_beam_idxs stale m_embedding has_position_ids st
  = Done st' ->
  length (heap st') = length (heap st).
Proof.
  unfold generation_step. intros Hrun.
  apply bind_done in Hrun as ([heap1 total] & Hsched & Hrun).
  apply bind_done in Hrun as (groups & _ & Hrun).
  apply bind_done in Hrun as (b & _ & Hrun).
  apply bind_done in Hrun as (offsets & _ & Hrun).
  apply bind_done in Hrun as (mask & _ & Hrun).
  apply bind_done in Hrun as (mask' & _ & Hrun).
  apply bind_done in Hrun as (llm & _ & Hrun).
  apply bind_done in Hrun as (logits & _ & Hrun).
  apply bind_done in Hrun as ([sampler' heap2] & Hsample & Hrun).
  apply bind_done in Hrun as (kept & _ & Hrun).
  injection Hrun as <-. cbn [heap].
  apply schedule_length in Hsched. apply sample_groups_length in Hsample.
  congruence.
Qed.

(** X11.  A generation step that completes keeps every group object (the
    heap keeps its length), only removes groups from the active list, in
    order, and leaves no group active that is finished, out of memory or
    dropped. *)
Theorem generation_step_retires (m_embedding : option (Tensor -> Tensor))
    (has_position_ids : bool) (st st' : @LoopState score request_info) :
  generation_step infer sample get_beam_idxs stale m_embedding has_position_ids st
  = Done st' ->
  length (heap st') = length (heap st) /\
  sublist (active_sequence_groups st') (active_sequence_groups st) /\
  forall p, p ∈ active_sequence_groups st' ->
    exists sg, heap st' !! p = Some sg /\
      has_finished sg = false /\ out_of_memory sg = false /\
      handle_dropped sg = false.
Proof.
  unfold generation_step. intros Hrun.
  apply bind_done in Hrun as ([heap1 total] & Hsched & Hrun).
  apply bind_done in Hrun as (groups & _ & Hrun).
  apply bind_done in Hrun as (b & _ & Hrun).
  apply bind_done in Hrun as (offsets & _ & Hrun).
  apply bind_done in Hrun as (mask & _ & Hrun).
  apply bind_done in Hrun as (mask' & _ & Hrun).
  apply bind_done in Hrun as (llm & _ & Hrun).
  apply bind_done in Hrun as (logits & _ & Hrun).
  apply bind_done in Hrun as ([sampler' heap2] & Hsample & Hrun).
  apply bind_done in Hrun as (kept & Hkept & Hrun).
  injection Hrun as <-. cbn [heap active_sequence_groups].
  apply schedule_length in Hsched. apply sample_groups_length in Hsample.
  destruct (remove_retired_kept _ _ _ Hkept) as [Hsub Hiff].
  split; [congruence|]. split; [done|].
  intros p Hp. apply Hiff in Hp as [_ (sg & Hsg & Hr)].
  exists sg. split; [done|]. unfold retired in Hr.
  destruct (has_finished sg), (out_of_memory sg), (handle_dropped sg); done.
Qed.

Lemma generation_loop_keeps (m_embedding : option (Tensor -> Tensor))
    (has_position_ids : bool) (fuel : nat) (st st' : @LoopState score request_info) :
  generation_loop infer sample get_beam_idxs stale m_embedding has_position_ids fuel st
  = Some (Done st') ->
  length (heap st') = length (heap st) /\ active_sequence_groups st' = [].
Proof.
  revert st. induction fuel as [|fuel IH]; intros st Hrun.
  - simpl in Hrun. destruct (active_sequence_groups st) eqn:E; [|done].
    now injection Hrun as <-.
  - cbn [generation_loop] in Hrun.
    destruct (active_sequence_groups st) eqn:E; [now injection Hrun as <-|].
    destruct (generation_step _ _ _ _ _ _ st) as [st1| |] eqn:Hstep; try done.
    apply generation_step_heap_length in Hstep as Hlen.
    destruct (IH st1 Hrun) as [Hlen' Hact]. split; [congruence|done].
Qed.

Lemma prompt_step_length (m_llm : InferRequest) (input_ids attention_mask : Tensor)
    (sampler : @Sampler request_info) (groups : list (@SequenceGroup score))
    (position_ids : option Tensor) (m_embedding : option (Tensor -> Tensor))
    (st : @LoopState score request_info) :
  prompt_step infer sample m_llm input_ids attention_mask sampler groups
              position_ids m_embedding = Done st ->
  length (heap st) = length groups /\
  active_sequence_groups st = seq 0 (length groups).
Proof.
  unfold prompt_step. intros Hrun.
  apply bind_done in Hrun as (batch_size & _ & Hrun).
  apply bind_done in Hrun as (logits & _ & Hrun).
  apply bind_done in Hrun as (sequence_len & _ & Hrun).
  apply bind_done in Hrun as ([sampler' heap'] & Hsample & Hrun).
  injection Hrun as <-. cbn [heap active_sequence_groups].
  apply sample_groups_length in Hsample.
  rewrite length_map in *. done.
Qed.

Lemma returned_balanced (gs : list (@SequenceGroup score)) :
  length (flat_map (fun sg => map get_generated_ids (returned_sequences sg)) gs)
  = length (flat_map (fun sg => map (returned_score get_beam_search_score sg)
                                    (returned_sequences sg)) gs).
Proof.
  induction gs as [|g gs IH]; [done|].
  simpl. rewrite !length_app, !length_map, IH. done.
Qed.

Lemma get_lm_encoded_results_balanced (fuel : nat) (m_llm : InferRequest)
    (input_ids attention_mask : Tensor) (sampler : @Sampler request_info)
    (sequence_groups : list (@SequenceGroup score)) (position_ids : option Tensor)
    (m_embedding : option (Tensor -> Tensor)) (ret : @Returned score request_info) :
  get_lm_encoded_results infer sample get_beam_idxs get_beam_search_score stale
    fuel m_llm input_ids attention_mask sampler sequence_groups position_ids
    m_embedding = Some (Done ret) ->
  length (tokens (results ret)) = length (scores (results ret)).
Proof.
  unfold get_lm_encoded_results. intros Hrun.
  destruct (prompt_step _ _ _ _ _ _ _ _ _) as [st| |]; try done.
  destruct (generation_loop _ _ _ _ _ _ _ st) as [[st'| |]|]; try done.
  injection Hrun as Hrun.
  unfold assemble in Hrun. rewrite collect_results_done in Hrun.
  cbn [mbind outcome_bind] in Hrun.
  apply bind_done in Hrun as (hint & _ & Hrun). injection Hrun as <-.
  cbn [results tokens scores]. apply returned_balanced.
Qed.

(** X12.  When [get_lm_encoded_results] completes, every group it was given
    is still there for result assembly, the loop has emptied the active
    list, the returned tokens and scores are those of the returned
    hypotheses of the groups' final states, one score per token sequence,
    and the sampler holds no bookkeeping for any of the groups. *)
Theorem get_lm_encoded_results_returns (fuel : nat) (m_llm : InferRequest)
    (input_ids attention_mask : Tensor) (sampler : @Sampler request_info)
    (sequence_groups : list (@SequenceGroup score)) (position_ids : option Tensor)
    (m_embedding : option (Tensor -> Tensor)) (ret : @Returned score request_info) :
  get_lm_encoded_results infer sample get_beam_idxs get_beam_search_score stale
    fuel m_llm input_ids attention_mask sampler sequence_groups position_ids
    m_embedding = Some (Done ret) ->
  length (groups_after ret) = length sequence_groups /\
  tokens (results ret)
  = flat_map (fun sg => map get_generated_ids (returned_sequences sg))
             (groups_after ret) /\
  scores (results ret)
  = flat_map (fun sg => map (returned_score get_beam_search_score sg)
                            (returned_sequences sg))
             (groups_after ret) /\
  length (tokens (results ret)) = length (scores (results ret)) /\
  (forall sg, sg ∈ groups_after ret ->
     sampler_requests (sampler_after ret) !! get_request_id sg = None).
Proof.
  unfold get_lm_encoded_results. intros Hrun.
  destruct (prompt_step _ _ _ _ _ _ _ _ _) as [st| |] eqn:Hprompt; try done.
  destruct (generation_loop _ _ _ _ _ _ _ st) as [[st'| |]|] eqn:Hloop; try done.
  injection Hrun as Hrun.
  apply prompt_step_length in Hprompt as [Hlen0 _].
  apply generation_loop_keeps in Hloop as [Hlen1 _].
  unfold assemble in Hrun. rewrite collect_results_done in Hrun.
  cbn [mbind outcome_bind] in Hrun.
  apply bind_done in Hrun as (hint & _ & Hrun). injection Hrun as <-.
  cbn [groups_after results sampler_after tokens scores].
  split; [congruence|]. split; [done|]. split; [done|]. split.
  - apply returned_balanced.
  - intros sg. apply release_requests_released.
Qed.

End Steps.

Lemma generation_step_retires_witness :
  exists st' : @LoopState Z unit,
    length (heap st') = length (heap stepping_state) /\
    sublist (active_sequence_groups st') (active_sequence_groups stepping_state) /\
    forall p, p ∈ active_sequence_groups st' ->
      exists sg, heap st' !! p = Some sg /\
        has_finished sg = false /\ out_of_memory sg = false /\
        handle_dropped sg = false.
Proof.
  assert (Hrun : exists st',
             generation_step toy_infer toy_sample toy_beam_idxs (fun _ => 0)
               None true stepping_state = Done st').
  { vm_compute. eauto. }
  destruct Hrun as [st' Hrun]. exists st'.
  exact (generation_step_retires toy_infer toy_sample toy_beam_idxs (fun _ => 0)
           None true stepping_state st' Hrun).
Defined.

Lemma get_lm_encoded_results_returns_witness :
  exists ret : @Returned Z unit,
    length (groups_after ret) = length two_groups /\
    tokens (results ret)
    = flat_map (fun sg => map get_generated_ids (returned_sequences sg))
               (groups_after ret) /\
    scores (results ret)
    = flat_map (fun sg => map (returned_score toy_beam_score sg)
                              (returned_sequences sg))
               (groups_after ret) /\
    length (tokens (results ret)) = length (scores (results ret)) /\
    (forall sg, sg ∈ groups_after ret ->
       sampler_requests (sampler_after ret) !! get_request_id sg = None).
Proof.
  assert (Hrun : exists ret,
             get_lm_encoded_results toy_infer toy_sample toy_beam_idxs toy_beam_score
               (fun _ => 0) 1 toy_engine (mkTensor [2; 1] [100; 100])
               (mkTensor [2; 1] [1; 1]) toy_sampler two_groups None None
             = Some (Done ret)).
  { vm_compute. eauto. }
  destruct Hrun as [ret Hrun]. exists ret.
  exact (get_lm_encoded_results_returns toy_infer toy_sample toy_beam_idxs
           toy_beam_score (fun _ => 0) 1 toy_engine (mkTensor [2; 1] [100; 100])
           (mkTensor [2; 1] [1; 1]) toy_sampler two_groups None None ret Hrun).
Defined.

(** *** The first group without a finished hypothesis *)

(** X13.  Line 189 reads [get_finished_sequences()[0]] of the first group
    before it looks at the handle: when the first group has no finished
    hypothesis, which is how a group leaves the loop whose handle was dropped
    or that ran out of memory before finishing, the call ends in that
    unchecked read and returns neither results nor hint. *)
Theorem assemble_without_finished {score request_info : Type}
    (get_beam_search_score : @Sequence score -> GenerationConfig -> score)
    (st : @LoopState score request_info)
    (first_group : @SequenceGroup score) (rest : list (@SequenceGroup score)) :
  heap st = first_group :: rest ->
  get_finished_sequences first_group = [] ->
  assemble get_beam_search_score st = Undefined.
Proof.
  intros Hheap Hfin. unfold assemble.
  rewrite collect_results_done. cbn [mbind outcome_bind].
  rewrite Hheap. unfold last_token_of_best_sequence, vector_index. simpl.
  now rewrite Hfin.
Qed.

Lemma assemble_without_finished_witness :
  assemble toy_beam_score dropped_state = Undefined.
Proof.
  apply (assemble_without_finished toy_beam_score dropped_state dropped_group []).
  - reflexivity.
  - reflexivity.
Defined.

(** *** The beam indices of a step *)

Section Beams.

Context {score request_info : Type}.
Variable get_beam_idxs : @Sampler request_info -> @SequenceGroup score -> gmap Z Z.
Variable stale : nat -> Z.

Local Abbreviation beam_entry beam_idxs offs sg :=
  (fun sq : @Sequence score =>
     to_int32 (to_size_t (to_size_t (map_index beam_idxs (get_id sq))
                          + map_index offs (get_request_id sg)))).

Lemma build_sequence_rows_beams (sg : @SequenceGroup score) (beam_idxs offs : gmap Z Z)
    (sq : @Sequence score) (b b' : RowBuilder) :
  build_sequence_rows sg beam_idxs offs sq b = Done b' ->
  next_beams b' = next_beams b ++ [beam_entry beam_idxs offs sg sq].
Proof.
  unfold build_sequence_rows. intros Hrun.
  apply bind_done in Hrun as (words & _ & Hrun).
  apply bind_done in Hrun as (off & Hoff & Hrun).
  injection Hrun as <-. cbn [next_beams].
  unfold map_at in Hoff. unfold map_index.
  destruct (offs !! get_request_id sg); [|done]. now injection Hoff as ->.
Qed.

Lemma build_sequences_beams (sg : @SequenceGroup score) (beam_idxs offs : gmap Z Z)
    (sqs : list (@Sequence score)) (b b' : RowBuilder) :
  for_each sqs (build_sequence_rows sg beam_idxs offs) b = Done b' ->
  next_beams b' = next_beams b ++ map (beam_entry beam_idxs offs sg) sqs.
Proof.
  revert b. induction sqs as [|sq sqs IH]; intros b Hrun.
  - injection Hrun as <-. now rewrite app_nil_r.
  - cbn [for_each] in Hrun. apply bind_done in Hrun as (b1 & Hstep & Hrun).
    rewrite (IH _ Hrun), (build_sequence_rows_beams _ _ _ _ _ _ Hstep).
    now rewrite <- app_assoc.
Qed.

Lemma build_groups_beams (sampler : @Sampler request_info) (offs : gmap Z Z)
    (groups : list (@SequenceGroup score)) (b b' : RowBuilder) :
  for_each groups (build_group_rows get_beam_idxs sampler offs) b = Done b' ->
  next_beams b'
  = next_beams b
    ++ flat_map (fun sg => map (beam_entry (get_beam_idxs sampler sg) offs sg)
                               (get_running_sequences sg)) groups.
Proof.
  revert b. induction groups as [|sg groups IH]; intros b Hrun.
  - injection Hrun as <-. now rewrite app_nil_r.
  - cbn [for_each] in Hrun. apply bind_done in Hrun as (b1 & Hstep & Hrun).
    unfold build_group_rows in Hstep.
    rewrite (IH _ Hrun), (build_sequences_beams _ _ _ _ _ _ Hstep).
    simpl. now rewrite <- app_assoc.
Qed.

(** X14.  When the rows of a step are built, [next_beams] holds one entry per
    running hypothesis, in row order: the sampler's beam index of the
    hypothesis (0 when the sampler has none for it) plus the offset stored
    under the group's request id, added as [size_t] and narrowed to
    [int32_t].  With one token scheduled per hypothesis its length is the
    row count of the step, the length given to the [beam_idx] tensor. *)
Theorem build_rows_next_beams (sampler : @Sampler request_info) (offs : gmap Z Z)
    (groups : list (@SequenceGroup score)) (total : Z) (b : RowBuilder) :
  build_rows get_beam_idxs stale sampler offs groups total = Done b ->
  next_beams b
  = flat_map (fun sg => map (beam_entry (get_beam_idxs sampler sg) offs sg)
                            (get_running_sequences sg)) groups /\
  ((forall sg, sg ∈ groups -> get_num_scheduled_tokens sg = 1) ->
   Z.of_nat (length (next_beams b)) = row_count groups).
Proof.
  unfold build_rows. intros Hrun.
  apply build_groups_beams in Hrun. cbn [next_beams app] in Hrun.
  split; [done|]. intros Hone. rewrite Hrun. clear Hrun.
  induction groups as [|sg groups IH]; [done|].
  rewrite row_count_cons_eq. cbn [flat_map].
  rewrite length_app, length_map, Nat2Z.inj_add, IH.
  - rewrite (Hone sg) by left. unfold num_running_seqs. lia.
  - intros sg' Hin. apply Hone. now right.
Qed.

End Beams.

Lemma build_rows_next_beams_witness :
  exists b,
    build_rows toy_beam_idxs (fun _ => 0) toy_sampler two_offsets two_groups 3 = Done b /\
    next_beams b
    = flat_map (fun sg =>
        map (fun sq : @Sequence Z =>
               to_int32 (to_size_t (to_size_t (map_index (toy_beam_idxs toy_sampler sg)
                                                         (get_id sq))
                                    + map_index two_offsets (get_request_id sg))))
            (get_running_sequences sg)) two_groups /\
    ((forall sg, sg ∈ two_groups -> get_num_scheduled_tokens sg = 1) ->
     Z.of_nat (length (next_beams b)) = row_count two_groups).
Proof.
  assert (Hrun : exists b,
             build_rows toy_beam_idxs (fun _ => 0) toy_sampler two_offsets two_groups 3
             = Done b).
  { vm_compute. eauto. }
  destruct Hrun as [b Hrun]. exists b. split; [exact Hrun|].
  exact (build_rows_next_beams toy_beam_idxs (fun _ => 0) toy_sampler two_offsets
           two_groups 3 b Hrun).
Defined.

End OrchestratorMore.

(** ** Pipeline Facade: turn inputs, decoding, entry points *)

Module FacadeMore.
Import Orchestrator Facade Entry Examples MoreExamples BeamState BeamStateFacts BeamStateMore
       OrchestratorMore FacadeFacts.

Lemma drop_repeat {A} (x : A) (n m : nat) :
  drop n (repeat x m) = repeat x (m - n).
Proof.
  revert n. induction m as [|m IH]; intros n.
  - now destruct n.
  - destruct n as [|n]; [done|]. simpl. apply IH.
Qed.

Lemma Forall_repeat {A} (ok : A -> Prop) (x : A) (n : nat) :
  ok x -> Forall ok (repeat x n).
Proof. intros H. induction n; simpl; constructor; done. Qed.

(** *** Decoding the results *)

Section Decoding.

Context {score Text : Type}.
Variable decode : list Z -> Text.

Lemma decode_loop (e : @EncodedResults score) (n lo : nat)
    (acc : @VLMDecodedResults score Text) :
  (lo + n <= length (tokens e))%nat ->
  (lo + n <= length (scores e))%nat ->
  for_loop lo n
    (fun idx decoded =>
       toks ← vector_at (tokens e) idx ;
       sc ← vector_at (scores e) idx ;
       Done {| texts := texts decoded ++ [decode toks];
               decoded_scores := decoded_scores decoded ++ [sc] |})
    acc
  = Done {| texts := texts acc ++ map decode (take n (drop lo (tokens e)));
            decoded_scores := decoded_scores acc ++ take n (drop lo (scores e)) |}.
Proof.
  revert lo acc. induction n as [|n IH]; intros lo acc Ht Hs.
  - simpl. rewrite !app_nil_r. now destruct acc.
  - destruct (lookup_lt_is_Some_2 (tokens e) lo) as [toks Htoks]; [lia|].
    destruct (lookup_lt_is_Some_2 (scores e) lo) as [sc Hsc]; [lia|].
    cbn [for_loop].
    rewrite (vector_at_lookup _ _ _ Htoks). cbn [mbind outcome_bind].
    rewrite (vector_at_lookup _ _ _ Hsc). cbn [mbind outcome_bind].
    rewrite IH by lia.
    cbn [texts decoded_scores].
    rewrite (drop_S _ _ _ Htoks), (drop_S _ _ _ Hsc). simpl.
    now rewrite <- !app_assoc.
Qed.

(** X15.  Lines 209-213 decode every returned token sequence and copy its
    score with [scores.at(idx)]: with at least as many scores as token
    sequences the loop completes with one text per sequence, and with fewer
    it throws [std::out_of_range]. *)
Theorem decode_results_texts (e : @EncodedResults score) :
  decode_results decode e
  = if bool_decide (length (tokens e) <= length (scores e))%nat
    then Done {| texts := map decode (tokens e);
                 decoded_scores := take (length (tokens e)) (scores e) |}
    else Throws std_out_of_range.
Proof.
  unfold decode_results. case_bool_decide as Hle.
  - rewrite decode_loop by lia. simpl. now rewrite firstn_all.
  - replace (length (tokens e))
      with (length (scores e) + S (length (tokens e) - length (scores e) - 1))%nat
      at 1 by lia.
    rewrite for_loop_split, decode_loop by lia.
    cbn [mbind outcome_bind for_loop Nat.add].
    destruct (lookup_lt_is_Some_2 (tokens e) (length (scores e))) as [toks Htoks];
      [lia|].
    rewrite (vector_at_lookup _ _ _ Htoks). cbn [mbind outcome_bind].
    rewrite vector_at_beyond by lia. done.
Qed.

End Decoding.

(** *** The inputs of a turn *)

Lemma to_int64_small (z : Z) : - 2 ^ 63 <= z < 2 ^ 63 -> to_int64 z = z.
Proof. intros Hz. unfold to_int64. rewrite Z.mod_small; lia. Qed.

(** A [size_t] counter stored into an [int64_t] word: only the value modulo
    [2^64] matters. *)
Lemma to_int64_counter (d i : Z) :
  to_int64 (to_size_t (to_size_t d + i)) = to_int64 (d + i).
Proof.
  unfold to_int64, to_size_t, SIZE_MOD.
  rewrite (Z.add_mod_idemp_l (d mod 2 ^ 64 + i)) by lia.
  rewrite <- Z.add_assoc, (Z.add_mod_idemp_l d) by lia.
  now rewrite Z.add_assoc.
Qed.

Section TurnInputs.

Context {InputsEmbedder : Type}.
Variable get_tokenized_history : InputsEmbedder -> list Z.
Variable get_pad_token_id : Z.

(** X16.  The prompt ids of a turn are the tokenized history followed by pad
    tokens up to [history_size + inputs_embeds_size] entries.  The copy of
    the history (line 181) is not bounded by that size: a longer history
    is written past the end of the buffer. *)
Theorem turn_inputs_prompt_ids (m_language : InferRequest) (embedder : InputsEmbedder)
    (inputs_embeds mask : Tensor) (to_remove_from_hist mask_len embeds_len : Z) :
  tensors m_language !! "attention_mask" = Some mask ->
  shape mask !! 1%nat = Some mask_len ->
  shape inputs_embeds !! 1%nat = Some embeds_len ->
  let total := to_size_t (to_size_t (mask_len - to_remove_from_hist) + embeds_len) in
  let history := get_tokenized_history embedder in
  (Z.of_nat (length history) <= total ->
   exists turn,
     turn_inputs get_tokenized_history get_pad_token_id
       m_language embedder inputs_embeds to_remove_from_hist = Done turn /\
     shape (prompt_ids turn) = [total] /\
     data (prompt_ids turn)
     = history ++ repeat get_pad_token_id (Z.to_nat total - length history)) /\
  (total < Z.of_nat (length history) ->
   turn_inputs get_tokenized_history get_pad_token_id
     m_language embedder inputs_embeds to_remove_from_hist = Undefined).
Proof.
  intros Hmask Hlen Hembeds total history.
  unfold turn_inputs, get_tensor, shape_at.
  rewrite Hmask. cbn [mbind outcome_bind]. rewrite Hlen. cbn [mbind outcome_bind].
  rewrite Hembeds. cbn [mbind outcome_bind].
  rewrite shape_size_flat. fold total. fold history.
  pose proof (to_size_t_range (to_size_t (mask_len - to_remove_from_hist) + embeds_len))
    as Htotal. fold total in Htotal.
  split.
  - intros Hfits. unfold store_range. rewrite in_range_true.
    2: lia. 2: lia. 2: rewrite repeat_length; lia.
    cbn [mbind outcome_bind]. eexists. split; [reflexivity|].
    cbn [prompt_ids shape data]. split; [done|].
    simpl. now rewrite drop_repeat.
  - intros Hlong. unfold store_range. rewrite in_range_false; [done|].
    rewrite repeat_length. lia.
Qed.

(** X17.  The position ids of a turn, one per embedded position, are the
    values of a [size_t] counter that starts at [history_size], each
    converted to the [int64_t] word it is stored in.  While the difference
    between the mask length and [to_remove_from_hist] and the positions
    after it stay within [int64_t], entry [i] is that difference plus [i]:
    it is negative when more is removed than the mask is long.  When no more
    is removed than the mask is long, there is at least one embedded
    position and the positions fit an [int], the last position id is the
    one that [update_position_ids] derives from the mask passed with
    them. *)
Theorem turn_inputs_position_ids (m_language : InferRequest) (embedder : InputsEmbedder)
    (inputs_embeds mask : Tensor) (to_remove_from_hist mask_len embeds_len : Z) :
  tensors m_language !! "attention_mask" = Some mask ->
  shape mask !! 1%nat = Some mask_len ->
  shape inputs_embeds !! 1%nat = Some embeds_len ->
  Z.of_nat (length (get_tokenized_history embedder))
    <= to_size_t (to_size_t (mask_len - to_remove_from_hist) + embeds_len) ->
  exists turn,
    turn_inputs get_tokenized_history get_pad_token_id
      m_language embedder inputs_embeds to_remove_from_hist = Done turn /\
    shape (position_ids turn) = [1; embeds_len] /\
    length (data (position_ids turn)) = Z.to_nat embeds_len /\
    (forall i : nat, Z.of_nat i < embeds_len ->
       data (position_ids turn) !! i
       = Some (to_int64 (to_size_t (history_size turn + Z.of_nat i)))) /\
    (- 2 ^ 63 <= mask_len - to_remove_from_hist ->
     mask_len - to_remove_from_hist + embeds_len <= 2 ^ 63 ->
     forall i : nat, Z.of_nat i < embeds_len ->
       data (position_ids turn) !! i
       = Some (mask_len - to_remove_from_hist + Z.of_nat i)) /\
    (0 <= to_remove_from_hist <= mask_len ->
     1 <= embeds_len ->
     mask_len - to_remove_from_hist + embeds_len <= INT_MAX + 1 ->
     last (data (position_ids turn))
     = Some (mask_len - to_remove_from_hist + embeds_len - 1) /\
     forall stale position_ids,
       update_position_ids stale position_ids (new_atten_mask turn)
       = Done {| shape := [1; 1];
                 data := [mask_len - to_remove_from_hist + embeds_len - 1] |}).
Proof.
  intros Hmask Hlen Hembeds Hhist.
  unfold turn_inputs, get_tensor, shape_at.
  rewrite Hmask. cbn [mbind outcome_bind]. rewrite Hlen. cbn [mbind outcome_bind].
  rewrite Hembeds. cbn [mbind outcome_bind].
  rewrite shape_size_flat, !shape_size_row.
  pose proof (to_size_t_range (to_size_t (mask_len - to_remove_from_hist) + embeds_len))
    as Htotal.
  unfold store_range. rewrite in_range_true.
  2: lia. 2: lia. 2: rewrite repeat_length; lia.
  cbn [mbind outcome_bind]. eexists. split; [reflexivity|].
  cbn [position_ids new_atten_mask history_size shape data].
  assert (Hentry : forall i : nat, Z.of_nat i < embeds_len ->
            iota (Z.to_nat embeds_len) (to_size_t (mask_len - to_remove_from_hist)) !! i
            = Some (to_int64 (to_size_t (to_size_t (mask_len - to_remove_from_hist)
                                         + Z.of_nat i)))).
  { intros i Hi. unfold iota. rewrite list_lookup_fmap, lookup_seq_lt by lia. done. }
  assert (Hplain : - 2 ^ 63 <= mask_len - to_remove_from_hist ->
            mask_len - to_remove_from_hist + embeds_len <= 2 ^ 63 ->
            forall i : nat, Z.of_nat i < embeds_len ->
              iota (Z.to_nat embeds_len) (to_size_t (mask_len - to_remove_from_hist)) !! i
              = Some (mask_len - to_remove_from_hist + Z.of_nat i)).
  { intros Hlow Hhigh i Hi. rewrite Hentry by done. f_equal.
    rewrite to_int64_counter. apply to_int64_small. lia. }
  split; [done|]. split.
  { unfold iota. now rewrite length_map, length_seq. }
  split; [exact Hentry|]. split; [exact Hplain|].
  intros Hrm Hemb Hint. split.
  - rewrite last_lookup.
    replace (Init.Nat.pred (length (iota (Z.to_nat embeds_len)
                                      (to_size_t (mask_len - to_remove_from_hist)))))
      with (Z.to_nat (embeds_len - 1)).
    2:{ unfold iota. rewrite length_map, length_seq. lia. }
    rewrite Hplain; unfold INT_MAX in *; try lia.
    f_equal. lia.
  - intros stale position_ids.
    assert (Hhs : to_size_t (mask_len - to_remove_from_hist)
                  = mask_len - to_remove_from_hist)
      by (apply to_size_t_small; unfold INT_MAX, SIZE_MOD in *; lia).
    assert (Hsum : to_size_t (mask_len - to_remove_from_hist + embeds_len)
                   = mask_len - to_remove_from_hist + embeds_len)
      by (apply to_size_t_small; unfold INT_MAX, SIZE_MOD in *; lia).
    rewrite Hhs, Hsum.
    set (total := mask_len - to_remove_from_hist + embeds_len) in *.
    set (fed := {| shape := [1; total]; data := repeat 1 (Z.to_nat total) |}).
    assert (Hfed : matrix fed 1 total).
    { unfold matrix, fed, sizeof_int64. cbn [shape data].
      rewrite repeat_length. unfold INT_MAX, SIZE_MOD in *. repeat split; lia. }
    rewrite (update_position_ids_done fed 1 total Hfed); [|lia|lia|].
    2:{ apply Forall_repeat. now right. }
    simpl. do 3 f_equal.
    rewrite count_ones_all_ones.
    + rewrite length_take_le; [lia|]. unfold row_words, fed. cbn [data].
      rewrite length_take_le; [lia|]. rewrite length_drop, repeat_length. lia.
    + apply Forall_take. unfold row_words. apply Forall_take, Forall_drop.
      now apply Forall_repeat.
Qed.

End TurnInputs.

Lemma turn_inputs_prompt_ids_witness :
  exists turn,
    turn_inputs (fun h : list Z => h) 0 toy_engine [7; 8] (mkTensor [1; 3; 4] []) 0
    = Done turn /\
    shape (prompt_ids turn) = [to_size_t (to_size_t (0 - 0) + 3)] /\
    data (prompt_ids turn)
    = [7; 8] ++ repeat 0 (Z.to_nat (to_size_t (to_size_t (0 - 0) + 3)) - length [7; 8]).
Proof.
  refine (proj1 (turn_inputs_prompt_ids (fun h : list Z => h) 0 toy_engine [7; 8]
                   (mkTensor [1; 3; 4] []) (mkTensor [1; 0] []) 0 0 3
                   eq_refl eq_refl eq_refl) _).
  vm_compute. discriminate.
Defined.

(** A turn in the middle of a conversation, and a turn right after the
    reset with one position to remove, whose position ids start at -1. *)
Lemma turn_inputs_position_ids_witness :
  (exists turn,
      turn_inputs (fun h : list Z => h) 0 used_engine [7; 8] (mkTensor [1; 3; 4] []) 2
      = Done turn /\
      shape (position_ids turn) = [1; 3] /\
      (forall i : nat, Z.of_nat i < 3 ->
         data (position_ids turn) !! i = Some (5 - 2 + Z.of_nat i)) /\
      last (data (position_ids turn)) = Some (5 - 2 + 3 - 1) /\
      forall stale position_ids,
        update_position_ids stale position_ids (new_atten_mask turn)
        = Done {| shape := [1; 1]; data := [5 - 2 + 3 - 1] |}) /\
  (exists turn,
      turn_inputs (fun h : list Z => h) 0 toy_engine [] (mkTensor [1; 3; 4] []) 1
      = Done turn /\
      length (data (position_ids turn)) = Z.to_nat 3 /\
      forall i : nat, Z.of_nat i < 3 ->
        data (position_ids turn) !! i = Some (0 - 1 + Z.of_nat i)).
Proof.
  split.
  - destruct (turn_inputs_position_ids (fun h : list Z => h) 0 used_engine [7; 8]
                (mkTensor [1; 3; 4] []) (mkTensor [1; 5] [1; 1; 1; 1; 1]) 2 5 3)
      as (turn & Hrun & Hshape & _ & _ & Hplain & Hagree).
    + reflexivity.
    + reflexivity.
    + reflexivity.
    + vm_compute. discriminate.
    + exists turn. split; [exact Hrun|]. split; [exact Hshape|]. split.
      * apply Hplain; lia.
      * apply Hagree; unfold INT_MAX; lia.
  - destruct (turn_inputs_position_ids (fun h : list Z => h) 0 toy_engine []
                (mkTensor [1; 3; 4] []) (mkTensor [1; 0] []) 1 0 3)
      as (turn & Hrun & _ & Hlength & _ & Hplain & _).
    + reflexivity.
    + reflexivity.
    + reflexivity.
    + vm_compute. discriminate.
    + exists turn. split; [exact Hrun|]. split; [exact Hlength|].
      apply Hplain; lia.
Defined.

(** *** A whole turn *)

Section WholeTurn.

Context {score request_info InputsEmbedder Prompt Images Text : Type}.
Variable infer : InferRequest -> InferRequest.
Variable sample : @Sampler request_info -> list (@SequenceGroup score) -> Tensor ->
                  @Sampler request_info * list (@SequenceGroup score).
Variable get_beam_idxs : @Sampler request_info -> @SequenceGroup score -> gmap Z Z.
Variable get_beam_search_score : @Sequence score -> GenerationConfig -> score.
Variable stale : nat -> Z.
Variable validate : GenerationConfig -> bool.
Variable get_inputs_embeds : InputsEmbedder -> Prompt -> Images -> InputsEmbedder * Tensor.
Variable get_num_tokens_to_remove_from_hist : InputsEmbedder -> Z.
Variable get_tokenized_history : InputsEmbedder -> list Z.
Variable update_tokenized_history :
  InputsEmbedder -> list Z -> option Z -> bool -> Z -> InputsEmbedder.
Variable embedding_infer : Tensor -> Tensor.
Variable get_pad_token_id : Z.
Variable decode : list Z -> Text.
Variable initial_log_prob : score.

(** X21.  A call of [generate] that returns gives at least one text and one
    score per text, leaves the pipeline's stored generation configuration as
    it was (the end-of-sequence id it fills in goes to the call's copy), and
    ran with a configuration that passed [validate]. *)
Theorem generate_returns_texts (fuel : nat)
    (this this' : @VLMPipelineImpl request_info InputsEmbedder)
    (prompt : Prompt) (rgbs : Images) (generation_config : GenerationConfig)
    (decoded : @VLMDecodedResults score Text) :
  generate infer sample get_beam_idxs get_beam_search_score stale validate
    get_inputs_embeds get_num_tokens_to_remove_from_hist get_tokenized_history
    update_tokenized_history embedding_infer get_pad_token_id decode
    initial_log_prob fuel this prompt rgbs generation_config
  = Some (Done (this', decoded)) ->
  texts decoded <> [] /\
  length (texts decoded) = length (decoded_scores decoded) /\
  m_generation_config this' = m_generation_config this /\
  validate
    (if eos_token_id generation_config =? -1
     then {| num_return_sequences := num_return_sequences generation_config;
             is_beam_search := is_beam_search generation_config;
             rng_seed := rng_seed generation_config;
             eos_token_id := eos_token_id (m_generation_config this) |}
     else generation_config) = true.
Proof.
  unfold generate. intros H.
  destruct (validate _) eqn:Hvalid; [|done]. cbn [negb] in H.
  destruct (get_inputs_embeds _ _ _) as [embedder0 inputs_embeds0].
  destruct (turn_inputs _ _ _ _ _ _) as [turn0| |]; try done.
  destruct (get_lm_encoded_results _ _ _ _ _ _ _ _ _ _ _ _ _) as [[ret| |]|] eqn:Hlm;
    try done.
  apply get_lm_encoded_results_balanced in Hlm.
  injection H as H.
  unfold decode_results in H.
  rewrite decode_loop in H by lia.
  cbn [mbind outcome_bind texts decoded_scores] in H.
  apply bind_done in H as (best_tokens & Hbest & H).
  apply bind_done in H as (mask & _ & H).
  apply bind_done in H as (mask_len & _ & H).
  apply bind_done in H as (engine & _ & H).
  injection H as <- <-. cbn [texts decoded_scores m_generation_config].
  rewrite !drop_0. split; [|split; [|done]].
  - rewrite firstn_all. destruct (tokens (results ret)); [|done].
    now vm_compute in Hbest.
  - rewrite length_map, !length_take. lia.
Qed.

End WholeTurn.

Lemma generate_returns_texts_witness :
  exists (this' : @VLMPipelineImpl unit (list Z))
         (decoded : @VLMDecodedResults Z (list Z)),
    texts decoded <> [] /\
    length (texts decoded) = length (decoded_scores decoded) /\
    m_generation_config this' = m_generation_config toy_pipeline /\
    (fun _ : GenerationConfig => true)
      (if eos_token_id toy_config =? -1
       then {| num_return_sequences := num_return_sequences toy_config;
               is_beam_search := is_beam_search toy_config;
               rng_seed := rng_seed toy_config;
               eos_token_id := eos_token_id (m_generation_config toy_pipeline) |}
       else toy_config) = true.
Proof.
  pose (run := toy_generate 1 toy_pipeline).
  assert (Hrun : exists this' decoded, run = Some (Done (this', decoded))).
  { vm_compute. eauto. }
  destruct Hrun as (this' & decoded & Hrun).
  exists this', decoded. unfold run, toy_generate in Hrun.
  apply generate_returns_texts in Hrun. exact Hrun.
Defined.

(** *** The entry points *)

(** X18.  [get_model_weights_pair] returns what was stored last under the
    key and leaves the other keys alone; it throws for a key that was never
    stored or was removed. *)
Theorem get_model_weights_pair_lookup {V : Type} (models_map : gmap string V)
    (key other : string) (entry : V) :
  get_model_weights_pair (<[key := entry]> models_map) key = Done entry /\
  (key <> other ->
   get_model_weights_pair (<[key := entry]> models_map) other
   = get_model_weights_pair models_map other) /\
  get_model_weights_pair (delete key models_map) key = Throws ov_exception /\
  get_model_weights_pair (∅ : gmap string V) key = Throws ov_exception /\
  (forall e, get_model_weights_pair models_map key = Throws e <->
             e = ov_exception /\ models_map !! key = None).
Proof.
  unfold get_model_weights_pair. repeat split.
  - now rewrite lookup_insert_eq.
  - intros Hne. now rewrite lookup_insert_ne.
  - now rewrite lookup_delete_eq.
  - destruct (models_map !! key); congruence.
  - destruct (models_map !! key); congruence.
  - intros [-> ->]. done.
Qed.

Section EntryPoints.

Context {score request_info InputsEmbedder Prompt Text : Type}.
Variable image_name images_name : string.
Variable infer : InferRequest -> InferRequest.
Variable sample : @Sampler request_info -> list (@SequenceGroup score) -> Tensor ->
                  @Sampler request_info * list (@SequenceGroup score).
Variable get_beam_idxs : @Sampler request_info -> @SequenceGroup score -> gmap Z Z.
Variable get_beam_search_score : @Sequence score -> GenerationConfig -> score.
Variable stale : nat -> Z.
Variable validate : GenerationConfig -> bool.
Variable get_inputs_embeds :
  InputsEmbedder -> Prompt -> list Tensor -> InputsEmbedder * Tensor.
Variable get_num_tokens_to_remove_from_hist : InputsEmbedder -> Z.
Variable get_tokenized_history : InputsEmbedder -> list Z.
Variable update_tokenized_history :
  InputsEmbedder -> list Z -> option Z -> bool -> Z -> InputsEmbedder.
Variable embedding_infer : Tensor -> Tensor.
Variable get_pad_token_id : Z.
Variable decode : list Z -> Text.
Variable initial_log_prob : score.
Variable get_config_from_map : gmap string Any -> option GenerationConfig.
Variable update_generation_config :
  GenerationConfig -> gmap string Any -> GenerationConfig.

Local Abbreviation from_map :=
  (generate_from_map (Prompt := Prompt) image_name images_name infer sample
     get_beam_idxs get_beam_search_score stale validate get_inputs_embeds
     get_num_tokens_to_remove_from_hist get_tokenized_history
     update_tokenized_history embedding_infer get_pad_token_id decode
     initial_log_prob get_config_from_map update_generation_config).

Local Abbreviation with_images :=
  (generate (Prompt := Prompt) infer sample get_beam_idxs get_beam_search_score
     stale validate get_inputs_embeds get_num_tokens_to_remove_from_hist
     get_tokenized_history update_tokenized_history embedding_infer
     get_pad_token_id decode initial_log_prob).

(** X19.  [generate(prompt, config_map)] throws, before anything else is
    done, when the map holds both an [image] and an [images] entry or when
    the entry it holds is not of the property's type; otherwise it is
    [generate] on the one image, on the images, or on no image, with the
    configuration of the map (the pipeline's own when the map has none)
    after [update_generation_config]. *)
Theorem generate_from_map_images (fuel : nat)
    (this : @VLMPipelineImpl request_info InputsEmbedder)
    (prompt : Prompt) (config_map : gmap string Any) :
  let config :=
    update_generation_config
      (default (m_generation_config this) (get_config_from_map config_map))
      config_map in
  from_map fuel this prompt config_map
  = match config_map !! image_name, config_map !! images_name with
    | Some _, Some _ => Some (Throws ov_exception)
    | Some (any_tensor t), None => with_images fuel this prompt [t] config
    | Some _, None => Some (Throws ov_exception)
    | None, Some (any_tensors ts) => with_images fuel this prompt ts config
    | None, Some _ => Some (Throws ov_exception)
    | None, None => with_images fuel this prompt [] config
    end.
Proof.
  intros config. unfold generate_from_map, select_images, config.
  destruct (config_map !! image_name) as [[t|ts|]|],
           (config_map !! images_name) as [[t'|ts'|]|];
    simpl; try reflexivity;
    destruct (get_config_from_map config_map); reflexivity.
Qed.

(** X20.  Construction from a models map throws when the map has no
    ["language"] entry or the compiled language model has no
    [attention_mask] tensor.  Otherwise the new pipeline holds the engine
    with a mask of shape (1, 0) and its cache as compiled, the sampler is
    seeded with the configuration's seed, an end-of-sequence id of -1 is
    replaced by the tokenizer's, and the first turn computes its history
    size from a mask length of 0. *)
Theorem construct_from_models_starts_empty {V : Type} (models_map : gmap string V)
    (compile : V -> InferRequest) (embedder : InputsEmbedder)
    (tokenizer_eos : Z) (fresh_sampler : @Sampler request_info)
    (generation_config : GenerationConfig) :
  match models_map !! "language" with
  | None =>
      construct_from_models stale models_map compile embedder tokenizer_eos
        fresh_sampler generation_config = Throws ov_exception
  | Some entry =>
      match tensors (compile entry) !! "attention_mask" with
      | None =>
          construct_from_models stale models_map compile embedder tokenizer_eos
            fresh_sampler generation_config = Throws ov_exception
      | Some _ =>
          exists this,
            construct_from_models stale models_map compile embedder tokenizer_eos
              fresh_sampler generation_config = Done this /\
            (exists mask,
                tensors (m_language this) !! "attention_mask" = Some mask /\
                shape mask = [1; 0] /\ data mask = []) /\
            kv_cache_len (m_language this) = kv_cache_len (compile entry) /\
            get_seed (m_sampler this) = rng_seed generation_config /\
            sampler_requests (m_sampler this) = sampler_requests fresh_sampler /\
            eos_token_id (m_generation_config this)
            = (if eos_token_id generation_config =? -1
               then tokenizer_eos else eos_token_id generation_config) /\
            (forall (embedder' : InputsEmbedder) (inputs_embeds : Tensor)
                    (to_remove_from_hist : Z) (turn : TurnInputs),
                turn_inputs get_tokenized_history get_pad_token_id
                  (trim_kv_cache (m_language this) to_remove_from_hist)
                  embedder' inputs_embeds to_remove_from_hist = Done turn ->
                history_size turn = to_size_t (0 - to_remove_from_hist))
      end
  end.
Proof.
  unfold construct_from_models, get_model_weights_pair.
  destruct (models_map !! "language") as [entry|]; [|done].
  cbn [mbind outcome_bind].
  destruct (tensors (compile entry) !! "attention_mask") as [mask0|] eqn:Hmask0.
  2:{ unfold clear_attention_mask, get_tensor. now rewrite Hmask0. }
  destruct (clear_attention_mask stale (compile entry)) as [engine| |] eqn:Hclear.
  2,3: unfold clear_attention_mask, get_tensor in Hclear;
       rewrite Hmask0 in Hclear; done.
  apply clear_attention_mask_shape in Hclear
    as (Hkv & mask & Hmask & Hshape & Hdata).
  cbn [mbind outcome_bind]. eexists. split; [reflexivity|].
  cbn [m_language m_sampler m_generation_config get_seed set_seed sampler_requests].
  split; [eauto|]. split; [done|]. split.
  { now destruct (eos_token_id generation_config =? -1). }
  split; [done|]. split.
  { now destruct (eos_token_id generation_config =? -1). }
  intros embedder' inputs_embeds rm turn.
  unfold turn_inputs, get_tensor. rewrite trim_kv_cache_tensors, Hmask. simpl.
  rewrite Hshape. simpl.
  destruct (shape_at (shape inputs_embeds) 1); simpl; try done.
  destruct (store_range _ _ _); simpl; try done.
  now intros [= <-].
Qed.

End EntryPoints.

End FacadeMore.
